(** * Mobile inventory manager and its offline cache worker

    A shallow embedding of [script.js] (class [MobileInventoryManager]) and of
    [service-worker.js], with the properties of the specification checked
    against it.

    Layout:
    - [JS]: the fragment of the JavaScript platform the two files rely on:
      values, objects with ordered own properties, strict equality, the array
      callbacks, [JSON.stringify] / [JSON.parse], [localStorage];
    - [Inventory]: the methods of [MobileInventoryManager];
    - [Worker]: the event handlers of the service worker;
    - the theorems, one block per component. *)

From Stdlib Require Import List String Ascii ZArith Lia Bool Arith.
From Stdlib Require Import Decimal DecimalZ DecimalFacts.
Import ListNotations.

Local Open Scope string_scope.
Local Open Scope list_scope.

(* ================================================================== *)
(** ** The JavaScript platform *)
(* ================================================================== *)

Module JS.

(** Exceptions that the code can meet.  [Error] is the plain [new Error(msg)]
    that [processImage] rejects with. *)
Inductive exn : Type :=
| TypeError
| SyntaxError
| QuotaExceededError
| Error (msg : string).

(** A computation that either completes with a value or throws. *)
Inductive result (A : Type) : Type :=
| Ok (a : A)
| Throw (e : exn).
Arguments Ok {A} a.
Arguments Throw {A} e.

Definition bind {A B : Type} (m : result A) (k : A -> result B) : result B :=
  match m with
  | Ok a => k a
  | Throw e => Throw e
  end.

Notation "x <- m ;; k" := (bind m (fun x => k))
  (at level 61, m at next level, right associativity).

(** Data as it lives in the inventory and in the persisted blob: what
    [JSON.parse] can produce.  Numbers are the integers (ids are millisecond
    timestamps); a string is a sequence of code units, of which the model
    keeps those below 256.  The own properties of an object are kept in
    insertion order, as the engine keeps them for non-index keys.
    [undefined] is not a member: it only shows up as the outcome of a
    property read, which is why reads return an [option]. *)
Unset Elimination Schemes.
Inductive value : Type :=
| VNull
| VBool (b : bool)
| VNum (n : Z)
| VStr (s : string)
| VArr (items : list value)
| VObj (props : list (string * value)).
Set Elimination Schemes.

Definition obj : Type := list (string * value).

(** Induction over values that reaches inside arrays and objects. *)
Section ValueInd.
Variable P : value -> Prop.
Hypothesis Hnull : P VNull.
Hypothesis Hbool : forall b, P (VBool b).
Hypothesis Hnum : forall n, P (VNum n).
Hypothesis Hstr : forall s, P (VStr s).
Hypothesis Harr : forall l, Forall P l -> P (VArr l).
Hypothesis Hobj : forall ps, Forall (fun kv => P (snd kv)) ps -> P (VObj ps).

Fixpoint value_ind (v : value) : P v :=
  match v with
  | VNull => Hnull
  | VBool b => Hbool b
  | VNum n => Hnum n
  | VStr s => Hstr s
  | VArr l =>
      Harr l ((fix go (l : list value) : Forall P l :=
                 match l with
                 | [] => Forall_nil _
                 | x :: l' => Forall_cons _ (value_ind x) (go l')
                 end) l)
  | VObj ps =>
      Hobj ps ((fix go (ps : obj) : Forall (fun kv => P (snd kv)) ps :=
                  match ps with
                  | [] => Forall_nil _
                  | kv :: ps' => Forall_cons _ (value_ind (snd kv)) (go ps')
                  end) ps)
  end.
End ValueInd.

(** *** Objects *)

(** [o[k]] for an own property; [None] stands for [undefined]. *)
Fixpoint obj_get (k : string) (o : obj) : option value :=
  match o with
  | [] => None
  | (k', v) :: o' => if String.eqb k' k then Some v else obj_get k o'
  end.

(** [o[k] = v]: an existing property keeps its place, a new one goes last. *)
Fixpoint obj_set (k : string) (v : value) (o : obj) : obj :=
  match o with
  | [] => [(k, v)]
  | (k', v') :: o' =>
      if String.eqb k' k then (k', v) :: o' else (k', v') :: obj_set k v o'
  end.

(** [{...target, ...source}]: the properties of [source] are assigned onto
    [target] one after the other. *)
Definition obj_spread (target source : obj) : obj :=
  fold_left (fun acc kv => obj_set (fst kv) (snd kv) acc) source target.

Definition keys (o : obj) : list string := map fst o.

(** [v.k] for the property names the program reads ([id], [imei], [sold]):
    a read on [null] throws, a read on an object looks the own property up,
    and no other value has a property of these names. *)
Definition get_prop (v : value) (k : string) : result (option value) :=
  match v with
  | VNull => Throw TypeError
  | VObj o => Ok (obj_get k o)
  | _ => Ok None
  end.

(** [a === b] where one side is a primitive.  Arrays and objects are compared
    by reference; the program only ever compares a stored property with a
    fresh argument, which is never the stored reference. *)
Definition strict_equals (a b : value) : bool :=
  match a, b with
  | VNull, VNull => true
  | VBool x, VBool y => Bool.eqb x y
  | VNum x, VNum y => Z.eqb x y
  | VStr x, VStr y => String.eqb x y
  | _, _ => false
  end.

(** The same on operands that may be [undefined] ([None]). *)
Definition strict_equals_opt (a b : option value) : bool :=
  match a, b with
  | Some x, Some y => strict_equals x y
  | None, None => true
  | _, _ => false
  end.

(** The callback [m => m.k === x]. *)
Definition prop_is (k : string) (x : option value) (m : value) : result bool :=
  p <- get_prop m k ;;
  Ok (strict_equals_opt p x).

(** The callback [m => m.k !== x]. *)
Definition prop_is_not (k : string) (x : option value) (m : value) : result bool :=
  b <- prop_is k x m ;;
  Ok (negb b).

(** *** Arrays *)

(** The receiver of [.some], [.filter], [.find], [.findIndex], [.push]: only
    an array has these methods, any other receiver makes the call throw. *)
Definition as_array (v : value) : result (list value) :=
  match v with
  | VArr l => Ok l
  | _ => Throw TypeError
  end.

(** [l.some(f)]: stops at the first element that satisfies [f]. *)
Fixpoint array_some (f : value -> result bool) (l : list value) : result bool :=
  match l with
  | [] => Ok false
  | m :: l' => b <- f m ;; if b then Ok true else array_some f l'
  end.

(** [l.filter(f)]. *)
Fixpoint array_filter (f : value -> result bool) (l : list value)
  : result (list value) :=
  match l with
  | [] => Ok []
  | m :: l' =>
      b <- f m ;;
      r <- array_filter f l' ;;
      Ok (if b then m :: r else r)
  end.

(** [l.findIndex(f)]; [None] stands for [-1]. *)
Fixpoint array_findIndex (f : value -> result bool) (l : list value)
  : result (option nat) :=
  match l with
  | [] => Ok None
  | m :: l' =>
      b <- f m ;;
      if b then Ok (Some 0%nat)
      else i <- array_findIndex f l' ;; Ok (option_map S i)
  end.

(** [l.find(f)]: the element found, as the slot it sits in and the value in
    that slot; [None] stands for [undefined]. *)
Definition array_find (f : value -> result bool) (l : list value)
  : result (option (nat * value)) :=
  i <- array_findIndex f l ;;
  Ok (match i with
      | Some n => option_map (pair n) (nth_error l n)
      | None => None
      end).

(** [l[i] = v] for an index inside the array. *)
Fixpoint array_set {A : Type} (i : nat) (v : A) (l : list A) : list A :=
  match i, l with
  | _, [] => []
  | O, _ :: l' => v :: l'
  | S i', m :: l' => m :: array_set i' v l'
  end.

(** *** [JSON.stringify]

    The compact form (no indentation argument is passed on the persistence
    path). *)

Definition dquote : ascii := ascii_of_nat 34.
Definition backslash : ascii := ascii_of_nat 92.

Definition hex_char (n : nat) : ascii :=
  match n with
  | 0 => "0" | 1 => "1" | 2 => "2" | 3 => "3" | 4 => "4" | 5 => "5"
  | 6 => "6" | 7 => "7" | 8 => "8" | 9 => "9" | 10 => "a" | 11 => "b"
  | 12 => "c" | 13 => "d" | 14 => "e" | _ => "f"
  end%char%nat.

(** How one code unit is written inside a string literal: the quote and the
    backslash are escaped, the control characters get their short escape or
    a [\u00XX] escape, everything else is written as it is. *)
Definition escape_char (c : ascii) : string :=
  if Ascii.eqb c dquote then String backslash (String dquote "")
  else if Ascii.eqb c backslash then String backslash (String backslash "")
  else if Ascii.eqb c "008" then String backslash "b"
  else if Ascii.eqb c "012" then String backslash "f"
  else if Ascii.eqb c "010" then String backslash "n"
  else if Ascii.eqb c "013" then String backslash "r"
  else if Ascii.eqb c "009" then String backslash "t"
  else if (nat_of_ascii c <? 32)%nat then
    String backslash
      (String "u" (String "0" (String "0"
         (String (hex_char (nat_of_ascii c / 16))
            (String (hex_char (nat_of_ascii c mod 16)) "")))))
  else String c "".

Fixpoint escape (s : string) : string :=
  match s with
  | EmptyString => ""
  | String c s' => (escape_char c ++ escape s')%string
  end.

Definition quote (s : string) : string :=
  String dquote (escape s ++ String dquote "")%string.

Fixpoint uint_digits (d : Decimal.uint) : string :=
  match d with
  | Nil => ""
  | D0 d' => String "0" (uint_digits d')
  | D1 d' => String "1" (uint_digits d')
  | D2 d' => String "2" (uint_digits d')
  | D3 d' => String "3" (uint_digits d')
  | D4 d' => String "4" (uint_digits d')
  | D5 d' => String "5" (uint_digits d')
  | D6 d' => String "6" (uint_digits d')
  | D7 d' => String "7" (uint_digits d')
  | D8 d' => String "8" (uint_digits d')
  | D9 d' => String "9" (uint_digits d')
  end.

(** The decimal digits of an integer, with a leading [-] when negative. *)
Definition number_to_string (n : Z) : string :=
  match Z.to_int n with
  | Decimal.Pos d => uint_digits d
  | Decimal.Neg d => String "-" (uint_digits d)
  end.

Fixpoint stringify (v : value) : string :=
  match v with
  | VNull => "null"
  | VBool true => "true"
  | VBool false => "false"
  | VNum n => number_to_string n
  | VStr s => quote s
  | VArr [] => "[]"
  | VArr (x :: l) =>
      ("[" ++ stringify x ++
       (fix more (l : list value) : string :=
          match l with
          | [] => "]"
          | y :: l' => "," ++ stringify y ++ more l'
          end) l)%string
  | VObj [] => "{}"
  | VObj ((k, x) :: ps) =>
      ("{" ++ quote k ++ ":" ++ stringify x ++
       (fix more (ps : obj) : string :=
          match ps with
          | [] => "}"
          | (k', y) :: ps' => "," ++ quote k' ++ ":" ++ stringify y ++ more ps'
          end) ps)%string
  end.

(** [JSON.stringify(v)] always yields a string for these values: none of
    them is [undefined], a function or a cyclic structure. *)
Definition JSON_stringify (v : value) : string := stringify v.

(** *** [JSON.parse] *)

Definition is_ws (c : ascii) : bool :=
  Ascii.eqb c " " || Ascii.eqb c "009" || Ascii.eqb c "010" || Ascii.eqb c "013".

Fixpoint skip_ws (s : string) : string :=
  match s with
  | EmptyString => s
  | String c s' => if is_ws c then skip_ws s' else s
  end.

Definition hex_value (c : ascii) : option nat :=
  let n := nat_of_ascii c in
  if ((48 <=? n) && (n <=? 57))%nat then Some (n - 48)%nat
  else if ((97 <=? n) && (n <=? 102))%nat then Some (n - 87)%nat
  else if ((65 <=? n) && (n <=? 70))%nat then Some (n - 55)%nat
  else None.

(** The code unit an escape letter stands for. *)
Definition unescape (e : ascii) : option ascii :=
  if Ascii.eqb e dquote then Some dquote
  else if Ascii.eqb e backslash then Some backslash
  else if Ascii.eqb e "/" then Some "/"%char
  else if Ascii.eqb e "b" then Some "008"%char
  else if Ascii.eqb e "f" then Some "012"%char
  else if Ascii.eqb e "n" then Some "010"%char
  else if Ascii.eqb e "r" then Some "013"%char
  else if Ascii.eqb e "t" then Some "009"%char
  else None.

(** The characters of a string literal after its opening quote, up to and
    including the closing quote.  A raw control character ends the parse
    with a failure.  An [\uXXXX] escape above [\u00FF] names a code unit
    that the model's strings do not hold and is not given a value. *)
Fixpoint parse_chars (s : string) : option (string * string) :=
  match s with
  | EmptyString => None
  | String c s' =>
      if Ascii.eqb c dquote then Some ("", s')
      else if Ascii.eqb c backslash then
        match s' with
        | EmptyString => None
        | String e s'' =>
            if Ascii.eqb e "u" then
              match s'' with
              | String h1 (String h2 (String h3 (String h4 s3))) =>
                  match hex_value h1, hex_value h2, hex_value h3, hex_value h4 with
                  | Some 0%nat, Some 0%nat, Some a, Some b =>
                      match parse_chars s3 with
                      | Some (str, r) =>
                          Some (String (ascii_of_nat (16 * a + b)) str, r)
                      | None => None
                      end
                  | _, _, _, _ => None
                  end
              | _ => None
              end
            else
              match unescape e with
              | Some c' =>
                  match parse_chars s'' with
                  | Some (str, r) => Some (String c' str, r)
                  | None => None
                  end
              | None => None
              end
        end
      else if (nat_of_ascii c <? 32)%nat then None
      else
        match parse_chars s' with
        | Some (str, r) => Some (String c str, r)
        | None => None
        end
  end.

Definition digit_of (c : ascii) : option (Decimal.uint -> Decimal.uint) :=
  match c with
  | "0" => Some D0 | "1" => Some D1 | "2" => Some D2 | "3" => Some D3
  | "4" => Some D4 | "5" => Some D5 | "6" => Some D6 | "7" => Some D7
  | "8" => Some D8 | "9" => Some D9 | _ => None
  end%char.

Fixpoint parse_digits (s : string) : Decimal.uint * string :=
  match s with
  | EmptyString => (Nil, s)
  | String c r =>
      match digit_of c with
      | Some f => let (d, r') := parse_digits r in (f d, r')
      | None => (Nil, s)
      end
  end.

(** A superfluous leading zero, which the grammar forbids. *)
Definition leading_zero (d : Decimal.uint) : bool :=
  match d with
  | D0 Nil => false
  | D0 _ => true
  | _ => false
  end.

(** What may not follow the integer part in this model: a fraction or an
    exponent would make the literal a number outside [Z]. *)
Definition starts_fraction (s : string) : bool :=
  match s with
  | String c _ => Ascii.eqb c "." || Ascii.eqb c "e" || Ascii.eqb c "E"
  | EmptyString => false
  end.

Definition parse_number (s : string) : option (Z * string) :=
  let (neg, s1) :=
    match s with
    | String c r => if Ascii.eqb c "-" then (true, r) else (false, s)
    | EmptyString => (false, s)
    end in
  let (d, r) := parse_digits s1 in
  match d with
  | Nil => None
  | _ =>
      if leading_zero d || starts_fraction r then None
      else Some (Z.of_int (if neg then Decimal.Neg d else Decimal.Pos d), r)
  end.

(** [s] begins with the literal [lit]: what is left of [s] after it. *)
Fixpoint expect (lit s : string) : option string :=
  match lit, s with
  | EmptyString, _ => Some s
  | String a lit', String b s' => if Ascii.eqb a b then expect lit' s' else None
  | String _ _, EmptyString => None
  end.

(** One [key : value] member, given the parser for values. *)
Definition parse_member (pv : string -> option (value * string)) (s : string)
  : option ((string * value) * string) :=
  match skip_ws s with
  | String c r =>
      if Ascii.eqb c dquote then
        match parse_chars r with
        | Some (k, r1) =>
            match skip_ws r1 with
            | String c1 r2 =>
                if Ascii.eqb c1 ":" then
                  match pv r2 with
                  | Some (v, r3) => Some ((k, v), r3)
                  | None => None
                  end
                else None
            | EmptyString => None
            end
        | None => None
        end
      else None
  | EmptyString => None
  end.

(** Recursive descent; [fuel] bounds the nesting and the number of items,
    and the length of the text is always enough of it. *)
Fixpoint parse_value (fuel : nat) (s : string) : option (value * string) :=
  match fuel with
  | O => None
  | S n =>
      match skip_ws s with
      | EmptyString => None
      | String c r =>
          if Ascii.eqb c "n" then option_map (pair VNull) (expect "ull" r)
          else if Ascii.eqb c "t" then option_map (pair (VBool true)) (expect "rue" r)
          else if Ascii.eqb c "f" then option_map (pair (VBool false)) (expect "alse" r)
          else if Ascii.eqb c dquote then
            match parse_chars r with
            | Some (str, r') => Some (VStr str, r')
            | None => None
            end
          else if Ascii.eqb c "[" then
            match skip_ws r with
            | String c' r' =>
                if Ascii.eqb c' "]" then Some (VArr [], r')
                else
                  match parse_value n r with
                  | Some (x, r1) =>
                      match parse_elems n r1 with
                      | Some (xs, r2) => Some (VArr (x :: xs), r2)
                      | None => None
                      end
                  | None => None
                  end
            | EmptyString => None
            end
          else if Ascii.eqb c "{" then
            match skip_ws r with
            | String c' r' =>
                if Ascii.eqb c' "}" then Some (VObj [], r')
                else
                  match parse_member (parse_value n) r with
                  | Some (kv, r1) =>
                      match parse_members n r1 with
                      | Some (kvs, r2) => Some (VObj (obj_spread [] (kv :: kvs)), r2)
                      | None => None
                      end
                  | None => None
                  end
            | EmptyString => None
            end
          else
            match parse_number (String c r) with
            | Some (z, r') => Some (VNum z, r')
            | None => None
            end
      end
  end

with parse_elems (fuel : nat) (s : string) : option (list value * string) :=
  match fuel with
  | O => None
  | S n =>
      match skip_ws s with
      | String c r =>
          if Ascii.eqb c "]" then Some ([], r)
          else if Ascii.eqb c "," then
            match parse_value n r with
            | Some (x, r1) =>
                match parse_elems n r1 with
                | Some (xs, r2) => Some (x :: xs, r2)
                | None => None
                end
            | None => None
            end
          else None
      | EmptyString => None
      end
  end

with parse_members (fuel : nat) (s : string) : option (obj * string) :=
  match fuel with
  | O => None
  | S n =>
      match skip_ws s with
      | String c r =>
          if Ascii.eqb c "}" then Some ([], r)
          else if Ascii.eqb c "," then
            match parse_member (parse_value n) r with
            | Some (kv, r1) =>
                match parse_members n r1 with
                | Some (kvs, r2) => Some (kv :: kvs, r2)
                | None => None
                end
            | None => None
            end
          else None
      | EmptyString => None
      end
  end.

(** [JSON.parse(text)]: one value, with nothing but white space after it;
    anything else is a [SyntaxError].  A repeated key keeps its first place
    and its last value, which is what assigning the members in order does. *)
Definition JSON_parse (text : string) : result value :=
  match parse_value (S (String.length text)) text with
  | Some (v, r) =>
      match skip_ws r with
      | EmptyString => Ok v
      | String _ _ => Throw SyntaxError
      end
  | None => Throw SyntaxError
  end.

(** *** Values as the engine holds them *)

Fixpoint distinct (l : list string) : bool :=
  match l with
  | [] => true
  | k :: l' => negb (existsb (String.eqb k) l') && distinct l'
  end.

(** An object has each of its keys once, at every depth: the shape of every
    object the engine builds. *)
Fixpoint unique_keys (v : value) : bool :=
  match v with
  | VArr l => forallb unique_keys l
  | VObj ps =>
      distinct (map fst ps) && forallb (fun kv => unique_keys (snd kv)) ps
  | _ => true
  end.

(** The integers that the engine's numbers, which are doubles, hold
    exactly and that [JSON.stringify] writes with all their digits: those
    of magnitude at most 2^53 - 1.  On these the numbers of the model and
    of the engine agree; a larger literal is rounded by the engine, and one
    beyond the range of the doubles is read as [Infinity] and written back
    as [null]. *)
Definition safe_integer (n : Z) : bool :=
  (Z.abs n <=? 9007199254740991)%Z.

Fixpoint safe_numbers (v : value) : bool :=
  match v with
  | VNum n => safe_integer n
  | VArr l => forallb safe_numbers l
  | VObj ps => forallb (fun kv => safe_numbers (snd kv)) ps
  | _ => true
  end.

(** The values on which the model is the engine: objects as the engine
    builds them, numbers that are held exactly. *)
Definition exact (v : value) : bool := unique_keys v && safe_numbers v.

(** The tail of an array after its first element, and of an object after
    its first member, as [stringify] writes them. *)
Definition stringify_items (l : list value) : string :=
  (fix more (l : list value) : string :=
     match l with
     | [] => "]"
     | y :: l' => "," ++ stringify y ++ more l'
     end)%string l.

Definition stringify_members (ps : obj) : string :=
  (fix more (ps : obj) : string :=
     match ps with
     | [] => "}"
     | (k', y) :: ps' => "," ++ quote k' ++ ":" ++ stringify y ++ more ps'
     end)%string ps.

(** What follows a value inside a text that [stringify] wrote. *)
Definition delimited (s : string) : bool :=
  match s with
  | EmptyString => true
  | String c _ => Ascii.eqb c "," || Ascii.eqb c "]" || Ascii.eqb c "}"
  end.

Definition no_digit_ahead (s : string) : Prop :=
  match s with
  | EmptyString => True
  | String c _ => digit_of c = None
  end.

(** The first character of a number: a digit or the sign. *)
Definition opens_number (c : ascii) : bool :=
  Ascii.eqb c "-" || match digit_of c with Some _ => true | None => false end.

(** Every text that [stringify] writes starts with a character that is
    neither white space nor a closing bracket. *)
Definition opens_value (c : ascii) : bool :=
  negb (is_ws c) && negb (Ascii.eqb c "]") && negb (Ascii.eqb c "}").

(** *** [String.prototype.trim] *)

(** White space and line terminators among the code units of the model. *)
Definition is_space (c : ascii) : bool :=
  let n := nat_of_ascii c in
  ((9 <=? n) && (n <=? 13) || (n =? 32) || (n =? 160))%nat.

Fixpoint trim_start (s : string) : string :=
  match s with
  | EmptyString => s
  | String c s' => if is_space c then trim_start s' else s
  end.

Fixpoint trim_end (s : string) : string :=
  match s with
  | EmptyString => s
  | String c s' =>
      match trim_end s' with
      | EmptyString => if is_space c then "" else String c ""
      | t => String c t
      end
  end.

Definition trim (s : string) : string := trim_end (trim_start s).

(** *** [localStorage]

    String slots under string keys, with a bound on what the origin may
    hold: a write that would take the store over the bound throws and
    leaves the store as it was. *)

Record localStorage : Type := {
  items : list (string * string);
  capacity : nat
}.

Fixpoint slot_get (k : string) (its : list (string * string)) : option string :=
  match its with
  | [] => None
  | (k', v) :: its' => if String.eqb k' k then Some v else slot_get k its'
  end.

Fixpoint slot_set (k v : string) (its : list (string * string))
  : list (string * string) :=
  match its with
  | [] => [(k, v)]
  | (k', v') :: its' =>
      if String.eqb k' k then (k', v) :: its' else (k', v') :: slot_set k v its'
  end.

Fixpoint usage (its : list (string * string)) : nat :=
  match its with
  | [] => 0
  | (k, v) :: its' => String.length k + String.length v + usage its'
  end.

(** [localStorage.getItem(k)]; [None] stands for [null]. *)
Definition getItem (k : string) (ls : localStorage) : option string :=
  slot_get k (items ls).

(** [localStorage.setItem(k, v)]. *)
Definition setItem (k v : string) (ls : localStorage) : result localStorage :=
  let its := slot_set k v (items ls) in
  if (usage its <=? capacity ls)%nat
  then Ok {| items := its; capacity := capacity ls |}
  else Throw QuotaExceededError.

(** *** [String.prototype.toLowerCase] and [String.prototype.includes] *)

(** The lower-case form of a code unit of the model: the letters A to Z and
    the accented capitals from U+00C0 to U+00DE, the multiplication sign
    U+00D7 apart, move up by 32; every other code unit stays. *)
Definition lower_char (c : ascii) : ascii :=
  let n := nat_of_ascii c in
  if ((65 <=? n) && (n <=? 90)
      || (192 <=? n) && (n <=? 222) && negb (n =? 215))%nat
  then ascii_of_nat (n + 32)
  else c.

Fixpoint toLowerCase (s : string) : string :=
  match s with
  | EmptyString => s
  | String c s' => String (lower_char c) (toLowerCase s')
  end.

(** [s.includes(t)]: [t] starts at some position of [s]. *)
Fixpoint includes (s t : string) : bool :=
  String.prefix t s
  || match s with
     | EmptyString => false
     | String _ s' => includes s' t
     end.

End JS.

(* ================================================================== *)
(** ** [script.js]: the inventory manager *)
(* ================================================================== *)

Module Inventory.
Import JS.

(** The fields of a [MobileInventoryManager], together with the storage of
    the origin it reads and writes. *)
Record manager : Type := {
  inventory : value;
  isEditing : bool;
  editingId : value;
  store : localStorage
}.

Definition storageKey : string := "mobileInventory".

(** What the user is shown: the banner of [showError] or of [showSuccess]. *)
Inductive notice : Type :=
| ShowError (message : string)
| ShowSuccess (message : string).

Definition with_inventory (st : manager) (inv : value) : manager :=
  {| inventory := inv; isEditing := isEditing st;
     editingId := editingId st; store := store st |}.

Definition with_store (st : manager) (ls : localStorage) : manager :=
  {| inventory := inventory st; isEditing := isEditing st;
     editingId := editingId st; store := ls |}.

(** [loadInventory()]: the stored text is parsed when there is one and it is
    not empty; a text that does not parse is logged and gives [[]]. *)
Definition loadInventory (ls : localStorage) : value :=
  match getItem storageKey ls with
  | Some stored =>
      if String.eqb stored "" then VArr []
      else
        match JSON_parse stored with
        | Ok parsed => parsed
        | Throw _ => VArr []
        end
  | None => VArr []
  end.

(** The constructor, without the page it draws. *)
Definition new_manager (ls : localStorage) : manager :=
  {| inventory := loadInventory ls; isEditing := false;
     editingId := VNull; store := ls |}.

(** [saveInventory()]: a failing write is caught and reported; memory stays
    as it is. *)
Definition saveInventory (st : manager) : manager * list notice :=
  match setItem storageKey (JSON_stringify (inventory st)) (store st) with
  | Ok ls => (with_store st ls, [])
  | Throw _ =>
      (st, [ShowError "Failed to save data. Storage might be full."])
  end.

(** The class [\d]: the digits 0 to 9. *)
Definition is_digit (c : ascii) : bool :=
  ((48 <=? nat_of_ascii c) && (nat_of_ascii c <=? 57))%nat.

(** A match of [^\d{n}$]: [n] digits and then the end of the text. *)
Fixpoint digits_exact (n : nat) (s : string) : bool :=
  match n, s with
  | O, EmptyString => true
  | S n', String c s' => is_digit c && digits_exact n' s'
  | _, _ => false
  end.

(** [validateIMEI(imei)], that is [/^\d{15}$/.test(imei)]. *)
Definition validateIMEI (imei : string) : bool := digits_exact 15 imei.

(** [isDuplicateIMEI(imei)]. *)
Definition isDuplicateIMEI (imei : option value) (st : manager) : result bool :=
  l <- as_array (inventory st) ;;
  array_some (prop_is "imei" imei) l.

(** A chosen photo: its size in bytes and what reading it as a data URL
    gives ([None] when the reader reports an error). *)
Record file : Type := {
  size : Z;
  dataURL : option string
}.

(** [processImage(file)]; a rejected promise is a [Throw]. *)
Definition processImage (f : file) : result string :=
  if (size f >? 5 * 1024 * 1024)%Z
  then Throw (Error "Image size too large. Please choose a smaller image.")
  else
    match dataURL f with
    | Some url => Ok url
    | None => Throw (Error "Failed to read image file.")
    end.

(** [addMobile(mobileData)], [now] being what [Date.now()] returns. *)
Definition addMobile (now : Z) (mobileData : obj) (st : manager)
  : result (manager * list notice) :=
  let mobile := obj_spread [("id", VNum now)] mobileData in
  l <- as_array (inventory st) ;;
  Ok (saveInventory (with_inventory st (VArr (l ++ [VObj mobile])%list))).

(** [deleteMobile(id)], [confirmed] being the answer to [confirm(...)]. *)
Definition deleteMobile (confirmed : bool) (id : value) (st : manager)
  : result (manager * list notice) :=
  if confirmed then
    l <- as_array (inventory st) ;;
    kept <- array_filter (prop_is_not "id" (Some id)) l ;;
    let (st', ns) := saveInventory (with_inventory st (VArr kept)) in
    Ok (st', (ns ++ [ShowSuccess "Mobile deleted from inventory."])%list)
  else Ok (st, []).

(** The own properties of a value, in their order: what [{...v}] copies
    and what [v.sold = true] adds to.  The program only does either to an
    element that satisfied [m.id === id], which is an object. *)
Definition own_props (v : value) : obj :=
  match v with
  | VObj o => o
  | _ => []
  end.

(** [updateMobile(id, updatedData)].  The literal
    [{...this.inventory[index], ...updatedData, id}] starts as a copy of the
    element, takes the properties of [updatedData] and then [id]. *)
Definition updateMobile (id : value) (updatedData : obj) (st : manager)
  : result (manager * list notice) :=
  l <- as_array (inventory st) ;;
  index <- array_findIndex (prop_is "id" (Some id)) l ;;
  match index with
  | Some i =>
      let merged :=
        obj_set "id" id (obj_spread (own_props (nth i l VNull)) updatedData) in
      Ok (saveInventory (with_inventory st (VArr (array_set i (VObj merged) l))))
  | None => Ok (st, [])
  end.

(** [resetEditMode()]. *)
Definition resetEditMode (st : manager) : manager :=
  {| inventory := inventory st; isEditing := false;
     editingId := VNull; store := store st |}.

(** [cancelEdit()]. *)
Definition cancelEdit (st : manager) : manager := resetEditMode st.

(** [editMobile(id)]. *)
Definition editMobile (id : value) (st : manager) : result manager :=
  l <- as_array (inventory st) ;;
  mobile <- array_find (prop_is "id" (Some id)) l ;;
  match mobile with
  | None => Ok st
  | Some _ =>
      Ok {| inventory := inventory st; isEditing := true;
            editingId := id; store := store st |}
  end.

(** [markAsSold(id)].  [mobile.sold = true] writes through the reference
    that [find] returned, that is into the slot of the array where the
    object sits; no other slot holds the same object. *)
Definition markAsSold (confirmed : bool) (id : value) (st : manager)
  : result (manager * list notice) :=
  if confirmed then
    l <- as_array (inventory st) ;;
    mobile <- array_find (prop_is "id" (Some id)) l ;;
    match mobile with
    | Some (i, m) =>
        let sold := VObj (obj_set "sold" (VBool true) (own_props m)) in
        let (st', ns) := saveInventory (with_inventory st (VArr (array_set i sold l))) in
        Ok (st', (ns ++ [ShowSuccess "Mobile marked as sold!"])%list)
    | None => Ok (st, [])
    end
  else Ok (st, []).

(** The entries of the submitted form: [formData.get(name)] is the text of
    the field, or [null] when the form data has no such entry; the [photo]
    entry is a file, of size 0 when none was chosen. *)
Record formData : Type := {
  get_brand : option string;
  get_model : option string;
  get_imei : option string;
  get_ram : option string;
  get_storage : option string;
  get_photo : option file
}.

(** [entry.trim()]. *)
Definition trimmed (entry : option string) : result string :=
  match entry with
  | Some s => Ok (trim s)
  | None => Throw TypeError
  end.

Definition entry_value (entry : option string) : value :=
  match entry with
  | Some s => VStr s
  | None => VNull
  end.

(** The [image] of the submitted record: the data URL of the chosen photo,
    [null] when no photo was chosen; a [Throw] when [processImage]
    rejects. *)
Definition submitted_image (fd : formData) : result value :=
  match get_photo fd with
  | Some photoFile =>
      if (size photoFile >? 0)%Z
      then url <- processImage photoFile ;; Ok (VStr url)
      else Ok VNull
  | None => Ok VNull
  end.

(** [handleFormSubmit(event)] on the manager, run to its end in one go:
    the one point where it waits ([await this.processImage(...)]) is taken
    without another handler running in between, and the redraw inside
    [addMobile] and [updateMobile] is taken to complete.
    [Page.handleFormSubmit] and [Page.photoRead] have the handler with its
    wait, its redraw and the form data that a disabled field gives. *)
Definition handleFormSubmit (now : Z) (fd : formData) (st : manager)
  : result (manager * list notice) :=
  brand <- trimmed (get_brand fd) ;;
  model <- trimmed (get_model fd) ;;
  imei <- trimmed (get_imei fd) ;;
  let mobileData : obj :=
    [("brand", VStr brand); ("model", VStr model); ("imei", VStr imei);
     ("ram", entry_value (get_ram fd));
     ("storage", entry_value (get_storage fd))] in
  if negb (validateIMEI imei) then
    Ok (st, [ShowError "IMEI must be exactly 15 digits."])
  else
    duplicate <-
      (if isEditing st then Ok false
       else isDuplicateIMEI (Some (VStr imei)) st) ;;
    if duplicate then
      Ok (st, [ShowError "A mobile with this IMEI already exists in inventory."])
    else
      match submitted_image fd with
      | Throw _ =>
          Ok (st, [ShowError "Failed to process image. Please try again."])
      | Ok img =>
          let mobileData := obj_set "image" img mobileData in
          if isEditing st then
            r <- updateMobile (editingId st) mobileData st ;;
            let (st', ns) := r in
            Ok (resetEditMode st',
                (ns ++ [ShowSuccess "Mobile updated successfully!"])%list)
          else
            r <- addMobile now mobileData st ;;
            let (st', ns) := r in
            Ok (resetEditMode st',
                (ns ++ [ShowSuccess "Mobile added to inventory successfully!"])%list)
      end.

(** One record of the sample data. *)
Definition sample (id : Z) (brand model imei ram storage : string) (sold : bool)
  : obj :=
  [("id", VNum id); ("brand", VStr brand); ("model", VStr model);
   ("imei", VStr imei); ("ram", VStr ram); ("storage", VStr storage);
   ("image", VNull); ("sold", VBool sold)].

Definition testMobiles (now : Z) : list obj :=
  [ sample (now + 1) "Samsung" "Galaxy A54" "123456789012345" "8GB" "128GB" false;
    sample (now + 2) "Apple" "iPhone 13" "234567890123456" "4GB" "128GB" true;
    sample (now + 3) "Xiaomi" "Redmi Note 12" "345678901234567" "6GB" "128GB" false;
    sample (now + 4) "OnePlus" "Nord CE 3" "456789012345678" "8GB" "128GB" false;
    sample (now + 5) "Google" "Pixel 7a" "567890123456789" "8GB" "128GB" true;
    sample (now + 6) "Samsung" "Galaxy S22" "678901234567890" "8GB" "256GB" false;
    sample (now + 7) "Apple" "iPhone 12" "789012345678901" "4GB" "64GB" false;
    sample (now + 8) "Realme" "GT Neo 3" "890123456789012" "8GB" "128GB" true;
    sample (now + 9) "Vivo" "V27 Pro" "901234567890123" "8GB" "256GB" false;
    sample (now + 10) "Oppo" "Reno 8" "012345678901234" "8GB" "128GB" false;
    sample (now + 11) "Apple" "iPhone 14" "112345678901234" "6GB" "128GB" true;
    sample (now + 12) "Samsung" "Galaxy A34" "212345678901234" "6GB" "128GB" false;
    sample (now + 13) "Xiaomi" "Mi 11" "312345678901234" "8GB" "256GB" false;
    sample (now + 14) "Motorola" "Edge 30" "412345678901234" "8GB" "128GB" false;
    sample (now + 15) "Nothing" "Phone (2)" "512345678901234" "12GB" "256GB" true ]%Z.

(** The loop of [generateTestData]: a sample whose IMEI is not yet in the
    inventory is pushed. *)
Fixpoint push_missing (mobiles : list obj) (st : manager) : result manager :=
  match mobiles with
  | [] => Ok st
  | mobile :: rest =>
      duplicate <- isDuplicateIMEI (obj_get "imei" mobile) st ;;
      if duplicate then push_missing rest st
      else
        l <- as_array (inventory st) ;;
        push_missing rest (with_inventory st (VArr (l ++ [VObj mobile])%list))
  end.

(** [generateTestData()] on the manager, with one reading [now] of the
    clock for the fifteen calls of [Date.now()] and the count of the banner
    written out; [Page.generateTestData] has a reading per call and counts
    the samples. *)
Definition generateTestData (confirmed : bool) (now : Z) (st : manager)
  : result (manager * list notice) :=
  if confirmed then
    st1 <- push_missing (testMobiles now) st ;;
    let (st', ns) := saveInventory st1 in
    Ok (st', (ns ++ [ShowSuccess "Generated 15 test mobiles in inventory!"])%list)
  else Ok (st, []).

(** The events through which the page changes the manager. *)
Inductive action : Type :=
| Submit (now : Z) (fd : formData)
| Delete (confirmed : bool) (id : value)
| MarkSold (confirmed : bool) (id : value)
| Edit (id : value)
| CancelEdit
| GenerateTestData (confirmed : bool) (now : Z).

Definition no_notice (r : result manager) : result (manager * list notice) :=
  st <- r ;; Ok (st, []).

Definition handle (a : action) (st : manager) : result (manager * list notice) :=
  match a with
  | Submit now fd => handleFormSubmit now fd st
  | Delete confirmed id => deleteMobile confirmed id st
  | MarkSold confirmed id => markAsSold confirmed id st
  | Edit id => no_notice (editMobile id st)
  | CancelEdit => Ok (cancelEdit st, [])
  | GenerateTestData confirmed now => generateTestData confirmed now st
  end.

(** [validateIMEIInput(event)]: what the field holds after the handler,
    given what it held: [value.replace(/\D/g, '')]. *)
Fixpoint validateIMEIInput (value : string) : string :=
  match value with
  | EmptyString => value
  | String c rest =>
      if is_digit c then String c (validateIMEIInput rest)
      else validateIMEIInput rest
  end.

(** [mobile.k.toLowerCase()]: only a string has the method. *)
Definition lower_prop (k : string) (mobile : value) : result string :=
  p <- get_prop mobile k ;;
  match p with
  | Some (VStr s) => Ok (toLowerCase s)
  | _ => Throw TypeError
  end.

(** [mobile.imei.includes(searchTerm)]: a string looks for a part of itself,
    an array for an element; nothing else has the method. *)
Definition imei_includes (searchTerm : string) (mobile : value) : result bool :=
  p <- get_prop mobile "imei" ;;
  match p with
  | Some (VStr s) => Ok (includes s searchTerm)
  | Some (VArr l) => Ok (existsb (fun x => strict_equals x (VStr searchTerm)) l)
  | _ => Throw TypeError
  end.

(** The callback of the search filter in [displayInventory]; [||] goes on
    to its right operand only when the left one is false. *)
Definition matches (searchTerm : string) (mobile : value) : result bool :=
  brand <- lower_prop "brand" mobile ;;
  if includes brand searchTerm then Ok true
  else
    model <- lower_prop "model" mobile ;;
    if includes model searchTerm then Ok true
    else imei_includes searchTerm mobile.

(** [filteredInventory] in [displayInventory()]: what is handed on to be
    drawn, [input] being the text of the search field. *)
Definition filteredInventory (input : string) (st : manager) : result value :=
  let searchTerm := toLowerCase input in
  if String.eqb searchTerm "" then Ok (inventory st)
  else
    l <- as_array (inventory st) ;;
    shown <- array_filter (matches searchTerm) l ;;
    Ok (VArr shown).

(** *** Vocabulary of the properties *)

(** An inventory whose elements are records (objects). *)
Definition inv_of (recs : list obj) : value := VArr (map VObj recs).

(** A manager holding the records [recs]. *)
Definition manager_of (recs : list obj) (editing : bool) (id : value)
    (ls : localStorage) : manager :=
  {| inventory := inv_of recs; isEditing := editing;
     editingId := id; store := ls |}.

(** The record satisfies [m => m.k === x]. *)
Definition has_prop (k : string) (x : option value) (o : obj) : bool :=
  strict_equals_opt (obj_get k o) x.

(** The first position whose record satisfies [p]. *)
Fixpoint index_of (p : obj -> bool) (recs : list obj) : option nat :=
  match recs with
  | [] => None
  | o :: recs' => if p o then Some 0%nat else option_map S (index_of p recs')
  end.

(** How many records satisfy [p]. *)
Definition count (p : obj -> bool) (recs : list obj) : nat :=
  List.length (filter p recs).

(** The manager once a handler of [handle] has run.  These handlers throw
    only before their first write: the redraw, which comes after the save
    and can throw as well, is not part of them (see [Page]). *)
Definition state_after (r : result (manager * list notice)) (st : manager)
  : manager :=
  match r with
  | Ok (st', _) => st'
  | Throw _ => st
  end.

Definition run (a : action) (st : manager) : manager :=
  state_after (handle a st) st.

(** The managers that the page can hold: the one the constructor builds on
    some storage, and what the events make of it. *)
Inductive reachable : manager -> Prop :=
| reach_start (ls : localStorage) : reachable (new_manager ls)
| reach_step (a : action) (st : manager) :
    reachable st -> reachable (run a st).

(** Exactly fifteen characters, each of them a digit. *)
Definition fifteen_digits (s : string) : Prop :=
  String.length s = 15 /\
  Forall (fun c => is_digit c = true) (list_ascii_of_string s).

(** No two records share an [imei]. *)
Definition unique_imei (recs : list obj) : Prop :=
  NoDup (map (obj_get "imei") recs).

(** The record is marked as sold. *)
Definition sold_flag (o : obj) : bool :=
  match obj_get "sold" o with
  | Some (VBool true) => true
  | _ => false
  end.

(** [new] is [old] after a change that keeps its [id] and does not take a
    sale back. *)
Definition stays_sold (old new : obj) : Prop :=
  obj_get "id" new = obj_get "id" old /\
  (sold_flag old = true -> sold_flag new = true).

(** The records stay in their slots, each keeping its [id] and its sale;
    records may have been appended. *)
Definition in_place (recs recs' : list obj) : Prop :=
  exists kept news, recs' = (kept ++ news)%list /\ Forall2 stays_sold recs kept.

(** Records were taken out; those that remain are as they were. *)
Definition removal (recs recs' : list obj) : Prop :=
  exists keep : obj -> bool, recs' = filter keep recs.

(** The [mobileData] of a submission once its [image] is set, and the
    record that an accepted submission appends. *)
Definition form_fields (brand model imei : string)
    (ram storage : option string) (image : value) : obj :=
  [("brand", VStr brand); ("model", VStr model); ("imei", VStr imei);
   ("ram", entry_value ram); ("storage", entry_value storage);
   ("image", image)].

Definition new_record (now : Z) (brand model imei : string)
    (ram storage : option string) (image : value) : obj :=
  ("id", VNum now) :: form_fields brand model imei ram storage image.

(** Saving the manager with [recs] for its inventory. *)
Definition settle (st : manager) (recs : list obj) : manager * list notice :=
  saveInventory (with_inventory st (inv_of recs)).

(** The samples that the loop of [generateTestData] pushes onto [recs]. *)
Fixpoint missing (mobiles recs : list obj) : list obj :=
  match mobiles with
  | [] => []
  | mobile :: rest =>
      if existsb (has_prop "imei" (obj_get "imei" mobile)) recs
      then missing rest recs
      else mobile :: missing rest (recs ++ [mobile])%list
  end.

(** A filled form without a photo, and an empty storage. *)
Definition form_of (brand model imei ram storage : string) : formData :=
  {| get_brand := Some brand; get_model := Some model; get_imei := Some imei;
     get_ram := Some ram; get_storage := Some storage;
     get_photo := Some {| size := 0; dataURL := None |} |}.

Definition empty_storage (room : nat) : localStorage :=
  {| items := []; capacity := room |}.

Definition validation_failure : notice :=
  ShowError "IMEI must be exactly 15 digits.".

Definition duplicate_failure : notice :=
  ShowError "A mobile with this IMEI already exists in inventory.".

Definition storage_failure : notice :=
  ShowError "Failed to save data. Storage might be full.".

(** What a handler has shown; a handler that throws has shown nothing. *)
Definition notices_after (r : result (manager * list notice)) : list notice :=
  match r with
  | Ok (_, ns) => ns
  | Throw _ => []
  end.

(** The stored text is the inventory in memory: a restart gives it back. *)
Definition in_sync (st : manager) : Prop :=
  loadInventory (store st) = inventory st.

(** How many digits a text holds. *)
Fixpoint digit_count (s : string) : nat :=
  match s with
  | EmptyString => 0
  | String c rest => (if is_digit c then 1 else 0) + digit_count rest
  end.

(** The texts of a record that the search reads, when all three are
    strings: its brand and model in lower case, and its IMEI. *)
Definition search_texts (o : obj) : option (string * string * string) :=
  match obj_get "brand" o, obj_get "model" o, obj_get "imei" o with
  | Some (VStr b), Some (VStr m), Some (VStr i) =>
      Some (toLowerCase b, toLowerCase m, i)
  | _, _, _ => None
  end.

(** The record holds [searchTerm] in one of these texts. *)
Definition shows (searchTerm : string) (o : obj) : bool :=
  match search_texts o with
  | Some (b, m, i) =>
      includes b searchTerm || includes m searchTerm || includes i searchTerm
  | None => false
  end.

End Inventory.

(* ================================================================== *)
(** ** [script.js]: the handlers as the page runs them *)
(* ================================================================== *)

(** [Inventory] has what each method does to the fields of the manager and
    to the storage.  This part adds what a handler meets on the page around
    that: the redraw of the list ([displayInventory]), which comes after the
    save and can throw; the error banner; the IMEI field, which edit mode
    disables and which a disabled field keeps out of the form data; and the
    [await] of [handleFormSubmit], during which other handlers run. *)

Module Page.
Import JS Inventory.

(** A submission suspended at [await this.processImage(photoFile)]: the
    [mobileData] it has built and the photo that is being read. *)
Record submission : Type := {
  mobileData : obj;
  photoFile : file
}.

(** The page as far as the handlers read and write it: the manager;
    whether [#imei] is disabled; the text of [#searchInput]; the text of
    [#errorMessage] while it is shown ([None] while hidden); and the
    submissions that wait for their photo, oldest first. *)
Record page : Type := {
  mgr : manager;
  imei_disabled : bool;
  searchInput : string;
  errorMessage : option string;
  waiting : list submission
}.

Definition set_mgr (p : page) (st : manager) : page :=
  {| mgr := st; imei_disabled := imei_disabled p; searchInput := searchInput p;
     errorMessage := errorMessage p; waiting := waiting p |}.

Definition set_disabled (p : page) (b : bool) : page :=
  {| mgr := mgr p; imei_disabled := b; searchInput := searchInput p;
     errorMessage := errorMessage p; waiting := waiting p |}.

Definition set_search (p : page) (input : string) : page :=
  {| mgr := mgr p; imei_disabled := imei_disabled p; searchInput := input;
     errorMessage := errorMessage p; waiting := waiting p |}.

Definition set_error (p : page) (message : option string) : page :=
  {| mgr := mgr p; imei_disabled := imei_disabled p; searchInput := searchInput p;
     errorMessage := message; waiting := waiting p |}.

Definition set_waiting (p : page) (w : list submission) : page :=
  {| mgr := mgr p; imei_disabled := imei_disabled p; searchInput := searchInput p;
     errorMessage := errorMessage p; waiting := w |}.

(** How a handler leaves the page: the page as it then is, the banners it
    has put up, and the exception when it ended by throwing.  What a
    handler wrote before it threw stays written. *)
Record outcome : Type := {
  after : page;
  shown : list notice;
  thrown : option exn
}.

Definition step : Type := page -> outcome.

Definition done : step :=
  fun p => {| after := p; shown := []; thrown := None |}.

Definition throw (e : exn) : step :=
  fun p => {| after := p; shown := []; thrown := Some e |}.

(** [f; g]: [g] runs on the page that [f] left, unless [f] threw. *)
Definition seq (f g : step) : step :=
  fun p =>
    let o := f p in
    match thrown o with
    | Some _ => o
    | None =>
        let o' := g (after o) in
        {| after := after o'; shown := (shown o ++ shown o')%list;
           thrown := thrown o' |}
    end.

Declare Scope step_scope.
Delimit Scope step_scope with step.
Bind Scope step_scope with step.
Notation "f >> g" := (seq f g) (at level 62, left associativity) : step_scope.
Local Open Scope step_scope.

(** A read of the manager that may throw, and what is done with it. *)
Definition read {A : Type} (r : manager -> result A) (k : A -> step) : step :=
  fun p =>
    match r (mgr p) with
    | Ok a => k a p
    | Throw e => throw e p
    end.

(** An assignment to a field of the manager. *)
Definition assign (f : manager -> manager) : step :=
  fun p => done (set_mgr p (f (mgr p))).

(** [showError(message)].  The timer it starts is the event
    [ErrorTimerFired] below. *)
Definition showError (message : string) : step :=
  fun p => {| after := set_error p (Some message);
              shown := [ShowError message]; thrown := None |}.

(** [hideError()]. *)
Definition hideError : step :=
  fun p => done (set_error p None).

(** [showSuccess(message)]: a banner of its own, which goes after three
    seconds and which nothing reads. *)
Definition showSuccess (message : string) : step :=
  fun p => {| after := p; shown := [ShowSuccess message]; thrown := None |}.

(** [saveInventory()]. *)
Definition saveInventory : step :=
  fun p =>
    match setItem storageKey (JSON_stringify (inventory (mgr p))) (store (mgr p)) with
    | Ok ls => done (set_mgr p (with_store (mgr p) ls))
    | Throw _ => showError "Failed to save data. Storage might be full." p
    end.

(** *** The redraw *)

(** The conversion of a value to text, in a template literal and in an
    assignment to the value of a control.  It completes unless it meets an
    object with an own property [toString], which in a value read from a
    stored text is never a function; an array converts its elements. *)
Fixpoint to_text_ok (v : value) : bool :=
  match v with
  | VArr l => forallb to_text_ok l
  | VObj o =>
      match obj_get "toString" o with
      | Some _ => false
      | None => true
      end
  | _ => true
  end.

(** The same for the property [k] of [mobile], [undefined] included. *)
Definition prop_to_text_ok (mobile : value) (k : string) : bool :=
  match get_prop mobile k with
  | Ok (Some v) => to_text_ok v
  | _ => true
  end.

(** [createMobileCard(mobile)], as far as it can throw: the markup it
    returns is not kept.  [mobile.sold] is read first; the image is put
    into the markup only when it is truthy, and a falsy value converts in
    any case. *)
Definition createMobileCard (mobile : value) : result unit :=
  sold <- get_prop mobile "sold" ;;
  if forallb (prop_to_text_ok mobile)
       ["image"; "brand"; "model"; "id"; "imei"; "ram"; "storage"]
  then Ok tt
  else Throw TypeError.

(** [l.map(f)] for its exceptions. *)
Fixpoint array_each (f : value -> result unit) (l : list value) : result unit :=
  match l with
  | [] => Ok tt
  | m :: l' => u <- f m ;; array_each f l'
  end.

(** [filteredInventory.length === 0]. *)
Definition length_is_zero (v : value) : result bool :=
  match v with
  | VNull => Throw TypeError
  | VArr l => Ok (Nat.eqb (List.length l) 0)
  | VStr s => Ok (Nat.eqb (String.length s) 0)
  | VObj o => Ok (strict_equals_opt (obj_get "length" o) (Some (VNum 0)))
  | _ => Ok false
  end.

(** [displayInventory()] for its exceptions, [input] being the text of the
    search field: the filter, the test of the length, and one card per
    element ([.map] exists on an array only). *)
Definition draw (input : string) (st : manager) : result unit :=
  filtered <- filteredInventory input st ;;
  empty <- length_is_zero filtered ;;
  if empty then Ok tt
  else cards <- as_array filtered ;; array_each createMobileCard cards.

Definition displayInventory : step :=
  fun p =>
    match draw (searchInput p) (mgr p) with
    | Ok _ => done p
    | Throw e => throw e p
    end.

(** *** The methods, with the redraw *)

(** [this.inventory.push(mobile)]. *)
Definition push (mobile : value) : step :=
  read (fun st => as_array (inventory st))
    (fun l => assign (fun st => with_inventory st (VArr (l ++ [mobile])%list))).

(** [addMobile(mobileData)].  [updateInventoryCount()], here and below,
    reads the length of what was just drawn as an array, and does not
    throw. *)
Definition addMobile (now : Z) (mobileData : obj) : step :=
  push (VObj (obj_spread [("id", VNum now)] mobileData))
  >> saveInventory >> displayInventory.

(** [deleteMobile(id)]. *)
Definition deleteMobile (confirmed : bool) (id : value) : step :=
  if confirmed then
    read (fun st => l <- as_array (inventory st) ;;
                    array_filter (prop_is_not "id" (Some id)) l)
      (fun kept => assign (fun st => with_inventory st (VArr kept)))
    >> saveInventory >> displayInventory
    >> showSuccess "Mobile deleted from inventory."
  else done.

(** [updateMobile(id, updatedData)]. *)
Definition updateMobile (id : value) (updatedData : obj) : step :=
  read (fun st => l <- as_array (inventory st) ;;
                  index <- array_findIndex (prop_is "id" (Some id)) l ;;
                  Ok (l, index))
    (fun found =>
       match snd found with
       | Some i =>
           let merged :=
             obj_set "id" id
               (obj_spread (own_props (nth i (fst found) VNull)) updatedData) in
           assign (fun st =>
                     with_inventory st (VArr (array_set i (VObj merged) (fst found))))
           >> saveInventory >> displayInventory
       | None => done
       end).

(** [resetEditMode()]. *)
Definition resetEditMode : step :=
  fun p => done (set_disabled (set_mgr p (Inventory.resetEditMode (mgr p))) false).

(** [cancelEdit()]. *)
Definition cancelEdit : step :=
  resetEditMode >> hideError.

(** The texts that [editMobile] puts into controls: each is converted. *)
Definition prefill (mobile : value) (ks : list string) : step :=
  fun p =>
    if forallb (prop_to_text_ok mobile) ks then done p else throw TypeError p.

(** [editMobile(id)]: the mode is set first, then brand, model and IMEI
    are put into their fields, the IMEI field is disabled, and RAM, storage
    and the image follow. *)
Definition editMobile (id : value) : step :=
  read (fun st => l <- as_array (inventory st) ;;
                  array_find (prop_is "id" (Some id)) l)
    (fun found =>
       match found with
       | None => done
       | Some (_, mobile) =>
           assign (fun st => {| inventory := inventory st; isEditing := true;
                                editingId := id; store := store st |})
           >> prefill mobile ["brand"; "model"; "imei"]
           >> (fun p => done (set_disabled p true))
           >> prefill mobile ["ram"; "storage"; "image"]
       end).

(** [markAsSold(id)]. *)
Definition markAsSold (confirmed : bool) (id : value) : step :=
  if confirmed then
    read (fun st => l <- as_array (inventory st) ;;
                    mobile <- array_find (prop_is "id" (Some id)) l ;;
                    Ok (l, mobile))
      (fun found =>
         match snd found with
         | Some (i, m) =>
             let sold := VObj (obj_set "sold" (VBool true) (own_props m)) in
             assign (fun st => with_inventory st (VArr (array_set i sold (fst found))))
             >> saveInventory >> displayInventory
             >> showSuccess "Mobile marked as sold!"
         | None => done
         end)
  else done.

(** The sample records, [clock k] being what the call of [Date.now()] in
    the sample of index [k] returns. *)
Definition testMobilesAt (clock : nat -> Z) : list obj :=
  [ sample (clock 0%nat + 1) "Samsung" "Galaxy A54" "123456789012345" "8GB" "128GB" false;
    sample (clock 1%nat + 2) "Apple" "iPhone 13" "234567890123456" "4GB" "128GB" true;
    sample (clock 2%nat + 3) "Xiaomi" "Redmi Note 12" "345678901234567" "6GB" "128GB" false;
    sample (clock 3%nat + 4) "OnePlus" "Nord CE 3" "456789012345678" "8GB" "128GB" false;
    sample (clock 4%nat + 5) "Google" "Pixel 7a" "567890123456789" "8GB" "128GB" true;
    sample (clock 5%nat + 6) "Samsung" "Galaxy S22" "678901234567890" "8GB" "256GB" false;
    sample (clock 6%nat + 7) "Apple" "iPhone 12" "789012345678901" "4GB" "64GB" false;
    sample (clock 7%nat + 8) "Realme" "GT Neo 3" "890123456789012" "8GB" "128GB" true;
    sample (clock 8%nat + 9) "Vivo" "V27 Pro" "901234567890123" "8GB" "256GB" false;
    sample (clock 9%nat + 10) "Oppo" "Reno 8" "012345678901234" "8GB" "128GB" false;
    sample (clock 10%nat + 11) "Apple" "iPhone 14" "112345678901234" "6GB" "128GB" true;
    sample (clock 11%nat + 12) "Samsung" "Galaxy A34" "212345678901234" "6GB" "128GB" false;
    sample (clock 12%nat + 13) "Xiaomi" "Mi 11" "312345678901234" "8GB" "256GB" false;
    sample (clock 13%nat + 14) "Motorola" "Edge 30" "412345678901234" "8GB" "128GB" false;
    sample (clock 14%nat + 15) "Nothing" "Phone (2)" "512345678901234" "12GB" "256GB" true ]%Z.

(** The loop [testMobiles.forEach(...)]. *)
Fixpoint push_each_missing (mobiles : list obj) : step :=
  match mobiles with
  | [] => done
  | mobile :: rest =>
      read (isDuplicateIMEI (obj_get "imei" mobile))
        (fun duplicate =>
           if duplicate then push_each_missing rest
           else push (VObj mobile) >> push_each_missing rest)
  end.

(** [generateTestData()]. *)
Definition generateTestData (confirmed : bool) (clock : nat -> Z) : step :=
  if confirmed then
    let testMobiles := testMobilesAt clock in
    push_each_missing testMobiles
    >> saveInventory >> displayInventory
    >> showSuccess ("Generated "
                    ++ number_to_string (Z.of_nat (List.length testMobiles))
                    ++ " test mobiles in inventory!")
  else done.

(** *** The submission *)

(** [new FormData(event.target)], [fd] being what the controls of the form
    hold: a disabled control contributes no entry. *)
Definition FormData (p : page) (fd : formData) : formData :=
  {| get_brand := get_brand fd; get_model := get_model fd;
     get_imei := if imei_disabled p then None else get_imei fd;
     get_ram := get_ram fd; get_storage := get_storage fd;
     get_photo := get_photo fd |}.

(** [handleFormSubmit] from "Add or update mobile" to its end, [now]
    being what [Date.now()] returns in [addMobile].  The mode is read
    here, after the photo.  The form is reset in between, which changes
    no control that a handler reads. *)
Definition finish (now : Z) (mobileData : obj) : step :=
  (fun p =>
     if isEditing (mgr p)
     then (updateMobile (editingId (mgr p)) mobileData
           >> showSuccess "Mobile updated successfully!") p
     else (addMobile now mobileData
           >> showSuccess "Mobile added to inventory successfully!") p)
  >> hideError >> resetEditMode.

(** The handler stops at the [await] and the page goes on. *)
Definition suspend (s : submission) : step :=
  fun p => done (set_waiting p (waiting p ++ [s])%list).

(** [handleFormSubmit(event)] up to the point where it ends or waits.
    With no photo there is no [await] and the handler runs to its end.  A
    photo of more than 5 MiB makes [processImage] reject at once, and the
    handler goes on in its [catch] before any other event.  Any other photo
    is handed to a reader, and the handler waits for it. *)
Definition handleFormSubmit (now : Z) (fd : formData) : step :=
  fun p =>
    let formData := FormData p fd in
    match (brand <- trimmed (get_brand formData) ;;
           model <- trimmed (get_model formData) ;;
           imei <- trimmed (get_imei formData) ;;
           Ok (brand, model, imei)) with
    | Throw e => throw e p
    | Ok (brand, model, imei) =>
        let mobileData : obj :=
          [("brand", VStr brand); ("model", VStr model); ("imei", VStr imei);
           ("ram", entry_value (get_ram formData));
           ("storage", entry_value (get_storage formData))] in
        if negb (validateIMEI imei) then
          showError "IMEI must be exactly 15 digits." p
        else
          match (if isEditing (mgr p) then Ok false
                 else isDuplicateIMEI (Some (VStr imei)) (mgr p)) with
          | Throw e => throw e p
          | Ok true =>
              showError "A mobile with this IMEI already exists in inventory." p
          | Ok false =>
              match get_photo formData with
              | Some photo =>
                  if (size photo >? 0)%Z then
                    if (size photo >? 5 * 1024 * 1024)%Z then
                      showError "Failed to process image. Please try again." p
                    else
                      suspend {| mobileData := mobileData; photoFile := photo |} p
                  else finish now (obj_set "image" VNull mobileData) p
              | None => finish now (obj_set "image" VNull mobileData) p
              end
          end
    end.

Fixpoint remove_nth {A : Type} (k : nat) (l : list A) : list A :=
  match k, l with
  | _, [] => []
  | O, _ :: l' => l'
  | S k', x :: l' => x :: remove_nth k' l'
  end.

(** The reader of the waiting submission of index [k] is done: the handler
    goes on after its [await], with the data URL, or in its [catch] when
    the reader failed. *)
Definition photoRead (k : nat) (now : Z) : step :=
  fun p =>
    match nth_error (waiting p) k with
    | None => done p
    | Some s =>
        let p' := set_waiting p (remove_nth k (waiting p)) in
        match dataURL (photoFile s) with
        | Some url => finish now (obj_set "image" (VStr url) (mobileData s)) p'
        | None => showError "Failed to process image. Please try again." p'
        end
    end.

(** *** The events of the page *)

Inductive event : Type :=
| FormSubmitted (now : Z) (fd : formData)
| PhotoRead (k : nat) (now : Z)
| DeleteClicked (confirmed : bool) (id : value)
| SoldClicked (confirmed : bool) (id : value)
| EditClicked (id : value)
| CancelClicked
| GenerateClicked (confirmed : bool) (clock : nat -> Z)
| SearchTyped (input : string)
| ErrorTimerFired.

Definition page_step (e : event) : step :=
  match e with
  | FormSubmitted now fd => handleFormSubmit now fd
  | PhotoRead k now => photoRead k now
  | DeleteClicked confirmed id => deleteMobile confirmed id
  | SoldClicked confirmed id => markAsSold confirmed id
  | EditClicked id => editMobile id
  | CancelClicked => cancelEdit
  | GenerateClicked confirmed clock => generateTestData confirmed clock
  | SearchTyped input => (fun p => done (set_search p input)) >> displayInventory
  | ErrorTimerFired => hideError
  end.

(** The page once the constructor has run on the storage [ls], [input]
    being what the search field holds then.  Its redraw may have thrown;
    the listeners are bound before it. *)
Definition new_page (ls : localStorage) (input : string) : page :=
  {| mgr := new_manager ls; imei_disabled := false; searchInput := input;
     errorMessage := None; waiting := [] |}.

(** The page after a run of events. *)
Fixpoint after_events (es : list event) (p : page) : page :=
  match es with
  | [] => p
  | e :: es' => after_events es' (after (page_step e p))
  end.

(** *** Vocabulary of the properties *)

(** A submission run to its end with nothing in between: the handler and,
    when it waits for its photo, the end of that reading next. *)
Definition submitted (now : Z) (fd : formData) (p : page) : page :=
  let p1 := after (handleFormSubmit now fd p) in
  if Nat.eqb (List.length (waiting p1)) (List.length (waiting p)) then p1
  else after (photoRead (List.length (waiting p)) now p1).

(** The controls that a handler reads and that the banner does not touch. *)
Definition controls (p : page) : bool * string * list submission :=
  (imei_disabled p, searchInput p, waiting p).

(** A step that leaves the manager and these controls as they are. *)
Definition neutral (g : step) : Prop :=
  forall q, mgr (after (g q)) = mgr q /\ controls (after (g q)) = controls q.

(** From [st] to [st'], inventory and storage are as they were, or a
    manager [saved] with the storage of [st] was handed to [saveInventory]
    last. *)
Definition saved_or_kept (st st' : manager) : Prop :=
  (inventory st' = inventory st /\ store st' = store st)
  \/ exists saved,
       store saved = store st
       /\ inventory st' = inventory saved
       /\ store st' = store (fst (Inventory.saveInventory saved)).

(** A form with a photo of [bytes] bytes that reads as [url]. *)
Definition form_with_photo (brand model imei ram storage : string)
    (bytes : Z) (url : string) : formData :=
  {| get_brand := Some brand; get_model := Some model; get_imei := Some imei;
     get_ram := Some ram; get_storage := Some storage;
     get_photo := Some {| size := bytes; dataURL := Some url |} |}.

(** A page on which the IMEI field is disabled whenever the manager is in
    edit mode: [editMobile] sets the mode (line 434) and disables the field
    (line 441), [resetEditMode] undoes both. *)
Definition locked (p : page) : Prop :=
  isEditing (mgr p) = true -> imei_disabled p = true.

(** What the end of a waiting submission needs of the records [recs] in
    memory at the time the reading of its photo ends: the submission is
    one that [handleFormSubmit] put aside (five fields, the IMEI a text),
    and no record carries its IMEI; when the page is in edit mode by then,
    the record under edit is excepted, since it is the one replaced.  Every
    other event needs nothing. *)
Definition resumes_fresh (e : event) (p : page) (recs : list obj) : Prop :=
  match e with
  | PhotoRead k _ =>
      forall s, nth_error (waiting p) k = Some s ->
        exists brand model imei ram storage,
          mobileData s
          = [("brand", VStr brand); ("model", VStr model); ("imei", VStr imei);
             ("ram", entry_value ram); ("storage", entry_value storage)]
          /\ forall j o,
               nth_error recs j = Some o ->
               (isEditing (mgr p) = true ->
                index_of (has_prop "id" (Some (editingId (mgr p)))) recs <> Some j) ->
               obj_get "imei" o <> Some (VStr imei)
  | _ => True
  end.

End Page.

(* ================================================================== *)
(** ** [service-worker.js]: the offline cache worker *)
(* ================================================================== *)

Module Worker.
Import JS.

(** What the handlers look at in a response and in a request. *)
Record response : Type := {
  status : Z;
  type : string;
  body : string
}.

Record request : Type := {
  url : string;
  destination : string
}.

(** A cache maps request URLs to responses; the cache storage of the origin
    holds the named caches (the generations) in the order of their
    creation. *)
Definition cache : Type := list (string * response).
Definition cacheStorage : Type := list (string * cache).

Fixpoint cache_match (u : string) (c : cache) : option response :=
  match c with
  | [] => None
  | (u', r) :: c' => if String.eqb u' u then Some r else cache_match u c'
  end.

Fixpoint cache_put (u : string) (r : response) (c : cache) : cache :=
  match c with
  | [] => [(u, r)]
  | (u', r') :: c' =>
      if String.eqb u' u then (u', r) :: c' else (u', r') :: cache_put u r c'
  end.

(** [caches.match(u)]: the first generation that holds [u] answers; [None]
    stands for [undefined]. *)
Fixpoint caches_match (u : string) (cs : cacheStorage) : option response :=
  match cs with
  | [] => None
  | (_, c) :: cs' =>
      match cache_match u c with
      | Some r => Some r
      | None => caches_match u cs'
      end
  end.

(** [caches.keys()]. *)
Definition caches_keys (cs : cacheStorage) : list string := map fst cs.

Definition caches_has (name : string) (cs : cacheStorage) : bool :=
  existsb (String.eqb name) (caches_keys cs).

(** [caches.open(name)] creates the generation when it does not exist. *)
Definition caches_open (name : string) (cs : cacheStorage) : cacheStorage :=
  if caches_has name cs then cs else (cs ++ [(name, [])])%list.

(** [caches.delete(name)]. *)
Definition caches_delete (name : string) (cs : cacheStorage) : cacheStorage :=
  filter (fun g => negb (String.eqb (fst g) name)) cs.

(** A change made through the handle that [caches.open(name)] resolved to. *)
Definition in_cache (name : string) (f : cache -> cache) (cs : cacheStorage)
  : cacheStorage :=
  map (fun g => if String.eqb (fst g) name then (fst g, f (snd g)) else g) cs.

Definition urlsToCache : list string :=
  ["/"; "/index.html"; "/script.js"; "/manifest.json";
   "https://cdn.tailwindcss.com"].

Section Handlers.

(** The version tag of the deployed worker. *)
Variable CACHE_NAME : string.

(** [cache.addAll(urls)]: every URL is fetched; one fetch that fails, or
    answers outside 200..299 or with the partial content of a 206, rejects
    the whole call and nothing is stored.  (A response whose [Vary] header
    is [*] is rejected as well; the responses of the model carry no
    headers.) *)
Fixpoint fetch_all (network : string -> result response) (urls : list string)
  : result cache :=
  match urls with
  | [] => Ok []
  | u :: urls' =>
      r <- network u ;;
      if ((200 <=? status r) && (status r <=? 299) && negb (status r =? 206))%Z then
        rs <- fetch_all network urls' ;;
        Ok ((u, r) :: rs)
      else Throw TypeError
  end.

(** The [install] handler: the storage afterwards, and whether the
    promise given to [waitUntil] was fulfilled. *)
Definition on_install (network : string -> result response) (cs : cacheStorage)
  : cacheStorage * bool :=
  let opened := caches_open CACHE_NAME cs in
  match fetch_all network urlsToCache with
  | Ok fetched =>
      (in_cache CACHE_NAME
         (fun c => fold_left (fun acc e => cache_put (fst e) (snd e) acc) fetched c)
         opened, true)
  | Throw _ => (opened, false)
  end.

(** The test of the [fetch] handler on what the network answered:
    [!response || response.status !== 200 || response.type !== 'basic']. *)
Definition not_cacheable (answer : option response) : bool :=
  match answer with
  | None => true
  | Some r => negb (status r =? 200)%Z || negb (String.eqb (type r) "basic")
  end.

(** The [fetch] handler: what the page receives through [respondWith]
    ([None] for [undefined]) and the storage once the detached
    [cache.put] has run.  [network] is the outcome of
    [fetch(event.request)]. *)
Definition on_fetch (req : request) (network : result (option response))
    (cs : cacheStorage) : option response * cacheStorage :=
  match caches_match (url req) cs with
  | Some hit => (Some hit, cs)
  | None =>
      match network with
      | Ok answer =>
          if not_cacheable answer then (answer, cs)
          else
            match answer with
            | Some r =>
                (answer,
                 in_cache CACHE_NAME (cache_put (url req) r)
                   (caches_open CACHE_NAME cs))
            | None => (answer, cs)
            end
      | Throw _ =>
          if String.eqb (destination req) "document"
          then (caches_match "/index.html" cs, cs)
          else (None, cs)
      end
  end.

(** [on_fetch] is the handler on a [GET] request with its write done.
    The two definitions below take the handler apart: the request has a
    method, and the write ([caches.open(...).then(cache => cache.put(...))],
    lines 41 to 44) is started and not waited for. *)

(** A write that the handler has started. *)
Record pending_put : Type := {
  put_method : string;
  put_url : string;
  put_response : response
}.

(** [caches.match(event.request)]: a request that is not a [GET] matches
    nothing. *)
Definition match_request (method u : string) (cs : cacheStorage)
  : option response :=
  if String.eqb method "GET" then caches_match u cs else None.

(** The handler up to what it hands to [respondWith], [method] being
    [event.request.method]: the response, and the write it has started.
    The storage is as it was when the response is handed over. *)
Definition respond (method : string) (req : request)
    (network : result (option response)) (cs : cacheStorage)
  : option response * option pending_put :=
  match match_request method (url req) cs with
  | Some hit => (Some hit, None)
  | None =>
      match network with
      | Ok answer =>
          if not_cacheable answer then (answer, None)
          else
            match answer with
            | Some r =>
                (answer,
                 Some {| put_method := method; put_url := url req;
                         put_response := r |})
            | None => (answer, None)
            end
      | Throw _ =>
          if String.eqb (destination req) "document"
          then (caches_match "/index.html" cs, None)
          else (None, None)
      end
  end.

(** The write landing on the storage as it then is: [caches.open] creates
    the generation when it is missing, and [cache.put] stores the response
    under the URL, which it refuses to do for a request that is not a
    [GET]; nobody handles that rejection. *)
Definition land (w : pending_put) (cs : cacheStorage) : cacheStorage :=
  let opened := caches_open CACHE_NAME cs in
  if String.eqb (put_method w) "GET"
  then in_cache CACHE_NAME (cache_put (put_url w) (put_response w)) opened
  else opened.

(** The [activate] handler: every name that [caches.keys()] lists and
    that differs from [CACHE_NAME] is deleted. *)
Definition on_activate (cs : cacheStorage) : cacheStorage :=
  fold_left
    (fun acc cacheName =>
       if negb (String.eqb cacheName CACHE_NAME)
       then caches_delete cacheName acc
       else acc)
    (caches_keys cs) cs.

End Handlers.

Definition CACHE_NAME : string := "mobile-inventory-v1".

End Worker.

(* ================================================================== *)
(** ** Facts about the platform model *)
(* ================================================================== *)

Module JSFacts.
Import JS.

Lemma append_assoc (a b c : string) : ((a ++ b) ++ c = a ++ (b ++ c))%string.
Proof. induction a as [|x a IH]; simpl; [reflexivity | now rewrite IH]. Qed.

Lemma append_nil_r (a : string) : (a ++ "")%string = a.
Proof. induction a as [|x a IH]; simpl; [reflexivity | now rewrite IH]. Qed.

Lemma length_append (a b : string) :
  String.length (a ++ b) = String.length a + String.length b.
Proof. induction a as [|x a IH]; simpl; [reflexivity | now rewrite IH]. Qed.

(** **** String literals *)

Lemma parse_chars_escape_char (c : ascii) (tail : string) :
  parse_chars (escape_char c ++ tail) =
  match parse_chars tail with
  | Some (str, r) => Some (String c str, r)
  | None => None
  end.
Proof.
  destruct c as [[] [] [] [] [] [] [] []]; reflexivity.
Qed.

Lemma parse_chars_escape (s rest : string) :
  parse_chars (escape s ++ String dquote rest) = Some (s, rest).
Proof.
  induction s as [|c s IH]; simpl.
  - reflexivity.
  - rewrite append_assoc, parse_chars_escape_char, IH. reflexivity.
Qed.

(** **** Numbers *)

Lemma delimited_no_digit (s : string) : delimited s = true -> no_digit_ahead s.
Proof.
  destruct s as [|c s]; simpl; [trivial|].
  intros H. apply Bool.orb_true_iff in H. destruct H as [H|H].
  - apply Bool.orb_true_iff in H.
    destruct H as [H|H]; apply Ascii.eqb_eq in H; subst c; reflexivity.
  - apply Ascii.eqb_eq in H; subst c; reflexivity.
Qed.

Lemma delimited_no_fraction (s : string) :
  delimited s = true -> starts_fraction s = false.
Proof.
  destruct s as [|c s]; simpl; [trivial|].
  intros H. apply Bool.orb_true_iff in H. destruct H as [H|H].
  - apply Bool.orb_true_iff in H.
    destruct H as [H|H]; apply Ascii.eqb_eq in H; subst c; reflexivity.
  - apply Ascii.eqb_eq in H; subst c; reflexivity.
Qed.

Lemma parse_digits_uint (d : Decimal.uint) (rest : string) :
  no_digit_ahead rest ->
  parse_digits (uint_digits d ++ rest) = (d, rest).
Proof.
  intros Hrest.
  induction d as [|d IH|d IH|d IH|d IH|d IH|d IH|d IH|d IH|d IH|d IH];
    simpl; try (rewrite IH; reflexivity).
  destruct rest as [|c rest]; simpl; [reflexivity|].
  simpl in Hrest. now rewrite Hrest.
Qed.

Lemma leading_zero_unorm (d : Decimal.uint) : leading_zero (unorm d) = false.
Proof.
  unfold unorm. destruct (nzhead d) eqn:E; try reflexivity.
  exfalso. eapply nzhead_nonzero. exact E.
Qed.

Lemma to_uint_unorm (p : positive) : Pos.to_uint p = unorm (Pos.to_uint p).
Proof.
  rewrite <- DecimalPos.Unsigned.to_of, DecimalPos.Unsigned.of_to. reflexivity.
Qed.

Lemma leading_zero_to_uint (p : positive) : leading_zero (Pos.to_uint p) = false.
Proof. rewrite to_uint_unorm. apply leading_zero_unorm. Qed.

(** The digits of a numeral that is not empty start with a digit. *)
Lemma uint_digits_head (d : Decimal.uint) :
  d <> Nil ->
  exists c s, uint_digits d = String c s /\ digit_of c <> None.
Proof.
  destruct d; intros H; try congruence; simpl; eexists; eexists;
    (split; [reflexivity | discriminate]).
Qed.

Lemma digit_not_minus (c : ascii) :
  digit_of c <> None -> Ascii.eqb c "-" = false.
Proof.
  intros H. destruct (Ascii.eqb_spec c "-"); [subst c; now elim H | reflexivity].
Qed.

Lemma parse_number_pos (d : Decimal.uint) (rest : string) :
  d <> Nil -> leading_zero d = false -> delimited rest = true ->
  parse_number (uint_digits d ++ rest) = Some (Z.of_int (Decimal.Pos d), rest).
Proof.
  intros Hd Hz Hrest.
  destruct (uint_digits_head d Hd) as (c & s & E & Hc).
  unfold parse_number.
  assert (Hhead : (uint_digits d ++ rest)%string = String c (s ++ rest)).
  { rewrite E. reflexivity. }
  rewrite Hhead. rewrite (digit_not_minus c Hc). rewrite <- Hhead.
  rewrite parse_digits_uint by now apply delimited_no_digit.
  rewrite Hz, (delimited_no_fraction rest Hrest). simpl.
  destruct d; congruence.
Qed.

Lemma parse_number_neg (d : Decimal.uint) (rest : string) :
  d <> Nil -> leading_zero d = false -> delimited rest = true ->
  parse_number (String "-" (uint_digits d ++ rest))
  = Some (Z.of_int (Decimal.Neg d), rest).
Proof.
  intros Hd Hz Hrest. unfold parse_number. simpl Ascii.eqb. cbv iota.
  rewrite parse_digits_uint by now apply delimited_no_digit.
  rewrite Hz, (delimited_no_fraction rest Hrest). simpl.
  destruct d; congruence.
Qed.

Lemma parse_number_to_string (n : Z) (rest : string) :
  delimited rest = true ->
  parse_number (number_to_string n ++ rest) = Some (n, rest).
Proof.
  intros Hrest. unfold number_to_string.
  rewrite <- (DecimalZ.of_to n) at 2.
  destruct n as [|p|p]; simpl Z.to_int; cbv iota.
  - apply (parse_number_pos (D0 Nil)); [discriminate | reflexivity | assumption].
  - apply parse_number_pos;
      [apply DecimalPos.Unsigned.to_uint_nonnil | apply leading_zero_to_uint | assumption].
  - apply parse_number_neg;
      [apply DecimalPos.Unsigned.to_uint_nonnil | apply leading_zero_to_uint | assumption].
Qed.

Lemma number_to_string_head (n : Z) :
  exists c s, number_to_string n = String c s /\ opens_number c = true.
Proof.
  unfold number_to_string, opens_number.
  destruct n as [|p|p]; simpl Z.to_int; cbv iota.
  - exists "0"%char, ""%string. split; reflexivity.
  - destruct (uint_digits_head _ (DecimalPos.Unsigned.to_uint_nonnil p))
      as (c & s & E & Hc).
    exists c, s. split; [exact E|].
    destruct (digit_of c); [apply Bool.orb_true_r | congruence].
  - eexists; eexists. split; reflexivity.
Qed.

(** **** Values *)

Lemma opens_number_head (c : ascii) (r : string) (n : nat) :
  opens_number c = true ->
  parse_value (S n) (String c r) =
  match parse_number (String c r) with
  | Some (z, r') => Some (VNum z, r')
  | None => None
  end.
Proof.
  destruct c as [[] [] [] [] [] [] [] []]; intros H;
    try discriminate H; reflexivity.
Qed.

Lemma opens_number_value (c : ascii) : opens_number c = true -> opens_value c = true.
Proof.
  destruct c as [[] [] [] [] [] [] [] []]; intros H;
    try discriminate H; reflexivity.
Qed.

Lemma stringify_head (v : value) :
  exists c s, stringify v = String c s /\ opens_value c = true.
Proof.
  destruct v as [|[]|n|s|[|x l]|[|[k x] ps]];
    try (eexists; eexists; split; [reflexivity | reflexivity]).
  destruct (number_to_string_head n) as (c & s & E & Hc).
  exists c, s. split; [exact E | now apply opens_number_value].
Qed.

Lemma skip_ws_opens (c : ascii) (r : string) :
  opens_value c = true -> skip_ws (String c r) = String c r.
Proof.
  unfold opens_value. intros H. simpl.
  destruct (is_ws c); [discriminate H | reflexivity].
Qed.

Lemma opens_not_bracket (c : ascii) :
  opens_value c = true -> Ascii.eqb c "]" = false /\ Ascii.eqb c "}" = false.
Proof.
  unfold opens_value. intros H.
  destruct (is_ws c), (Ascii.eqb c "]"), (Ascii.eqb c "}");
    try discriminate H; split; reflexivity.
Qed.

(** What [parse_value] is asked to show of one value. *)
Definition reads_back (v : value) : Prop :=
  unique_keys v = true ->
  forall fuel rest,
    String.length (stringify v) < fuel ->
    delimited rest = true ->
    parse_value fuel (stringify v ++ rest) = Some (v, rest).

Lemma delimited_items (l : list value) (rest : string) :
  delimited (stringify_items l ++ rest) = true.
Proof. destruct l; reflexivity. Qed.

Lemma delimited_members (ps : obj) (rest : string) :
  delimited (stringify_members ps ++ rest) = true.
Proof. destruct ps as [|[k x] ps]; reflexivity. Qed.

Lemma stringify_items_cons (y : value) (l : list value) :
  stringify_items (y :: l) = ("," ++ stringify y ++ stringify_items l)%string.
Proof. reflexivity. Qed.

Lemma stringify_members_cons (k : string) (y : value) (ps : obj) :
  stringify_members ((k, y) :: ps)
  = ("," ++ quote k ++ ":" ++ stringify y ++ stringify_members ps)%string.
Proof. reflexivity. Qed.

Lemma stringify_arr_cons (x : value) (l : list value) :
  stringify (VArr (x :: l)) = ("[" ++ stringify x ++ stringify_items l)%string.
Proof. reflexivity. Qed.

Lemma stringify_obj_cons (k : string) (x : value) (ps : obj) :
  stringify (VObj ((k, x) :: ps))
  = ("{" ++ quote k ++ ":" ++ stringify x ++ stringify_members ps)%string.
Proof. reflexivity. Qed.

Lemma parse_elems_items (l : list value) :
  Forall reads_back l ->
  forallb unique_keys l = true ->
  forall fuel rest,
    String.length (stringify_items l) < fuel ->
    delimited rest = true ->
    parse_elems fuel (stringify_items l ++ rest) = Some (l, rest).
Proof.
  induction 1 as [|y l Hy Hl IH]; intros Hu fuel rest Hfuel Hrest.
  - destruct fuel as [|n]; [simpl in Hfuel; lia | reflexivity].
  - simpl in Hu. apply Bool.andb_true_iff in Hu. destruct Hu as [Huy Hul].
    rewrite stringify_items_cons in *.
    destruct fuel as [|n]; [simpl in Hfuel; lia|].
    simpl in Hfuel. rewrite length_append in Hfuel.
    rewrite !append_assoc.
    change (match parse_value n (stringify y ++ stringify_items l ++ rest) with
            | Some (x, r1) =>
                match parse_elems n r1 with
                | Some (xs, r2) => Some (x :: xs, r2)
                | None => None
                end
            | None => None
            end = Some (y :: l, rest)).
    rewrite (Hy Huy) by (try apply delimited_items; lia).
    rewrite IH by (try assumption; lia).
    reflexivity.
Qed.

Lemma quote_unfold (k tail : string) :
  (quote k ++ tail)%string = String dquote (escape k ++ String dquote tail).
Proof. unfold quote. simpl. now rewrite append_assoc. Qed.

Lemma parse_member_quote (pv : string -> option (value * string))
    (k tail : string) :
  parse_member pv (quote k ++ String ":" tail) =
  match pv tail with
  | Some (v, r3) => Some ((k, v), r3)
  | None => None
  end.
Proof.
  rewrite quote_unfold. unfold parse_member.
  change (skip_ws (String dquote (escape k ++ String dquote (String ":" tail))))
    with (String dquote (escape k ++ String dquote (String ":" tail))).
  change (Ascii.eqb dquote dquote) with true. cbv iota.
  rewrite parse_chars_escape. reflexivity.
Qed.

Lemma parse_members_members (ps : obj) :
  Forall (fun kv => reads_back (snd kv)) ps ->
  forallb (fun kv => unique_keys (snd kv)) ps = true ->
  forall fuel rest,
    String.length (stringify_members ps) < fuel ->
    delimited rest = true ->
    parse_members fuel (stringify_members ps ++ rest) = Some (ps, rest).
Proof.
  induction 1 as [|[k y] ps Hy Hl IH]; intros Hu fuel rest Hfuel Hrest.
  - destruct fuel as [|n]; [simpl in Hfuel; lia | reflexivity].
  - simpl in Hu. apply Bool.andb_true_iff in Hu. destruct Hu as [Huy Hul].
    simpl in Hy.
    rewrite stringify_members_cons in *.
    destruct fuel as [|n]; [simpl in Hfuel; lia|].
    simpl in Hfuel. rewrite !length_append in Hfuel. simpl in Hfuel.
    rewrite ?length_append in Hfuel.
    rewrite !append_assoc.
    change (match parse_member (parse_value n)
                    (quote k ++ String ":" (stringify y ++ stringify_members ps ++ rest)) with
            | Some (kv, r1) =>
                match parse_members n r1 with
                | Some (kvs, r2) => Some (kv :: kvs, r2)
                | None => None
                end
            | None => None
            end = Some ((k, y) :: ps, rest)).
    rewrite parse_member_quote.
    rewrite (Hy Huy) by (try apply delimited_members; lia).
    rewrite IH by (try assumption; lia).
    reflexivity.
Qed.

(** Assigning members with distinct keys in order rebuilds the list. *)
Lemma obj_set_fresh (k : string) (v : value) (o : obj) :
  existsb (String.eqb k) (map fst o) = false ->
  obj_set k v o = (o ++ [(k, v)])%list.
Proof.
  induction o as [|[k' v'] o IH]; simpl; [reflexivity|].
  intros H. apply Bool.orb_false_iff in H. destruct H as [Hk Ho].
  rewrite String.eqb_sym, Hk. now rewrite IH.
Qed.

Lemma obj_spread_distinct (ps acc : obj) :
  distinct (map fst (acc ++ ps)%list) = true ->
  obj_spread acc ps = (acc ++ ps)%list.
Proof.
  revert acc. induction ps as [|[k v] ps IH]; intros acc H; simpl.
  - now rewrite List.app_nil_r.
  - assert (Hfresh : existsb (String.eqb k) (map fst acc) = false).
    { clear IH. induction acc as [|[k' v'] acc IHa]; [reflexivity|].
      simpl in H. apply Bool.andb_true_iff in H. destruct H as [H1 H2].
      simpl. rewrite (IHa H2), Bool.orb_false_r.
      rewrite map_app in H1. simpl in H1. rewrite existsb_app in H1.
      apply Bool.negb_true_iff in H1. apply Bool.orb_false_iff in H1.
      destruct H1 as [_ H1]. simpl in H1. apply Bool.orb_false_iff in H1.
      destruct H1 as [H1 _]. now rewrite String.eqb_sym. }
    unfold obj_spread in *. simpl.
    rewrite (obj_set_fresh k v acc Hfresh).
    rewrite IH; rewrite <- List.app_assoc; [reflexivity | exact H].
Qed.

Theorem parse_value_stringify (v : value) : reads_back v.
Proof.
  induction v as [| b | n | s | l IH | ps IH] using value_ind;
    intros Hu fuel rest Hfuel Hrest;
    (destruct fuel as [|fuel]; [simpl in Hfuel; lia|]).
  - reflexivity.
  - destruct b; reflexivity.
  - destruct (number_to_string_head n) as (c & s & E & Hc).
    pose proof (parse_number_to_string n rest Hrest) as Hn.
    change (stringify (VNum n)) with (number_to_string n).
    rewrite E in *. simpl append in *.
    rewrite (opens_number_head c _ fuel Hc), Hn. reflexivity.
  - change (stringify (VStr s)) with (quote s). rewrite quote_unfold.
    change (match parse_chars (escape s ++ String dquote rest) with
            | Some (str, r') => Some (VStr str, r')
            | None => None
            end = Some (VStr s, rest)).
    now rewrite parse_chars_escape.
  - destruct l as [|x l]; [reflexivity|].
    inversion IH as [|? ? Hx Hl]; subst.
    simpl in Hu. apply Bool.andb_true_iff in Hu. destruct Hu as [Hux Hul].
    rewrite stringify_arr_cons in *.
    simpl in Hfuel. rewrite length_append in Hfuel.
    rewrite !append_assoc.
    destruct (stringify_head x) as (c & s & E & Hc).
    destruct (opens_not_bracket c Hc) as [Hc1 _].
    change (match skip_ws (stringify x ++ stringify_items l ++ rest) with
            | String c' r' =>
                if Ascii.eqb c' "]" then Some (VArr [], r')
                else
                  match parse_value fuel (stringify x ++ stringify_items l ++ rest) with
                  | Some (x0, r1) =>
                      match parse_elems fuel r1 with
                      | Some (xs, r2) => Some (VArr (x0 :: xs), r2)
                      | None => None
                      end
                  | None => None
                  end
            | EmptyString => None
            end = Some (VArr (x :: l), rest)).
    rewrite (Hx Hux) by (try apply delimited_items; lia).
    rewrite E. simpl append. rewrite (skip_ws_opens c _ Hc), Hc1.
    rewrite parse_elems_items by (try assumption; lia).
    reflexivity.
  - destruct ps as [|[k x] ps]; [reflexivity|].
    inversion IH as [|? ? Hx Hl]; subst. simpl in Hx.
    simpl in Hu. apply Bool.andb_true_iff in Hu. destruct Hu as [Hd Hu].
    apply Bool.andb_true_iff in Hu. destruct Hu as [Hux Hul].
    rewrite stringify_obj_cons in *.
    simpl in Hfuel. rewrite !length_append in Hfuel. simpl in Hfuel.
    rewrite ?length_append in Hfuel.
    rewrite !append_assoc.
    change (match skip_ws (quote k ++ String ":" (stringify x ++ stringify_members ps ++ rest)) with
            | String c' r' =>
                if Ascii.eqb c' "}" then Some (VObj [], r')
                else
                  match parse_member (parse_value fuel)
                          (quote k ++ String ":" (stringify x ++ stringify_members ps ++ rest)) with
                  | Some (kv, r1) =>
                      match parse_members fuel r1 with
                      | Some (kvs, r2) => Some (VObj (obj_spread [] (kv :: kvs)), r2)
                      | None => None
                      end
                  | None => None
                  end
            | EmptyString => None
            end = Some (VObj ((k, x) :: ps), rest)).
    rewrite parse_member_quote.
    rewrite (Hx Hux) by (try apply delimited_members; lia).
    rewrite parse_members_members by (try assumption; lia).
    rewrite quote_unfold.
    change (skip_ws (String dquote (escape k ++ String dquote (String ":" (stringify x ++ stringify_members ps ++ rest)))))
      with (String dquote (escape k ++ String dquote (String ":" (stringify x ++ stringify_members ps ++ rest)))).
    change (Ascii.eqb dquote "}") with false. cbv iota.
    rewrite (obj_spread_distinct ((k, x) :: ps) []); [reflexivity | exact Hd].
Qed.

(** [JSON.parse] undoes [JSON.stringify]. *)
Lemma JSON_parse_stringify (v : value) :
  unique_keys v = true -> JSON_parse (JSON_stringify v) = Ok v.
Proof.
  intros Hu. unfold JSON_parse, JSON_stringify.
  pose proof (parse_value_stringify v Hu (S (String.length (stringify v))) ""
                (Nat.lt_succ_diag_r _) eq_refl) as H.
  rewrite append_nil_r in H. rewrite H. reflexivity.
Qed.

Lemma JSON_stringify_nonempty (v : value) :
  String.eqb (JSON_stringify v) "" = false.
Proof.
  unfold JSON_stringify. destruct (stringify_head v) as (c & s & E & _).
  rewrite E. reflexivity.
Qed.

(** **** [localStorage] *)

Lemma slot_get_set (k v : string) (its : list (string * string)) :
  slot_get k (slot_set k v its) = Some v.
Proof.
  induction its as [|[k' v'] its IH]; simpl.
  - now rewrite String.eqb_refl.
  - destruct (String.eqb k' k) eqn:E; simpl; rewrite E; [reflexivity | exact IH].
Qed.

Lemma slot_set_twice (k v : string) (its : list (string * string)) :
  slot_set k v (slot_set k v its) = slot_set k v its.
Proof.
  induction its as [|[k' v'] its IH]; simpl.
  - now rewrite String.eqb_refl.
  - destruct (String.eqb k' k) eqn:E; simpl; rewrite E; [reflexivity | now rewrite IH].
Qed.

Lemma getItem_setItem (k v : string) (ls ls' : localStorage) :
  setItem k v ls = Ok ls' -> getItem k ls' = Some v.
Proof.
  unfold setItem, getItem.
  destruct (usage (slot_set k v (items ls)) <=? capacity ls)%nat; intros H;
    inversion H; subst; simpl. apply slot_get_set.
Qed.

(** Writing the text that is already there changes nothing. *)
Lemma setItem_again (k v : string) (ls ls' : localStorage) :
  setItem k v ls = Ok ls' -> setItem k v ls' = Ok ls'.
Proof.
  unfold setItem.
  destruct (usage (slot_set k v (items ls)) <=? capacity ls)%nat eqn:E; intros H;
    inversion H; subst; simpl.
  rewrite slot_set_twice, E. reflexivity.
Qed.

(** **** Objects *)

Lemma obj_get_set_same (k : string) (v : value) (o : obj) :
  obj_get k (obj_set k v o) = Some v.
Proof.
  induction o as [|[k' v'] o IH]; simpl.
  - now rewrite String.eqb_refl.
  - destruct (String.eqb k' k) eqn:E; simpl; rewrite E; [reflexivity | exact IH].
Qed.

Lemma obj_get_set_other (k k0 : string) (v : value) (o : obj) :
  k0 <> k -> obj_get k (obj_set k0 v o) = obj_get k o.
Proof.
  intros Hne. induction o as [|[k' v'] o IH]; simpl.
  - apply String.eqb_neq in Hne. now rewrite Hne.
  - destruct (String.eqb k' k0) eqn:E; simpl.
    + apply String.eqb_eq in E. subst k'.
      apply String.eqb_neq in Hne. now rewrite Hne.
    + now rewrite IH.
Qed.

Lemma obj_set_twice (k : string) (v : value) (o : obj) :
  obj_set k v (obj_set k v o) = obj_set k v o.
Proof.
  induction o as [|[k' v'] o IH]; simpl.
  - now rewrite String.eqb_refl.
  - destruct (String.eqb k' k) eqn:E; simpl; rewrite E; [reflexivity | now rewrite IH].
Qed.

(** A spread leaves alone what the source does not name. *)
Lemma obj_get_spread_other (k : string) (source target : obj) :
  ~ In k (keys source) ->
  obj_get k (obj_spread target source) = obj_get k target.
Proof.
  revert target. unfold obj_spread.
  induction source as [|[k0 v0] source IH]; intros target Hk; simpl.
  - reflexivity.
  - rewrite IH.
    + apply obj_get_set_other. intros ->. apply Hk. now left.
    + intros Hin. apply Hk. now right.
Qed.

(** Strict equality with a given value pins the other side down. *)
Lemma strict_equals_eq (a b : value) : strict_equals a b = true -> a = b.
Proof.
  destruct a, b; simpl; intros H; try discriminate H.
  - reflexivity.
  - now apply Bool.eqb_prop in H; subst.
  - now apply Z.eqb_eq in H; subst.
  - now apply String.eqb_eq in H; subst.
Qed.

(** **** Objects keep their keys distinct *)

Lemma keys_obj_set (k : string) (v : value) (o : obj) :
  keys (obj_set k v o)
  = if existsb (String.eqb k) (keys o) then keys o else (keys o ++ [k])%list.
Proof.
  unfold keys. induction o as [|[k' v'] o IH]; simpl; [reflexivity|].
  rewrite (String.eqb_sym k k').
  destruct (String.eqb k' k); simpl; [reflexivity|].
  rewrite IH. now destruct (existsb (String.eqb k) (map fst o)).
Qed.

Lemma distinct_app_one (k : string) (l : list string) :
  distinct l = true -> existsb (String.eqb k) l = false ->
  distinct (l ++ [k])%list = true.
Proof.
  induction l as [|x l IH]; simpl; intros Hd Hk; [reflexivity|].
  apply Bool.andb_true_iff in Hd. destruct Hd as [Hx Hd].
  apply Bool.orb_false_iff in Hk. destruct Hk as [Hkx Hk].
  rewrite (IH Hd Hk), Bool.andb_true_r.
  rewrite existsb_app. simpl. apply Bool.negb_true_iff in Hx.
  now rewrite Hx, String.eqb_sym, Hkx.
Qed.

Lemma values_obj_set (k : string) (v : value) (o : obj) :
  forallb (fun kv => unique_keys (snd kv)) o = true ->
  unique_keys v = true ->
  forallb (fun kv => unique_keys (snd kv)) (obj_set k v o) = true.
Proof.
  intros Ho Hv. induction o as [|[k' v'] o IH]; simpl.
  - now rewrite Hv.
  - simpl in Ho. apply Bool.andb_true_iff in Ho. destruct Ho as [Hv' Ho].
    destruct (String.eqb k' k); simpl.
    + now rewrite Hv, Ho.
    + now rewrite Hv', (IH Ho).
Qed.

Lemma unique_keys_obj_set (k : string) (v : value) (o : obj) :
  unique_keys (VObj o) = true -> unique_keys v = true ->
  unique_keys (VObj (obj_set k v o)) = true.
Proof.
  cbn [unique_keys]. intros Ho Hv.
  apply Bool.andb_true_iff in Ho. destruct Ho as [Hd Ho].
  apply Bool.andb_true_iff. split; [|now apply values_obj_set].
  fold (keys (obj_set k v o)). rewrite keys_obj_set. fold (keys o) in Hd.
  destruct (existsb (String.eqb k) (keys o)) eqn:E; [exact Hd|].
  now apply distinct_app_one.
Qed.

Lemma unique_keys_obj_spread (source target : obj) :
  unique_keys (VObj target) = true ->
  forallb (fun kv => unique_keys (snd kv)) source = true ->
  unique_keys (VObj (obj_spread target source)) = true.
Proof.
  revert target. unfold obj_spread.
  induction source as [|[k v] source IH]; intros target Ht Hs; simpl.
  - exact Ht.
  - simpl in Hs. apply Bool.andb_true_iff in Hs. destruct Hs as [Hv Hs].
    apply IH; [|exact Hs]. now apply unique_keys_obj_set.
Qed.

(** **** What [JSON.parse] builds has its keys distinct *)

Lemma parse_member_unique (pv : string -> option (value * string))
    (s : string) (k : string) (v : value) (r : string) :
  (forall s' v' r', pv s' = Some (v', r') -> unique_keys v' = true) ->
  parse_member pv s = Some ((k, v), r) -> unique_keys v = true.
Proof.
  intros Hpv. unfold parse_member.
  destruct (skip_ws s) as [|c r0]; [discriminate|].
  destruct (Ascii.eqb c dquote); [|discriminate].
  destruct (parse_chars r0) as [[k0 r1]|]; [|discriminate].
  destruct (skip_ws r1) as [|c1 r2]; [discriminate|].
  destruct (Ascii.eqb c1 ":"); [|discriminate].
  destruct (pv r2) as [[v0 r3]|] eqn:E; [|discriminate].
  intros H. inversion H; subst. exact (Hpv _ _ _ E).
Qed.

Lemma parse_unique_keys (fuel : nat) :
  (forall s v r, parse_value fuel s = Some (v, r) -> unique_keys v = true)
  /\ (forall s l r, parse_elems fuel s = Some (l, r) ->
        forallb unique_keys l = true)
  /\ (forall s ps r, parse_members fuel s = Some (ps, r) ->
        forallb (fun kv => unique_keys (snd kv)) ps = true).
Proof.
  induction fuel as [|n (IHv & IHe & IHm)].
  - repeat split; intros; discriminate.
  - split; [|split].
    + intros s v r. cbn [parse_value].
      destruct (skip_ws s) as [|c r0]; [discriminate|].
      destruct (Ascii.eqb c "n").
      { destruct (expect "ull" r0); intros H; inversion H; reflexivity. }
      destruct (Ascii.eqb c "t").
      { destruct (expect "rue" r0); intros H; inversion H; reflexivity. }
      destruct (Ascii.eqb c "f").
      { destruct (expect "alse" r0); intros H; inversion H; reflexivity. }
      destruct (Ascii.eqb c dquote).
      { destruct (parse_chars r0) as [[str r']|]; intros H; inversion H;
          reflexivity. }
      destruct (Ascii.eqb c "[").
      { destruct (skip_ws r0) as [|c' r']; [discriminate|].
        destruct (Ascii.eqb c' "]"); [intros H; inversion H; reflexivity|].
        destruct (parse_value n r0) as [[x r1]|] eqn:Ex; [|discriminate].
        destruct (parse_elems n r1) as [[xs r2]|] eqn:Exs; [|discriminate].
        intros H. inversion H; subst. cbn [unique_keys forallb].
        now rewrite (IHv _ _ _ Ex), (IHe _ _ _ Exs). }
      destruct (Ascii.eqb c "{").
      { destruct (skip_ws r0) as [|c' r']; [discriminate|].
        destruct (Ascii.eqb c' "}"); [intros H; inversion H; reflexivity|].
        destruct (parse_member (parse_value n) r0) as [[[k x] r1]|] eqn:Ex;
          [|discriminate].
        destruct (parse_members n r1) as [[kvs r2]|] eqn:Exs; [|discriminate].
        intros H. inversion H; subst.
        apply (unique_keys_obj_spread ((k, x) :: kvs) []); [reflexivity|].
        cbn [forallb snd].
        now rewrite (parse_member_unique _ _ _ _ _ IHv Ex), (IHm _ _ _ Exs). }
      destruct (parse_number (String c r0)) as [[z r']|]; intros H;
        inversion H; reflexivity.
    + intros s l r. cbn [parse_elems].
      destruct (skip_ws s) as [|c r0]; [discriminate|].
      destruct (Ascii.eqb c "]"); [intros H; inversion H; reflexivity|].
      destruct (Ascii.eqb c ","); [|discriminate].
      destruct (parse_value n r0) as [[x r1]|] eqn:Ex; [|discriminate].
      destruct (parse_elems n r1) as [[xs r2]|] eqn:Exs; [|discriminate].
      intros H. inversion H; subst. cbn [forallb].
      now rewrite (IHv _ _ _ Ex), (IHe _ _ _ Exs).
    + intros s ps r. cbn [parse_members].
      destruct (skip_ws s) as [|c r0]; [discriminate|].
      destruct (Ascii.eqb c "}"); [intros H; inversion H; reflexivity|].
      destruct (Ascii.eqb c ","); [|discriminate].
      destruct (parse_member (parse_value n) r0) as [[[k x] r1]|] eqn:Ex;
        [|discriminate].
      destruct (parse_members n r1) as [[kvs r2]|] eqn:Exs; [|discriminate].
      intros H. inversion H; subst. cbn [forallb snd].
      now rewrite (parse_member_unique _ _ _ _ _ IHv Ex), (IHm _ _ _ Exs).
Qed.

Lemma JSON_parse_unique_keys (text : string) (v : value) :
  JSON_parse text = Ok v -> unique_keys v = true.
Proof.
  unfold JSON_parse.
  destruct (parse_value (S (String.length text)) text) as [[v0 r]|] eqn:E;
    [|discriminate].
  destruct (skip_ws r); [|discriminate].
  intros H. inversion H; subst.
  exact (proj1 (parse_unique_keys _) _ _ _ E).
Qed.

End JSFacts.

(* ================================================================== *)
(** ** The inventory manager: properties *)
(* ================================================================== *)

Module InventoryFacts.
Import JS Inventory JSFacts.

(** *** The array callbacks on an inventory of records *)

Lemma prop_is_obj (k : string) (x : option value) (o : obj) :
  prop_is k x (VObj o) = Ok (has_prop k x o).
Proof. reflexivity. Qed.

Lemma array_some_objs (k : string) (x : option value) (recs : list obj) :
  array_some (prop_is k x) (map VObj recs) = Ok (existsb (has_prop k x) recs).
Proof.
  induction recs as [|o recs IH]; [reflexivity|].
  cbn [map array_some existsb]. rewrite prop_is_obj. cbn [bind].
  destruct (has_prop k x o); [reflexivity | exact IH].
Qed.

Lemma array_filter_objs (k : string) (x : option value) (recs : list obj) :
  array_filter (prop_is_not k x) (map VObj recs)
  = Ok (map VObj (filter (fun o => negb (has_prop k x o)) recs)).
Proof.
  induction recs as [|o recs IH]; [reflexivity|].
  cbn [map array_filter filter]. unfold prop_is_not at 1.
  rewrite prop_is_obj. cbn [bind]. rewrite IH. cbn [bind].
  destruct (has_prop k x o); reflexivity.
Qed.

Lemma array_findIndex_objs (k : string) (x : option value) (recs : list obj) :
  array_findIndex (prop_is k x) (map VObj recs)
  = Ok (index_of (has_prop k x) recs).
Proof.
  induction recs as [|o recs IH]; [reflexivity|].
  cbn [map array_findIndex index_of]. rewrite prop_is_obj. cbn [bind].
  destruct (has_prop k x o); [reflexivity|]. rewrite IH. reflexivity.
Qed.

Lemma index_of_Some (p : obj -> bool) (recs : list obj) (i : nat) :
  index_of p recs = Some i ->
  exists o, nth_error recs i = Some o /\ p o = true.
Proof.
  revert i. induction recs as [|o recs IH]; simpl; intros i H; [discriminate|].
  destruct (p o) eqn:E.
  - inversion H; subst. exists o. split; [reflexivity | exact E].
  - destruct (index_of p recs) as [j|]; [|discriminate].
    inversion H; subst. simpl. now apply IH.
Qed.

Lemma index_of_existsb (p : obj -> bool) (recs : list obj) :
  existsb p recs = match index_of p recs with Some _ => true | None => false end.
Proof.
  induction recs as [|o recs IH]; simpl; [reflexivity|].
  destruct (p o); [reflexivity|]. simpl. rewrite IH.
  now destruct (index_of p recs).
Qed.

Lemma index_of_filter_out (p : obj -> bool) (recs : list obj) :
  index_of p (filter (fun o => negb (p o)) recs) = None.
Proof.
  induction recs as [|o recs IH]; simpl; [reflexivity|].
  destruct (p o) eqn:E; simpl; [exact IH|]. now rewrite E, IH.
Qed.

Lemma array_find_objs (k : string) (x : option value) (recs : list obj) :
  array_find (prop_is k x) (map VObj recs)
  = Ok (match index_of (has_prop k x) recs with
        | Some i => option_map (fun o => (i, VObj o)) (nth_error recs i)
        | None => None
        end).
Proof.
  unfold array_find. rewrite array_findIndex_objs. simpl.
  destruct (index_of (has_prop k x) recs) as [i|]; [|reflexivity].
  rewrite nth_error_map. unfold obj in *. now destruct (nth_error recs i).
Qed.

Lemma array_set_objs (i : nat) (o : obj) (recs : list obj) :
  array_set i (VObj o) (map VObj recs) = map VObj (array_set i o recs).
Proof.
  revert i. induction recs as [|o' recs IH]; intros [|i]; simpl;
    try reflexivity. now rewrite IH.
Qed.

Lemma nth_objs (i : nat) (o : obj) (recs : list obj) :
  nth_error recs i = Some o -> nth i (map VObj recs) VNull = VObj o.
Proof.
  revert i. induction recs as [|o' recs IH]; intros [|i]; simpl; intros H;
    try discriminate; [now inversion H | now apply IH].
Qed.

Lemma length_array_set {A : Type} (i : nat) (x : A) (l : list A) :
  List.length (array_set i x l) = List.length l.
Proof.
  revert i. induction l as [|y l IH]; intros [|i]; simpl; try reflexivity.
  now rewrite IH.
Qed.

Lemma filter_count (p : obj -> bool) (recs : list obj) :
  List.length (filter (fun o => negb (p o)) recs) + count p recs
  = List.length recs.
Proof.
  unfold count. induction recs as [|o recs IH]; simpl; [reflexivity|].
  destruct (p o); simpl; lia.
Qed.

(** *** Persistence *)

Lemma saveInventory_inventory (st : manager) :
  inventory (fst (saveInventory st)) = inventory st.
Proof.
  unfold saveInventory. now destruct (setItem _ _ _).
Qed.

(** Saving twice is saving once. *)
Lemma saveInventory_twice (st : manager) :
  saveInventory (fst (saveInventory st)) = saveInventory st.
Proof.
  unfold saveInventory.
  destruct (setItem storageKey (JSON_stringify (inventory st)) (store st))
    as [ls|e] eqn:E; simpl.
  - rewrite (setItem_again _ _ _ _ E). reflexivity.
  - rewrite E. reflexivity.
Qed.

(** *** Every inventory the page can hold has well-formed objects *)

Lemma array_filter_keeps (P : value -> bool) (f : value -> result bool)
    (l r : list value) :
  array_filter f l = Ok r -> forallb P l = true -> forallb P r = true.
Proof.
  revert r. induction l as [|m l IH]; simpl; intros r H Hl.
  - now inversion H.
  - apply Bool.andb_true_iff in Hl. destruct Hl as [Hm Hl].
    destruct (f m) as [b|]; [|discriminate]. cbn [bind] in H.
    destruct (array_filter f l) as [r'|]; [|discriminate]. cbn [bind] in H.
    inversion H; subst. destruct b; simpl; [rewrite Hm|]; now apply IH.
Qed.

Lemma array_findIndex_found (f : value -> result bool) (l : list value) (i : nat) :
  array_findIndex f l = Ok (Some i) ->
  exists m, nth_error l i = Some m /\ f m = Ok true.
Proof.
  revert i. induction l as [|m l IH]; simpl; intros i H; [discriminate|].
  destruct (f m) as [[|]|] eqn:E; cbn [bind] in H; try discriminate.
  - inversion H; subst. exists m. now split.
  - destruct (array_findIndex f l) as [[j|]|]; cbn [bind option_map] in H;
      try discriminate.
    inversion H; subst. simpl. now apply IH.
Qed.

(** Only an object satisfies [m => m.k === x], and only for a primitive
    [x]. *)
Lemma prop_is_true (k : string) (x m : value) :
  prop_is k (Some x) m = Ok true ->
  (exists o, m = VObj o) /\ unique_keys x = true.
Proof.
  unfold prop_is. destruct m as [| | | | |o]; cbn [get_prop bind];
    try discriminate.
  intros H. split; [now exists o|].
  destruct (obj_get k o) as [v|]; cbn [strict_equals_opt] in H; [|discriminate].
  destruct v, x; simpl in H; try discriminate; reflexivity.
Qed.

Lemma forallb_array_set (P : value -> bool) (i : nat) (new : value)
    (l : list value) :
  forallb P l = true -> P new = true -> forallb P (array_set i new l) = true.
Proof.
  revert i. induction l as [|m l IH]; intros [|i]; simpl; intros Hl Hn;
    try reflexivity; apply Bool.andb_true_iff in Hl; destruct Hl as [Hm Hl].
  - now rewrite Hn, Hl.
  - now rewrite Hm, (IH i Hl Hn).
Qed.

Lemma forallb_nth (P : value -> bool) (i : nat) (m : value) (l : list value) :
  forallb P l = true -> nth_error l i = Some m -> P m = true.
Proof.
  intros Hl Hm. apply nth_error_In in Hm.
  rewrite forallb_forall in Hl. now apply Hl.
Qed.

Lemma nth_nth_error (i : nat) (m : value) (l : list value) :
  nth_error l i = Some m -> nth i l VNull = m.
Proof.
  revert i. induction l as [|x l IH]; intros [|i]; simpl; intros H;
    try discriminate; [now inversion H | now apply IH].
Qed.

Lemma loadInventory_unique_keys (ls : localStorage) :
  unique_keys (loadInventory ls) = true.
Proof.
  unfold loadInventory. destruct (getItem storageKey ls) as [stored|];
    [|reflexivity].
  destruct (String.eqb stored ""); [reflexivity|].
  destruct (JSON_parse stored) as [v|] eqn:E; [|reflexivity].
  now apply JSON_parse_unique_keys in E.
Qed.

Lemma saveInventory_unique_keys (st : manager) :
  unique_keys (inventory st) = true ->
  unique_keys (inventory (fst (saveInventory st))) = true.
Proof. now rewrite saveInventory_inventory. Qed.

Lemma addMobile_unique_keys (now : Z) (mobileData : obj) (st st' : manager)
    (ns : list notice) :
  addMobile now mobileData st = Ok (st', ns) ->
  forallb (fun kv => unique_keys (snd kv)) mobileData = true ->
  unique_keys (inventory st) = true ->
  unique_keys (inventory st') = true.
Proof.
  unfold addMobile. destruct (inventory st) as [| | | |l|] eqn:El;
    cbn [as_array bind]; try discriminate.
  intros H Hd Hl. inversion H as [Hs]. change st' with (fst (st', ns)).
  rewrite <- Hs, saveInventory_inventory. cbn [with_inventory inventory].
  cbn [unique_keys] in *. rewrite forallb_app, Hl. cbn [forallb unique_keys].
  rewrite Bool.andb_true_r.
  now apply (unique_keys_obj_spread mobileData [("id", VNum now)]).
Qed.

Lemma updateMobile_unique_keys (id : value) (fields : obj) (st st' : manager)
    (ns : list notice) :
  updateMobile id fields st = Ok (st', ns) ->
  forallb (fun kv => unique_keys (snd kv)) fields = true ->
  unique_keys (inventory st) = true ->
  unique_keys (inventory st') = true.
Proof.
  unfold updateMobile. destruct (inventory st) as [| | | |l|] eqn:El;
    cbn [as_array bind]; try discriminate.
  destruct (array_findIndex (prop_is "id" (Some id)) l) as [[i|]|] eqn:Ei;
    cbn [bind]; try discriminate.
  - intros H Hf Hl. inversion H as [Hs]. change st' with (fst (st', ns)).
    rewrite <- Hs, saveInventory_inventory. cbn [with_inventory inventory].
    destruct (array_findIndex_found _ _ _ Ei) as (m & Hm & Hp).
    destruct (prop_is_true _ _ _ Hp) as [[o ->] Hid].
    rewrite (nth_nth_error _ _ _ Hm). cbn [own_props].
    cbn [unique_keys] in Hl |- *.
    apply forallb_array_set; [exact Hl|].
    apply unique_keys_obj_set; [|exact Hid].
    apply unique_keys_obj_spread; [|exact Hf].
    exact (forallb_nth _ _ _ _ Hl Hm).
  - intros H _ Hl. inversion H; subst. now rewrite El.
Qed.

Lemma submitted_image_unique_keys (fd : formData) (img : value) :
  submitted_image fd = Ok img -> unique_keys img = true.
Proof.
  unfold submitted_image. destruct (get_photo fd) as [f|].
  - destruct (size f >? 0)%Z.
    + destruct (processImage f); cbn [bind]; intros H; inversion H; reflexivity.
    + intros H; inversion H; reflexivity.
  - intros H; inversion H; reflexivity.
Qed.

Lemma push_missing_unique_keys (mobiles : list obj) (st st' : manager) :
  push_missing mobiles st = Ok st' ->
  forallb (fun m => unique_keys (VObj m)) mobiles = true ->
  unique_keys (inventory st) = true ->
  unique_keys (inventory st') = true.
Proof.
  revert st. induction mobiles as [|m rest IH]; cbn [push_missing]; intros st H Hm Hl.
  - now inversion H; subst.
  - cbn [forallb] in Hm. apply Bool.andb_true_iff in Hm. destruct Hm as [Hm Hrest].
    destruct (isDuplicateIMEI (obj_get "imei" m) st) as [[|]|]; cbn [bind] in H;
      try discriminate.
    + now apply (IH st).
    + destruct (inventory st) as [| | | |l|] eqn:El; cbn [as_array bind] in H;
        try discriminate.
      apply (IH _ H Hrest). cbn [with_inventory inventory].
      cbn [unique_keys] in Hl |- *. rewrite forallb_app, Hl.
      cbn [forallb]. now rewrite Bool.andb_true_r.
Qed.

Lemma testMobiles_unique_keys (now : Z) :
  forallb (fun m => unique_keys (VObj m)) (testMobiles now) = true.
Proof. reflexivity. Qed.

(** Every handler that completes leaves an inventory of well-formed
    objects. *)
Lemma handle_unique_keys (a : action) (st st' : manager) (ns : list notice) :
  handle a st = Ok (st', ns) ->
  unique_keys (inventory st) = true ->
  unique_keys (inventory st') = true.
Proof.
  destruct a as [now fd | confirmed id | confirmed id | id | | confirmed now];
    cbn [handle]; intros H Hl.
  - unfold handleFormSubmit in H.
    destruct (get_brand fd) as [brand|]; cbn [trimmed bind] in H; [|discriminate].
    destruct (get_model fd) as [model|]; cbn [trimmed bind] in H; [|discriminate].
    destruct (get_imei fd) as [raw|]; cbn [trimmed bind] in H; [|discriminate].
    destruct (validateIMEI (trim raw)); cbn [negb] in H;
      [|inversion H; subst; exact Hl].
    destruct (if isEditing st then Ok false
              else isDuplicateIMEI (Some (VStr (trim raw))) st) as [[|]|];
      cbn [bind] in H; try discriminate; [inversion H; subst; exact Hl|].
    destruct (submitted_image fd) as [img|] eqn:Eimg;
      [|inversion H; subst; exact Hl].
    assert (Hfields :
              forallb (fun kv => unique_keys (snd kv))
                (obj_set "image" img
                   [("brand", VStr (trim brand)); ("model", VStr (trim model));
                    ("imei", VStr (trim raw)); ("ram", entry_value (get_ram fd));
                    ("storage", entry_value (get_storage fd))]) = true).
    { cbn. rewrite (submitted_image_unique_keys _ _ Eimg).
      now destruct (get_ram fd), (get_storage fd). }
    destruct (isEditing st).
    + destruct (updateMobile _ _ st) as [[st1 ns1]|] eqn:Eu; cbn [bind] in H;
        [|discriminate].
      inversion H; subst. cbn [resetEditMode inventory].
      exact (updateMobile_unique_keys _ _ _ _ _ Eu Hfields Hl).
    + destruct (addMobile _ _ st) as [[st1 ns1]|] eqn:Ea; cbn [bind] in H;
        [|discriminate].
      inversion H; subst. cbn [resetEditMode inventory].
      exact (addMobile_unique_keys _ _ _ _ _ Ea Hfields Hl).
  - unfold deleteMobile in H. destruct confirmed; [|inversion H; subst; exact Hl].
    destruct (inventory st) as [| | | |l|] eqn:El; cbn [as_array bind] in H;
      try discriminate.
    destruct (array_filter _ l) as [kept|] eqn:Ek; cbn [bind] in H; [|discriminate].
    destruct (saveInventory _) as [st1 ns1] eqn:Es. inversion H; subst.
    change st' with (fst (st', ns1)). rewrite <- Es, saveInventory_inventory.
    cbn [with_inventory inventory unique_keys] in *.
    exact (array_filter_keeps _ _ _ _ Ek Hl).
  - unfold markAsSold in H. destruct confirmed; [|inversion H; subst; exact Hl].
    destruct (inventory st) as [| | | |l|] eqn:El; cbn [as_array bind] in H;
      try discriminate.
    unfold array_find in H.
    destruct (array_findIndex _ l) as [[i|]|] eqn:Ei; cbn [bind] in H;
      try discriminate; [|inversion H; subst; now rewrite El].
    destruct (array_findIndex_found _ _ _ Ei) as (m & Hm & Hp).
    destruct (prop_is_true _ _ _ Hp) as [[o ->] _].
    rewrite Hm in H. cbn [option_map own_props] in H.
    destruct (saveInventory _) as [st1 ns1] eqn:Es. inversion H; subst.
    change st' with (fst (st', ns1)). rewrite <- Es, saveInventory_inventory.
    cbn [with_inventory inventory unique_keys] in *.
    apply forallb_array_set; [exact Hl|].
    apply unique_keys_obj_set; [|reflexivity].
    exact (forallb_nth _ _ _ _ Hl Hm).
  - unfold no_notice, editMobile in H.
    destruct (as_array (inventory st)) as [l|]; cbn [bind] in H; [|discriminate].
    destruct (array_find _ l) as [[found|]|]; cbn [bind] in H; try discriminate;
      inversion H; subst; exact Hl.
  - inversion H; subst. exact Hl.
  - unfold generateTestData in H. destruct confirmed; [|inversion H; subst; exact Hl].
    destruct (push_missing _ st) as [st1|] eqn:Ep; cbn [bind] in H; [|discriminate].
    destruct (saveInventory st1) as [st2 ns2] eqn:Es. inversion H; subst.
    change st' with (fst (st', ns2)). rewrite <- Es, saveInventory_inventory.
    exact (push_missing_unique_keys _ _ _ Ep (testMobiles_unique_keys now) Hl).
Qed.

Lemma reachable_unique_keys (st : manager) :
  reachable st -> unique_keys (inventory st) = true.
Proof.
  induction 1 as [ls | a st Hst IH].
  - apply loadInventory_unique_keys.
  - unfold run. destruct (handle a st) as [[st' ns]|e] eqn:E; cbn [state_after].
    + exact (handle_unique_keys _ _ _ _ E IH).
    + exact IH.
Qed.

(** *** C7: delete *)

(** C7, as the code has it: after [deleteMobile(id)] with the confirmation
    granted, a search for [id] finds nothing, and the inventory is shorter
    by the number of records that carried [id]: by exactly one when a single
    record carried it. *)
Theorem delete_then_find (recs : list obj) (id : value) (editing : bool)
    (eid : value) (ls : localStorage) :
  let st := manager_of recs editing eid ls in
  let kept := filter (fun o => negb (has_prop "id" (Some id) o)) recs in
  exists st' ns,
    deleteMobile true id st = Ok (st', ns)
    /\ inventory st' = inv_of kept
    /\ array_find (prop_is "id" (Some id)) (map VObj kept) = Ok None
    /\ List.length kept + count (has_prop "id" (Some id)) recs = List.length recs
    /\ (count (has_prop "id" (Some id)) recs = 1 ->
        S (List.length kept) = List.length recs).
Proof.
  intros st kept.
  unfold deleteMobile, st, manager_of, inv_of. cbn [inventory as_array bind].
  rewrite array_filter_objs. cbn [bind]. fold kept.
  destruct (saveInventory _) as [st' ns] eqn:Hs.
  exists st', (ns ++ [ShowSuccess "Mobile deleted from inventory."])%list.
  pose proof (filter_count (has_prop "id" (Some id)) recs) as Hc. fold kept in Hc.
  repeat split.
  - change st' with (fst (st', ns)). rewrite <- Hs.
    now rewrite saveInventory_inventory.
  - rewrite array_find_objs. unfold kept. now rewrite index_of_filter_out.
  - exact Hc.
  - intros H1. lia.
Qed.

(** C7 at a concrete inventory in which one record carries the id. *)
Lemma delete_then_find_witness :
  let st := manager_of
              [sample 1 "Samsung" "Galaxy A54" "123456789012345" "8GB" "128GB" false;
               sample 2 "Apple" "iPhone 13" "234567890123456" "4GB" "128GB" true]
              false VNull {| items := []; capacity := 4096 |} in
  exists st' ns,
    deleteMobile true (VNum 2) st = Ok (st', ns)
    /\ inventory st'
       = inv_of [sample 1 "Samsung" "Galaxy A54" "123456789012345" "8GB" "128GB" false]
    /\ S 1 = 2.
Proof.
  intros st.
  destruct (delete_then_find
              [sample 1 "Samsung" "Galaxy A54" "123456789012345" "8GB" "128GB" false;
               sample 2 "Apple" "iPhone 13" "234567890123456" "4GB" "128GB" true]
              (VNum 2) false VNull {| items := []; capacity := 4096 |})
    as (st' & ns & H1 & H2 & _ & _ & H5).
  exists st', ns. split; [exact H1|]. split; [exact H2|].
  apply H5. reflexivity.
Defined.

(** C7 as stated fails: two submissions handled in the same millisecond
    give two records with the same [id]; deleting that [id] removes both,
    and the inventory is shorter by two. *)
Lemma delete_same_id_counterexample :
  let st0 := new_manager (empty_storage 4096) in
  let st1 := run (Submit 1700000000000
                    (form_of "Samsung" "Galaxy A54" "123456789012345" "8GB" "128GB")) st0 in
  let st2 := run (Submit 1700000000000
                    (form_of "Apple" "iPhone 13" "234567890123456" "4GB" "128GB")) st1 in
  let st3 := run (Delete true (VNum 1700000000000)) st2 in
  inventory st2
  = inv_of [new_record 1700000000000 "Samsung" "Galaxy A54" "123456789012345"
              (Some "8GB") (Some "128GB") VNull;
            new_record 1700000000000 "Apple" "iPhone 13" "234567890123456"
              (Some "4GB") (Some "128GB") VNull]
  /\ inventory st3 = inv_of []
  /\ array_find (prop_is "id" (Some (VNum 1700000000000))) [] = Ok None
  /\ ~ (exists l2 l3, inventory st2 = VArr l2 /\ inventory st3 = VArr l3
                      /\ S (List.length l3) = List.length l2).
Proof.
  cbv zeta. split; [vm_compute; reflexivity|].
  split; [vm_compute; reflexivity|].
  split; [reflexivity|].
  intros (l2 & l3 & H2 & H3 & Hlen).
  vm_compute in H2. vm_compute in H3.
  inversion H2; subst l2. inversion H3; subst l3. simpl in Hlen. discriminate.
Qed.

(** *** C8: update *)

Lemma has_prop_get (k : string) (x : value) (o : obj) :
  has_prop k (Some x) o = true -> obj_get k o = Some x.
Proof.
  unfold has_prop. destruct (obj_get k o) as [v|]; simpl; [|discriminate].
  intros H. now rewrite (strict_equals_eq _ _ H).
Qed.

(** What [updateMobile] does on an inventory of records. *)
Lemma updateMobile_objs (recs : list obj) (id : value) (fields : obj)
    (editing : bool) (eid : value) (ls : localStorage) :
  let st := manager_of recs editing eid ls in
  updateMobile id fields st =
  match index_of (has_prop "id" (Some id)) recs with
  | Some i =>
      match nth_error recs i with
      | Some old =>
          Ok (saveInventory
                (with_inventory st
                   (inv_of (array_set i (obj_set "id" id (obj_spread old fields)) recs))))
      | None => Ok (st, [])
      end
  | None => Ok (st, [])
  end.
Proof.
  intros st. unfold updateMobile, st, manager_of, inv_of.
  cbn [inventory as_array bind]. rewrite array_findIndex_objs. cbn [bind].
  destruct (index_of (has_prop "id" (Some id)) recs) as [i|] eqn:Ei; [|reflexivity].
  destruct (index_of_Some _ _ _ Ei) as (old & Hold & _).
  rewrite Hold, (nth_objs _ _ _ Hold). cbn [own_props].
  now rewrite array_set_objs.
Qed.

(** C8: [updateMobile(id, fields)] on an inventory that holds a record with
    this [id] replaces the first such record by one with the same [id],
    whatever [fields] says about [id]; on an inventory without such a record
    it changes nothing at all. *)
Theorem update_keeps_id (recs : list obj) (id : value) (fields : obj)
    (editing : bool) (eid : value) (ls : localStorage) :
  let st := manager_of recs editing eid ls in
  (existsb (has_prop "id" (Some id)) recs = true ->
   exists i old merged st' ns,
     index_of (has_prop "id" (Some id)) recs = Some i
     /\ nth_error recs i = Some old
     /\ updateMobile id fields st = Ok (st', ns)
     /\ inventory st' = inv_of (array_set i merged recs)
     /\ obj_get "id" old = Some id
     /\ obj_get "id" merged = obj_get "id" old)
  /\ (existsb (has_prop "id" (Some id)) recs = false ->
      updateMobile id fields st = Ok (st, [])).
Proof.
  intros st. pose proof (updateMobile_objs recs id fields editing eid ls) as Hu.
  fold st in Hu. cbv zeta in Hu.
  rewrite index_of_existsb.
  destruct (index_of (has_prop "id" (Some id)) recs) as [i|] eqn:Ei.
  - split; [intros _ | discriminate].
    destruct (index_of_Some _ _ _ Ei) as (old & Hold & Hid).
    rewrite Hold in Hu.
    destruct (saveInventory _) as [st' ns] eqn:Hs.
    exists i, old, (obj_set "id" id (obj_spread old fields)), st', ns.
    repeat split; try assumption.
    + change st' with (fst (st', ns)). rewrite <- Hs.
      now rewrite saveInventory_inventory.
    + now apply has_prop_get.
    + rewrite obj_get_set_same. symmetry. now apply has_prop_get.
  - split; [discriminate | intros _; exact Hu].
Qed.

(** C8 on a record whose update carries another [id], and on an [id] that
    no record has. *)
Lemma update_keeps_id_witness :
  let recs := [sample 7 "Vivo" "V27 Pro" "901234567890123" "8GB" "256GB" false] in
  (exists i old merged st' ns,
     index_of (has_prop "id" (Some (VNum 7))) recs = Some i
     /\ nth_error recs i = Some old
     /\ updateMobile (VNum 7) [("id", VNum 99); ("brand", VStr "Oppo")]
          (manager_of recs true (VNum 7) (empty_storage 4096)) = Ok (st', ns)
     /\ inventory st' = inv_of (array_set i merged recs)
     /\ obj_get "id" old = Some (VNum 7)
     /\ obj_get "id" merged = obj_get "id" old)
  /\ updateMobile (VNum 8) [("id", VNum 99)]
       (manager_of recs true (VNum 7) (empty_storage 4096))
     = Ok (manager_of recs true (VNum 7) (empty_storage 4096), []).
Proof.
  intros recs. split.
  - apply (update_keeps_id recs (VNum 7) [("id", VNum 99); ("brand", VStr "Oppo")]
             true (VNum 7) (empty_storage 4096)).
    reflexivity.
  - apply (update_keeps_id recs (VNum 8) [("id", VNum 99)]
             true (VNum 7) (empty_storage 4096)).
    reflexivity.
Defined.

(** *** C10 and C4: load and persist *)

(** C10: whatever the stored text parses to is what [loadInventory]
    returns, be it an array of records or not. *)
Theorem load_returns_parsed (ls : localStorage) (blob : string) (v : value) :
  getItem storageKey ls = Some blob ->
  JSON_parse blob = Ok v ->
  loadInventory ls = v /\ inventory (new_manager ls) = v.
Proof.
  intros Hget Hparse. unfold new_manager. cbn [inventory].
  unfold loadInventory. rewrite Hget.
  destruct (String.eqb_spec blob "") as [->|_].
  - vm_compute in Hparse. discriminate Hparse.
  - rewrite Hparse. split; reflexivity.
Qed.

(** C10 on a stored number and on a stored plain object. *)
Lemma load_returns_parsed_witness :
  (loadInventory {| items := [(storageKey, "42")]; capacity := 4096 |} = VNum 42
   /\ inventory (new_manager {| items := [(storageKey, "42")]; capacity := 4096 |})
      = VNum 42)
  /\ (loadInventory {| items := [(storageKey, "{ }")]; capacity := 4096 |} = VObj []
      /\ inventory (new_manager {| items := [(storageKey, "{ }")]; capacity := 4096 |})
         = VObj []).
Proof.
  split.
  - apply (load_returns_parsed _ "42" (VNum 42)); reflexivity.
  - apply (load_returns_parsed _ "{ }" (VObj [])); reflexivity.
Defined.

(** The round trip for an inventory of well-formed objects. *)
Lemma persist_then_load_wf (st : manager) (ls : localStorage) :
  unique_keys (inventory st) = true ->
  setItem storageKey (JSON_stringify (inventory st)) (store st) = Ok ls ->
  saveInventory st = (with_store st ls, [])
  /\ loadInventory ls = inventory st
  /\ inventory (new_manager ls) = inventory st.
Proof.
  intros Hu Hset.
  assert (Hload : loadInventory ls = inventory st).
  { unfold loadInventory. rewrite (getItem_setItem _ _ _ _ Hset).
    rewrite JSON_stringify_nonempty. now rewrite JSON_parse_stringify. }
  unfold saveInventory. rewrite Hset. repeat split; assumption.
Qed.

(** C4, as the code has it.  For every inventory on which the model is
    the engine (objects with their keys once, integers of magnitude at most
    2^53 - 1): when the storage accepts the write of [saveInventory],
    [loadInventory] gives back the inventory that was saved, as does a
    manager started afresh on that storage; when the storage refuses the
    write, [saveInventory] reports the failure, leaves the storage as it
    was, and [loadInventory] gives what it gave before. *)
Theorem persist_then_load (st : manager) :
  exact (inventory st) = true ->
  (forall ls,
      setItem storageKey (JSON_stringify (inventory st)) (store st) = Ok ls ->
      saveInventory st = (with_store st ls, [])
      /\ loadInventory ls = inventory st
      /\ inventory (new_manager ls) = inventory st)
  /\ (forall e,
        setItem storageKey (JSON_stringify (inventory st)) (store st) = Throw e ->
        saveInventory st = (st, [storage_failure])
        /\ store (fst (saveInventory st)) = store st
        /\ loadInventory (store (fst (saveInventory st))) = loadInventory (store st)).
Proof.
  intros Hx. unfold exact in Hx. apply andb_true_iff in Hx. destruct Hx as [Hu _].
  split.
  - intros ls Hset. now apply persist_then_load_wf.
  - intros e Hset. unfold saveInventory. rewrite Hset. now repeat split.
Qed.

(** C4 on two records, one of them sold, with room in the storage and
    without. *)
Lemma persist_then_load_witness :
  let recs := [sample 1700000000000 "Samsung" "Galaxy A54" "123456789012345"
                 "8GB" "128GB" false;
               sample 1700000000500 "Apple" "iPhone 13" "234567890123456"
                 "4GB" "128GB" true] in
  (exists ls,
     saveInventory (manager_of recs false VNull (empty_storage 4096))
     = (with_store (manager_of recs false VNull (empty_storage 4096)) ls, [])
     /\ loadInventory ls = inv_of recs)
  /\ saveInventory (manager_of recs false VNull (empty_storage 64))
     = (manager_of recs false VNull (empty_storage 64), [storage_failure]).
Proof.
  intros recs. split.
  - destruct (persist_then_load (manager_of recs false VNull (empty_storage 4096))
                eq_refl) as [Hok _].
    eexists. destruct (Hok _ eq_refl) as (H1 & H2 & _).
    split; [exact H1 | exact H2].
  - destruct (persist_then_load (manager_of recs false VNull (empty_storage 64))
                eq_refl) as [_ Hno].
    exact (proj1 (Hno QuotaExceededError eq_refl)).
Defined.

(** C4 as stated fails: when the storage refuses the write, [saveInventory]
    reports it and goes on, and a later [loadInventory] finds what was
    stored before, here nothing. *)
Lemma persist_refused_counterexample :
  let st :=
    run (Submit 1700000000000
           (form_of "Samsung" "Galaxy A54" "123456789012345" "8GB" "128GB"))
      (new_manager (empty_storage 64)) in
  inventory st
  = inv_of [new_record 1700000000000 "Samsung" "Galaxy A54" "123456789012345"
              (Some "8GB") (Some "128GB") VNull]
  /\ saveInventory st
     = (st, [ShowError "Failed to save data. Storage might be full."])
  /\ loadInventory (store (fst (saveInventory st))) = VArr []
  /\ loadInventory (store (fst (saveInventory st))) <> inventory st.
Proof.
  cbv zeta. split; [vm_compute; reflexivity|].
  split; [vm_compute; reflexivity|].
  split; [vm_compute; reflexivity|].
  vm_compute. discriminate.
Qed.

(** *** The handlers on an inventory of records *)

Lemma settle_inventory (st : manager) (recs : list obj) :
  inventory (fst (settle st recs)) = inv_of recs.
Proof. unfold settle. now rewrite saveInventory_inventory. Qed.

(** After a save the manager holds the records, the same edit state and
    some storage. *)
Lemma settle_shape (recs recs' : list obj) (editing : bool) (eid : value)
    (ls : localStorage) :
  exists ls', fst (settle (manager_of recs editing eid ls) recs')
              = manager_of recs' editing eid ls'.
Proof.
  unfold settle, saveInventory, with_inventory, manager_of.
  cbn [inventory isEditing editingId store].
  destruct (setItem _ _ _) as [ls'|e]; eexists; reflexivity.
Qed.

Lemma deleteMobile_objs (recs : list obj) (confirmed : bool) (id : value)
    (editing : bool) (eid : value) (ls : localStorage) :
  let st := manager_of recs editing eid ls in
  deleteMobile confirmed id st =
  if confirmed then
    Ok (fst (settle st (filter (fun o => negb (has_prop "id" (Some id) o)) recs)),
        (snd (settle st (filter (fun o => negb (has_prop "id" (Some id) o)) recs))
           ++ [ShowSuccess "Mobile deleted from inventory."])%list)
  else Ok (st, []).
Proof.
  intros st. unfold deleteMobile. destruct confirmed; [|reflexivity].
  unfold st, manager_of, inv_of. cbn [inventory as_array bind].
  rewrite array_filter_objs. cbn [bind]. unfold settle, inv_of.
  now destruct (saveInventory _).
Qed.

Lemma markAsSold_objs (recs : list obj) (confirmed : bool) (id : value)
    (editing : bool) (eid : value) (ls : localStorage) :
  let st := manager_of recs editing eid ls in
  markAsSold confirmed id st =
  if confirmed then
    match index_of (has_prop "id" (Some id)) recs with
    | Some i =>
        match nth_error recs i with
        | Some old =>
            let recs' := array_set i (obj_set "sold" (VBool true) old) recs in
            Ok (fst (settle st recs'),
                (snd (settle st recs') ++ [ShowSuccess "Mobile marked as sold!"])%list)
        | None => Ok (st, [])
        end
    | None => Ok (st, [])
    end
  else Ok (st, []).
Proof.
  intros st. unfold markAsSold. destruct confirmed; [|reflexivity].
  unfold st, manager_of, inv_of. cbn [inventory as_array bind].
  rewrite array_find_objs. cbn [bind].
  destruct (index_of (has_prop "id" (Some id)) recs) as [i|]; [|reflexivity].
  unfold obj in *.
  destruct (nth_error recs i) as [old|]; [|reflexivity].
  cbn [option_map own_props]. rewrite array_set_objs.
  unfold settle, inv_of. now destruct (saveInventory _).
Qed.

Lemma handleFormSubmit_objs (now : Z) (fd : formData) (recs : list obj)
    (editing : bool) (eid : value) (ls : localStorage)
    (brand model raw : string) :
  get_brand fd = Some brand -> get_model fd = Some model ->
  get_imei fd = Some raw ->
  let st := manager_of recs editing eid ls in
  let fields := form_fields (trim brand) (trim model) (trim raw)
                  (get_ram fd) (get_storage fd) in
  handleFormSubmit now fd st =
  if negb (validateIMEI (trim raw)) then Ok (st, [validation_failure])
  else if negb editing && existsb (has_prop "imei" (Some (VStr (trim raw)))) recs
  then Ok (st, [duplicate_failure])
  else
    match submitted_image fd with
    | Throw _ => Ok (st, [ShowError "Failed to process image. Please try again."])
    | Ok img =>
        if editing then
          match index_of (has_prop "id" (Some eid)) recs with
          | Some i =>
              match nth_error recs i with
              | Some old =>
                  let recs' :=
                    array_set i (obj_set "id" eid (obj_spread old (fields img))) recs in
                  Ok (resetEditMode (fst (settle st recs')),
                      (snd (settle st recs')
                         ++ [ShowSuccess "Mobile updated successfully!"])%list)
              | None =>
                  Ok (resetEditMode st, [ShowSuccess "Mobile updated successfully!"])
              end
          | None =>
              Ok (resetEditMode st, [ShowSuccess "Mobile updated successfully!"])
          end
        else
          let recs' :=
            (recs ++ [("id", VNum now) :: fields img])%list in
          Ok (resetEditMode (fst (settle st recs')),
              (snd (settle st recs')
                 ++ [ShowSuccess "Mobile added to inventory successfully!"])%list)
    end.
Proof.
  intros Hb Hm Hi st fields. subst st fields.
  unfold handleFormSubmit. rewrite Hb, Hm, Hi. cbn [trimmed bind].
  destruct (validateIMEI (trim raw)); cbn [negb]; [|reflexivity].
  cbn [isEditing editingId manager_of].
  destruct editing; cbn [negb andb bind].
  - destruct (submitted_image fd) as [img|e]; [|reflexivity].
    pose proof (updateMobile_objs recs eid
                  (obj_set "image" img
                     [("brand", VStr (trim brand)); ("model", VStr (trim model));
                      ("imei", VStr (trim raw)); ("ram", entry_value (get_ram fd));
                      ("storage", entry_value (get_storage fd))])
                  true eid ls) as Hu.
    cbv zeta in Hu. rewrite Hu. clear Hu.
    destruct (index_of (has_prop "id" (Some eid)) recs) as [i|]; [|reflexivity].
    destruct (nth_error recs i) as [old|]; [|reflexivity].
    cbn [bind]. unfold settle, form_fields.
    now destruct (saveInventory _).
  - unfold isDuplicateIMEI, manager_of, inv_of. cbn [inventory as_array bind].
    rewrite array_some_objs. cbn [bind].
    destruct (existsb _ recs); [reflexivity|].
    destruct (submitted_image fd) as [img|e]; [|reflexivity].
    unfold addMobile. cbn [inventory as_array bind].
    unfold settle, form_fields, inv_of, manager_of.
    rewrite map_app. cbn [map].
    now destruct (saveInventory _).
Qed.

(** *** C1 and C2: submitting an add *)

Lemma digits_exact_spec (n : nat) (s : string) :
  digits_exact n s = true <->
  String.length s = n /\ Forall (fun c => is_digit c = true) (list_ascii_of_string s).
Proof.
  revert n. induction s as [|c s IH]; intros [|n]; simpl.
  - split; [now split | reflexivity].
  - split; [discriminate | intros [H _]; discriminate H].
  - split; [discriminate | intros [H _]; discriminate H].
  - rewrite Bool.andb_true_iff, IH. split.
    + intros (Hc & Hl & Hs). split; [now rewrite Hl | now constructor].
    + intros (Hl & Hs). inversion Hs; subst. repeat split; try assumption.
      now injection Hl.
Qed.

(** [validateIMEI] accepts exactly the texts of fifteen digits. *)
Lemma validateIMEI_spec (imei : string) :
  validateIMEI imei = true <-> fifteen_digits imei.
Proof. apply digits_exact_spec. Qed.


Lemma has_prop_refl_str (k s : string) (o : obj) :
  obj_get k o = Some (VStr s) -> has_prop k (Some (VStr s)) o = true.
Proof. unfold has_prop. intros ->. simpl. apply String.eqb_refl. Qed.








(** *** Lists of records *)

Lemma array_set_twice {A : Type} (i : nat) (x y : A) (l : list A) :
  array_set i x (array_set i y l) = array_set i x l.
Proof.
  revert i. induction l as [|z l IH]; intros [|i]; simpl; try reflexivity.
  now rewrite IH.
Qed.

Lemma nth_error_array_set {A : Type} (i : nat) (x old : A) (l : list A) :
  nth_error l i = Some old -> nth_error (array_set i x l) i = Some x.
Proof.
  revert i. induction l as [|z l IH]; intros [|i]; simpl; intros H;
    try discriminate; [reflexivity | now apply IH].
Qed.

Lemma index_of_array_set (p : obj -> bool) (i : nat) (new : obj)
    (recs : list obj) :
  index_of p recs = Some i -> p new = true ->
  index_of p (array_set i new recs) = Some i.
Proof.
  revert i. induction recs as [|o recs IH]; simpl; intros i H Hn; [discriminate|].
  destruct (p o) eqn:E.
  - inversion H; subst. simpl. now rewrite Hn.
  - destruct (index_of p recs) as [j|] eqn:Ej; [|discriminate].
    inversion H; subst. simpl. rewrite E, (IH j eq_refl Hn). reflexivity.
Qed.

Lemma map_array_set_same {B : Type} (f : obj -> B) (i : nat) (old new : obj)
    (recs : list obj) :
  nth_error recs i = Some old -> f new = f old ->
  map f (array_set i new recs) = map f recs.
Proof.
  revert i. induction recs as [|o recs IH]; intros [|i]; simpl; intros H Hf;
    try discriminate.
  - inversion H; subst. now rewrite Hf.
  - now rewrite (IH i H Hf).
Qed.

Lemma NoDup_map_filter {B : Type} (f : obj -> B) (p : obj -> bool)
    (recs : list obj) :
  NoDup (map f recs) -> NoDup (map f (filter p recs)).
Proof.
  induction recs as [|o recs IH]; simpl; intros H; [constructor|].
  inversion H as [|? ? Hnot Hrest]; subst.
  destruct (p o); simpl; [|now apply IH].
  constructor; [|now apply IH].
  intros Hin. apply Hnot. apply in_map_iff in Hin.
  destruct Hin as (o' & Ho' & Hin). apply filter_In in Hin.
  apply in_map_iff. exists o'. now split.
Qed.

Lemma NoDup_map_app_one {B : Type} (f : obj -> B) (recs : list obj) (o : obj) :
  NoDup (map f recs) -> ~ In (f o) (map f recs) ->
  NoDup (map f (recs ++ [o])%list).
Proof.
  intros Hn Hfresh. rewrite map_app. simpl.
  apply NoDup_app; [exact Hn | repeat constructor; intros [] |].
  intros b Hb [Hb'|[]]. subst b. now apply Hfresh.
Qed.

Lemma NoDup_map_array_set {B : Type} (f : obj -> B) (i : nat) (new : obj)
    (recs : list obj) :
  NoDup (map f recs) ->
  (forall j o, nth_error recs j = Some o -> j <> i -> f o <> f new) ->
  NoDup (map f (array_set i new recs)).
Proof.
  revert i. induction recs as [|r recs IH]; intros i Hn Hother.
  - destruct i; constructor.
  - inversion Hn as [|? ? Hnot Hrest]; subst. destruct i as [|i]; simpl.
    + constructor; [|exact Hrest].
      intros Hin. apply in_map_iff in Hin. destruct Hin as (o & Ho & Hin).
      apply In_nth_error in Hin. destruct Hin as [j Hj].
      apply (Hother (S j) o Hj); [discriminate | exact Ho].
    + constructor.
      * intros Hin. apply in_map_iff in Hin. destruct Hin as (o & Ho & Hin).
        apply In_nth_error in Hin. destruct Hin as [j Hj].
        destruct (Nat.eq_dec j i) as [->|Hne].
        -- destruct (nth_error recs i) as [old|] eqn:Eold.
           ++ rewrite (nth_error_array_set i new old recs Eold) in Hj.
              inversion Hj; subst o.
              apply (Hother 0 r eq_refl); [discriminate | now symmetry].
           ++ assert (Hlen : i < List.length (array_set i new recs)).
              { apply nth_error_Some. now rewrite Hj. }
              rewrite length_array_set in Hlen.
              apply nth_error_None in Eold. lia.
        -- apply Hnot. apply in_map_iff. exists o. split; [exact Ho|].
           apply nth_error_In with (n := j).
           rewrite <- Hj. clear -Hne. revert i j Hne.
           induction recs as [|z recs IHr]; intros [|i] [|j] Hne; simpl;
             try reflexivity; try (now elim Hne).
           apply IHr. intros ->. now apply Hne.
      * apply IH; [exact Hrest|].
        intros j o Hj Hne. apply (Hother (S j) o Hj). intros H. apply Hne.
        now injection H.
Qed.

Lemma fresh_not_in (k s : string) (recs : list obj) :
  existsb (has_prop k (Some (VStr s))) recs = false ->
  ~ In (Some (VStr s)) (map (obj_get k) recs).
Proof.
  intros He Hin. apply in_map_iff in Hin. destruct Hin as (o & Ho & Hin).
  assert (Ht : existsb (has_prop k (Some (VStr s))) recs = true).
  { apply existsb_exists. exists o. split; [exact Hin|].
    now apply has_prop_refl_str. }
  congruence.
Qed.

(** *** What a handler leaves in the inventory *)

(** The record written by an update: its [id], [imei] and [sold]. *)
Lemma merged_fields (old : obj) (eid : value) (brand model imei : string)
    (ram storage : option string) (img : value) :
  let merged :=
    obj_set "id" eid
      (obj_spread old (form_fields brand model imei ram storage img)) in
  obj_get "id" merged = Some eid
  /\ obj_get "imei" merged = Some (VStr imei)
  /\ obj_get "sold" merged = obj_get "sold" old.
Proof.
  cbv zeta. split; [apply obj_get_set_same|].
  unfold obj_spread, form_fields. cbn [fold_left fst snd].
  split.
  - rewrite !obj_get_set_other by discriminate. apply obj_get_set_same.
  - now rewrite !obj_get_set_other by discriminate.
Qed.

Lemma sold_fields (old : obj) :
  let sold := obj_set "sold" (VBool true) old in
  obj_get "id" sold = obj_get "id" old
  /\ obj_get "imei" sold = obj_get "imei" old
  /\ sold_flag sold = true.
Proof.
  cbv zeta. repeat split; try (apply obj_get_set_other; discriminate).
  unfold sold_flag. now rewrite obj_get_set_same.
Qed.

Lemma run_throw (a : action) (st : manager) (e : exn) :
  handle a st = Throw e -> run a st = st.
Proof. unfold run. now intros ->. Qed.

Lemma run_ok (a : action) (st st' : manager) (ns : list notice) :
  handle a st = Ok (st', ns) -> run a st = st'.
Proof. unfold run. now intros ->. Qed.

(** The three outcomes of a submission: nothing, a record appended
    (outside edit mode), the edited record rewritten (in edit mode). *)
Lemma submit_cases (now : Z) (fd : formData) (recs : list obj)
    (editing : bool) (eid : value) (ls : localStorage) :
  let st' := run (Submit now fd) (manager_of recs editing eid ls) in
  inventory st' = inv_of recs
  \/ (editing = false
      /\ exists brand model raw img,
           get_imei fd = Some raw
           /\ existsb (has_prop "imei" (Some (VStr (trim raw)))) recs = false
           /\ inventory st'
              = inv_of (recs ++ [new_record now brand model (trim raw)
                                   (get_ram fd) (get_storage fd) img]))
  \/ (editing = true
      /\ exists i old brand model raw img,
           get_imei fd = Some raw
           /\ index_of (has_prop "id" (Some eid)) recs = Some i
           /\ nth_error recs i = Some old
           /\ inventory st'
              = inv_of (array_set i
                          (obj_set "id" eid
                             (obj_spread old
                                (form_fields brand model (trim raw)
                                   (get_ram fd) (get_storage fd) img)))
                          recs)).
Proof.
  intros st'. subst st'.
  destruct (get_brand fd) as [brand|] eqn:Hb;
    [|left; rewrite (run_throw (Submit now fd) _ TypeError); [reflexivity|];
      cbn [handle]; unfold handleFormSubmit; now rewrite Hb].
  destruct (get_model fd) as [model|] eqn:Hm;
    [|left; rewrite (run_throw (Submit now fd) _ TypeError); [reflexivity|];
      cbn [handle]; unfold handleFormSubmit; now rewrite Hb, Hm].
  destruct (get_imei fd) as [raw|] eqn:Hi;
    [|left; rewrite (run_throw (Submit now fd) _ TypeError); [reflexivity|];
      cbn [handle]; unfold handleFormSubmit; now rewrite Hb, Hm, Hi].
  pose proof (handleFormSubmit_objs now fd recs editing eid ls brand model raw
                Hb Hm Hi) as H.
  cbv zeta in H.
  destruct (validateIMEI (trim raw)); cbn [negb] in H;
    [|left; now rewrite (run_ok (Submit now fd) _ _ _ H)].
  destruct editing; cbn [negb andb] in H.
  - destruct (submitted_image fd) as [img|e];
      [|left; now rewrite (run_ok (Submit now fd) _ _ _ H)].
    destruct (index_of (has_prop "id" (Some eid)) recs) as [i|] eqn:Ei;
      [|left; now rewrite (run_ok (Submit now fd) _ _ _ H)].
    destruct (nth_error recs i) as [old|] eqn:Eo;
      [|left; now rewrite (run_ok (Submit now fd) _ _ _ H)].
    right. right. split; [reflexivity|].
    exists i, old, (trim brand), (trim model), raw, img.
    repeat split; try assumption; try reflexivity.
    rewrite (run_ok (Submit now fd) _ _ _ H). cbn [resetEditMode inventory].
    apply settle_inventory.
  - destruct (existsb (has_prop "imei" (Some (VStr (trim raw)))) recs) eqn:Hd;
      [left; now rewrite (run_ok (Submit now fd) _ _ _ H)|].
    destruct (submitted_image fd) as [img|e];
      [|left; now rewrite (run_ok (Submit now fd) _ _ _ H)].
    right. left. split; [reflexivity|].
    exists (trim brand), (trim model), raw, img.
    repeat split; try assumption; try reflexivity.
    rewrite (run_ok (Submit now fd) _ _ _ H). cbn [resetEditMode inventory].
    apply settle_inventory.
Qed.

(** The loop of [generateTestData] on an inventory of records. *)
Lemma push_missing_objs (mobiles recs : list obj) (editing : bool)
    (eid : value) (ls : localStorage) :
  push_missing mobiles (manager_of recs editing eid ls)
  = Ok (manager_of (recs ++ missing mobiles recs) editing eid ls).
Proof.
  revert recs. induction mobiles as [|mobile rest IH]; intros recs.
  - cbn [push_missing missing]. now rewrite List.app_nil_r.
  - cbn [push_missing missing]. unfold isDuplicateIMEI.
    unfold manager_of at 1, inv_of at 1. cbn [inventory as_array bind].
    rewrite array_some_objs. cbn [bind].
    destruct (existsb _ recs); [apply IH|].
    unfold manager_of at 1, inv_of at 1. cbn [inventory as_array bind].
    replace (with_inventory (manager_of recs editing eid ls)
               (VArr (map VObj recs ++ [VObj mobile])))
      with (manager_of (recs ++ [mobile]) editing eid ls)
      by (unfold manager_of, with_inventory, inv_of; now rewrite map_app).
    rewrite IH. now rewrite <- List.app_assoc.
Qed.

Lemma generate_objs (confirmed : bool) (now : Z) (recs : list obj)
    (editing : bool) (eid : value) (ls : localStorage) :
  inventory (run (GenerateTestData confirmed now) (manager_of recs editing eid ls))
  = inv_of (if confirmed then recs ++ missing (testMobiles now) recs else recs)%list.
Proof.
  unfold run. cbn [handle]. unfold generateTestData.
  destruct confirmed; [|reflexivity].
  rewrite push_missing_objs. cbn [bind].
  destruct (saveInventory _) as [st' ns] eqn:Hs. cbn [state_after].
  change st' with (fst (st', ns)). rewrite <- Hs.
  now rewrite saveInventory_inventory.
Qed.

(** Samples are pushed only under an IMEI that is not there yet. *)
Lemma missing_unique (mobiles recs : list obj) :
  Forall (fun m => exists s, obj_get "imei" m = Some (VStr s)) mobiles ->
  unique_imei recs -> unique_imei (recs ++ missing mobiles recs).
Proof.
  intros Hm. revert recs. induction Hm as [|mobile rest [s Hs] _ IH];
    intros recs Hu; cbn [missing].
  - now rewrite List.app_nil_r.
  - rewrite Hs.
    destruct (existsb (has_prop "imei" (Some (VStr s))) recs) eqn:E.
    + now apply IH.
    + change (mobile :: missing rest (recs ++ [mobile]))%list
        with ([mobile] ++ missing rest (recs ++ [mobile]))%list.
      rewrite List.app_assoc. apply IH.
      apply NoDup_map_app_one; [exact Hu|].
      rewrite Hs. now apply fresh_not_in.
Qed.

Lemma delete_objs (confirmed : bool) (id : value) (recs : list obj)
    (editing : bool) (eid : value) (ls : localStorage) :
  inventory (run (Delete confirmed id) (manager_of recs editing eid ls))
  = inv_of (if confirmed
            then filter (fun o => negb (has_prop "id" (Some id) o)) recs
            else recs).
Proof.
  unfold run. cbn [handle]. rewrite deleteMobile_objs.
  destruct confirmed; [|reflexivity].
  cbn [state_after]. apply settle_inventory.
Qed.

Lemma markSold_objs (confirmed : bool) (id : value) (recs : list obj)
    (editing : bool) (eid : value) (ls : localStorage) :
  let st' := run (MarkSold confirmed id) (manager_of recs editing eid ls) in
  inventory st' = inv_of recs
  \/ exists i old,
       index_of (has_prop "id" (Some id)) recs = Some i
       /\ nth_error recs i = Some old
       /\ inventory st' = inv_of (array_set i (obj_set "sold" (VBool true) old) recs).
Proof.
  cbv zeta. unfold run. cbn [handle]. rewrite markAsSold_objs.
  destruct confirmed; [|now left].
  destruct (index_of (has_prop "id" (Some id)) recs) as [i|] eqn:Ei; [|now left].
  destruct (nth_error recs i) as [old|] eqn:Eo; [|now left].
  right. exists i, old. repeat split; try assumption.
  cbn [state_after]. apply settle_inventory.
Qed.

Lemma edit_objs (id : value) (recs : list obj)
    (editing : bool) (eid : value) (ls : localStorage) :
  inventory (run (Edit id) (manager_of recs editing eid ls)) = inv_of recs.
Proof.
  unfold run. cbn [handle]. unfold editMobile, no_notice.
  unfold manager_of at 1, inv_of at 1. cbn [inventory as_array bind].
  rewrite array_find_objs. cbn [bind].
  destruct (index_of (has_prop "id" (Some id)) recs) as [i|]; [|reflexivity].
  unfold obj in *. now destruct (nth_error recs i).
Qed.

(** *** C3: no two records share an IMEI *)

(** *** C9: marking as sold *)

Lemma stays_sold_refl (o : obj) : stays_sold o o.
Proof. now split. Qed.

Lemma Forall2_stays_sold_refl (recs : list obj) : Forall2 stays_sold recs recs.
Proof. induction recs; constructor; [apply stays_sold_refl | assumption]. Qed.

Lemma Forall2_array_set (i : nat) (old new : obj) (recs : list obj) :
  nth_error recs i = Some old -> stays_sold old new ->
  Forall2 stays_sold recs (array_set i new recs).
Proof.
  revert i. induction recs as [|o recs IH]; intros [|i]; simpl; intros H Hs;
    try discriminate.
  - inversion H; subst. constructor; [exact Hs | apply Forall2_stays_sold_refl].
  - constructor; [apply stays_sold_refl | now apply IH].
Qed.

Lemma in_place_same (recs : list obj) : in_place recs recs.
Proof.
  exists recs, []. split; [now rewrite List.app_nil_r | apply Forall2_stays_sold_refl].
Qed.

Lemma in_place_app (recs news : list obj) : in_place recs (recs ++ news).
Proof. exists recs, news. split; [reflexivity | apply Forall2_stays_sold_refl]. Qed.

Lemma in_place_array_set (i : nat) (old new : obj) (recs : list obj) :
  nth_error recs i = Some old -> stays_sold old new ->
  in_place recs (array_set i new recs).
Proof.
  intros H Hs. exists (array_set i new recs), [].
  split; [now rewrite List.app_nil_r | now apply Forall2_array_set with (old := old)].
Qed.

(** Marking as sold twice is marking as sold once: same manager, same
    storage, same notices. *)
Lemma markAsSold_twice (recs : list obj) (id : value) (editing : bool)
    (eid : value) (ls : localStorage) :
  exists st1 ns,
    markAsSold true id (manager_of recs editing eid ls) = Ok (st1, ns)
    /\ markAsSold true id st1 = Ok (st1, ns).
Proof.
  pose proof (markAsSold_objs recs true id editing eid ls) as H1.
  cbv zeta in H1. cbv iota in H1.
  destruct (index_of (has_prop "id" (Some id)) recs) as [i|] eqn:Ei;
    [|exists (manager_of recs editing eid ls), []; now split].
  destruct (index_of_Some _ _ _ Ei) as (old & Hold & Hid).
  rewrite Hold in H1.
  set (sold := obj_set "sold" (VBool true) old) in *.
  set (recs1 := array_set i sold recs) in *.
  set (st := manager_of recs editing eid ls) in *.
  destruct (settle_shape recs recs1 editing eid ls) as [ls1 Hls1].
  fold st in Hls1.
  eexists; eexists. split; [exact H1|].
  rewrite Hls1.
  pose proof (markAsSold_objs recs1 true id editing eid ls1) as H2.
  cbv zeta in H2. cbv iota in H2.
  assert (Hsold_id : has_prop "id" (Some id) sold = true).
  { unfold has_prop, sold. rewrite obj_get_set_other by discriminate. exact Hid. }
  assert (Hidx1 : index_of (has_prop "id" (Some id)) recs1 = Some i)
    by (apply index_of_array_set; assumption).
  assert (Hnth1 : nth_error recs1 i = Some sold)
    by (apply nth_error_array_set with (old := old); exact Hold).
  rewrite Hidx1, Hnth1 in H2.
  replace (array_set i (obj_set "sold" (VBool true) sold) recs1) with recs1 in H2
    by (unfold recs1, sold; now rewrite obj_set_twice, array_set_twice).
  replace (settle (manager_of recs1 editing eid ls1) recs1)
    with (settle st recs1) in H2.
  - rewrite Hls1 in H2. exact H2.
  - rewrite <- Hls1. unfold settle.
    replace (with_inventory (fst (saveInventory (with_inventory st (inv_of recs1))))
               (inv_of recs1))
      with (fst (saveInventory (with_inventory st (inv_of recs1)))).
    + now rewrite saveInventory_twice.
    + fold (settle st recs1). rewrite Hls1. reflexivity.
Qed.

(** C9: [markAsSold(id)] with the confirmation granted does the same when
    applied twice as when applied once; and every event of the page either
    leaves each record in its slot with its [id] and, when it was sold,
    still sold (appending records at most), or only takes records out. *)
Theorem sold_is_final :
  (forall recs id editing eid ls,
      exists st1 ns,
        markAsSold true id (manager_of recs editing eid ls) = Ok (st1, ns)
        /\ markAsSold true id st1 = Ok (st1, ns)
        /\ run (MarkSold true id) (run (MarkSold true id) (manager_of recs editing eid ls))
           = run (MarkSold true id) (manager_of recs editing eid ls))
  /\ (forall a recs editing eid ls,
         exists recs',
           inventory (run a (manager_of recs editing eid ls)) = inv_of recs'
           /\ (in_place recs recs' \/ removal recs recs')).
Proof.
  split.
  - intros recs id editing eid ls.
    destruct (markAsSold_twice recs id editing eid ls) as (st1 & ns & H1 & H2).
    exists st1, ns. split; [exact H1|]. split; [exact H2|].
    rewrite (run_ok (MarkSold true id) _ _ _ H1).
    apply (run_ok (MarkSold true id) _ _ _ H2).
  - intros a recs editing eid ls.
    destruct a as [now fd | confirmed id | confirmed id | id | | confirmed now].
    + destruct (submit_cases now fd recs editing eid ls)
        as [H | [(He & brand & model & raw & img & Hi & Hfresh & H)
               | (He & i & old & brand & model & raw & img & Hi & Hidx & Hold & H)]].
      * exists recs. split; [exact H | left; apply in_place_same].
      * eexists. split; [exact H | left; apply in_place_app].
      * eexists. split; [exact H|]. left.
        apply in_place_array_set with (old := old); [exact Hold|].
        destruct (merged_fields old eid brand model (trim raw)
                    (get_ram fd) (get_storage fd) img) as (Hid & _ & Hsold).
        destruct (index_of_Some _ _ _ Hidx) as (old' & Hold' & Hhas).
        rewrite Hold in Hold'. injection Hold' as <-.
        split.
        -- rewrite Hid. symmetry. now apply has_prop_get.
        -- unfold sold_flag. now rewrite Hsold.
    + eexists. split; [apply delete_objs|].
      destruct confirmed; [right; now eexists | left; apply in_place_same].
    + destruct (markSold_objs confirmed id recs editing eid ls)
        as [H | (i & old & Hidx & Hold & H)].
      * exists recs. split; [exact H | left; apply in_place_same].
      * eexists. split; [exact H|]. left.
        apply in_place_array_set with (old := old); [exact Hold|].
        destruct (sold_fields old) as (Hid & _ & Hsold). now split.
    + exists recs. split; [apply edit_objs | left; apply in_place_same].
    + exists recs. split; [reflexivity | left; apply in_place_same].
    + eexists. split; [apply generate_objs|].
      destruct confirmed; left; [apply in_place_app | apply in_place_same].
Qed.

(** [updateMobile] called with fields that do not name [sold] leaves the
    sale of the record as it was; the form, its only caller, passes
    [brand], [model], [imei], [ram], [storage] and [image]. *)
Lemma updateMobile_keeps_sold (old : obj) (id : value) (fields : obj) :
  ~ In "sold" (keys fields) ->
  obj_get "sold" (obj_set "id" id (obj_spread old fields)) = obj_get "sold" old.
Proof.
  intros H. rewrite obj_get_set_other by discriminate.
  now apply obj_get_spread_other.
Qed.

End InventoryFacts.

(* ================================================================== *)
(** ** The cache worker: properties *)
(* ================================================================== *)

Module WorkerFacts.
Import JS Worker.

Lemma filter_filter {A : Type} (p q : A -> bool) (l : list A) :
  filter p (filter q l) = filter (fun x => q x && p x) l.
Proof.
  induction l as [|x l IH]; simpl; [reflexivity|].
  destruct (q x); simpl; [destruct (p x); now rewrite IH | exact IH].
Qed.

(** Deleting the listed names other than [current] keeps exactly the
    generations named [current] or not listed. *)
Lemma delete_listed (current : string) (names : list string) (cs : cacheStorage) :
  fold_left
    (fun acc cacheName =>
       if negb (String.eqb cacheName current)
       then caches_delete cacheName acc
       else acc)
    names cs
  = filter (fun g => String.eqb (fst g) current
                     || negb (existsb (String.eqb (fst g)) names)) cs.
Proof.
  revert cs. induction names as [|n names IH]; intros cs; simpl.
  - induction cs as [|g cs IHc]; simpl; [reflexivity|].
    rewrite Bool.orb_true_r. now rewrite <- IHc.
  - rewrite IH. destruct (String.eqb n current) eqn:En; simpl.
    + apply String.eqb_eq in En. subst n. apply filter_ext. intros g.
      destruct (String.eqb (fst g) current); reflexivity.
    + unfold caches_delete. rewrite filter_filter. apply filter_ext. intros g.
      destruct (String.eqb (fst g) n) eqn:Eg; simpl.
      * apply String.eqb_eq in Eg. rewrite Eg, En. reflexivity.
      * reflexivity.
Qed.

Lemma on_activate_filter (current : string) (cs : cacheStorage) :
  on_activate current cs = filter (fun g => String.eqb (fst g) current) cs.
Proof.
  unfold on_activate. rewrite delete_listed.
  apply filter_ext_in. intros g Hg.
  assert (H : existsb (String.eqb (fst g)) (caches_keys cs) = true).
  { apply existsb_exists. exists (fst g). split; [|apply String.eqb_refl].
    now apply in_map. }
  rewrite H. apply Bool.orb_false_r.
Qed.

Lemma same_name_once (current : string) (cs : cacheStorage) :
  NoDup (caches_keys cs) ->
  List.length (filter (fun g => String.eqb (fst g) current) cs) <= 1.
Proof.
  induction cs as [|g cs IH]; simpl; intros Hn; [lia|].
  inversion Hn as [|? ? Hnot Hrest]; subst.
  destruct (String.eqb (fst g) current) eqn:Eg; [|now apply IH].
  apply String.eqb_eq in Eg. simpl.
  assert (Hnone : filter (fun g0 => String.eqb (fst g0) current) cs = []).
  { destruct (filter (fun g0 => String.eqb (fst g0) current) cs) as [|h t] eqn:Ef;
      [reflexivity|].
    assert (Hin : In h (filter (fun g0 => String.eqb (fst g0) current) cs))
      by (rewrite Ef; now left).
    apply filter_In in Hin. destruct Hin as [Hin Hh].
    apply String.eqb_eq in Hh. elim Hnot. rewrite Eg, <- Hh.
    now apply in_map. }
  rewrite Hnone. simpl. lia.
Qed.

(** C6: the [activate] handler keeps the generations named by the current
    version tag and deletes all the others, whatever they hold; of the
    names that existed, exactly the current one survives, so that at most
    one generation is left. *)
Theorem activate_keeps_current (current : string) (cs : cacheStorage) :
  on_activate current cs = filter (fun g => String.eqb (fst g) current) cs
  /\ (forall name,
        In name (caches_keys cs) ->
        (In name (caches_keys (on_activate current cs)) <-> name = current))
  /\ (forall name c,
        In (name, c) (on_activate current cs) <-> In (name, c) cs /\ name = current)
  /\ (NoDup (caches_keys cs) -> List.length (on_activate current cs) <= 1).
Proof.
  rewrite on_activate_filter. split; [reflexivity|].
  split; [|split].
  - intros name Hin. unfold caches_keys. split.
    + intros H. apply in_map_iff in H. destruct H as (g & Hg & H).
      apply filter_In in H. destruct H as [_ H].
      apply String.eqb_eq in H. now rewrite <- Hg.
    + intros ->. unfold caches_keys in Hin. apply in_map_iff in Hin.
      destruct Hin as (g & Hg & Hin). apply in_map_iff. exists g.
      split; [exact Hg|]. apply filter_In. split; [exact Hin|].
      rewrite Hg. apply String.eqb_refl.
  - intros name c. rewrite filter_In. simpl. now rewrite String.eqb_eq.
  - apply same_name_once.
Qed.

(** C6 on the scenario of the specification: after the install of "v1",
    activation deletes nothing; after the version is bumped to "v2" and
    installed, activation deletes "v1" and leaves "v2" alone. *)
Lemma activate_keeps_current_witness :
  let ok := fun _ : string => Ok {| status := 200; type := "basic"; body := "" |} in
  let cs1 := fst (on_install "v1" ok []) in
  let cs2 := fst (on_install "v2" ok cs1) in
  on_activate "v1" cs1 = cs1
  /\ caches_keys cs2 = ["v1"; "v2"]
  /\ (In "v1" (caches_keys (on_activate "v2" cs2)) <-> "v1" = "v2")
  /\ (In "v2" (caches_keys (on_activate "v2" cs2)) <-> "v2" = "v2")
  /\ List.length (on_activate "v2" cs2) <= 1.
Proof.
  intros ok cs1 cs2.
  destruct (activate_keeps_current "v2" cs2) as (_ & Hiff & _ & Hone).
  split; [reflexivity|]. split; [reflexivity|].
  split; [apply Hiff; simpl; now left|].
  split; [apply Hiff; simpl; right; now left|].
  apply Hone. simpl. repeat constructor; simpl; intuition discriminate.
Defined.

(** C5, as the code has it, for a request that the caches do not hold.
    When the network call throws, a document request is answered with what
    the caches hold for "/index.html" and any other request gets no
    response.  When the network answers with a response that is not to be
    cached (not status 200, or not of type basic), that response is handed
    on as it is, for a document request as for any other, and the caches
    are not touched. *)
Theorem fetch_miss_outcomes (current : string) (req : request)
    (network : result (option response)) (cs : cacheStorage) :
  caches_match (url req) cs = None ->
  (forall e, network = Throw e ->
     (destination req = "document" ->
      on_fetch current req network cs = (caches_match "/index.html" cs, cs))
     /\ (destination req <> "document" ->
         on_fetch current req network cs = (None, cs)))
  /\ (forall answer, network = Ok answer -> not_cacheable answer = true ->
        on_fetch current req network cs = (answer, cs)).
Proof.
  intros Hmiss. unfold on_fetch. rewrite Hmiss. split.
  - intros e ->. split.
    + intros ->. reflexivity.
    + intros Hne. apply String.eqb_neq in Hne. now rewrite Hne.
  - intros answer -> Hbad. now rewrite Hbad.
Qed.

(** C5 on a worker whose generation holds the shell: the three outcomes
    for requests that are not cached. *)
Lemma fetch_miss_outcomes_witness :
  let shell := {| status := 200; type := "basic"; body := "<html>" |} in
  let missing := {| status := 404; type := "basic"; body := "not found" |} in
  let cs := [(CACHE_NAME, [("/index.html", shell)])] in
  on_fetch CACHE_NAME {| url := "/about"; destination := "document" |}
    (Throw TypeError) cs = (Some shell, cs)
  /\ on_fetch CACHE_NAME {| url := "/logo.png"; destination := "image" |}
       (Throw TypeError) cs = (None, cs)
  /\ on_fetch CACHE_NAME {| url := "/logo.png"; destination := "image" |}
       (Ok (Some missing)) cs = (Some missing, cs).
Proof.
  intros shell missing cs. split; [|split].
  - destruct (fetch_miss_outcomes CACHE_NAME
                {| url := "/about"; destination := "document" |}
                (Throw TypeError) cs eq_refl) as [H _].
    destruct (H TypeError eq_refl) as [Hdoc _]. apply Hdoc. reflexivity.
  - destruct (fetch_miss_outcomes CACHE_NAME
                {| url := "/logo.png"; destination := "image" |}
                (Throw TypeError) cs eq_refl) as [H _].
    destruct (H TypeError eq_refl) as [_ Hother]. apply Hother. discriminate.
  - destruct (fetch_miss_outcomes CACHE_NAME
                {| url := "/logo.png"; destination := "image" |}
                (Ok (Some missing)) cs eq_refl) as [_ H].
    apply H; reflexivity.
Defined.

(** C5 as stated fails: a document request that is not cached and that the
    network answers with a 404 gets that 404, not the cached shell. *)
Lemma fetch_invalid_counterexample :
  let shell := {| status := 200; type := "basic"; body := "<html>" |} in
  let missing := {| status := 404; type := "basic"; body := "not found" |} in
  let cs := [(CACHE_NAME, [("/index.html", shell)])] in
  let req := {| url := "/about"; destination := "document" |} in
  caches_match (url req) cs = None
  /\ not_cacheable (Some missing) = true
  /\ caches_match "/index.html" cs = Some shell
  /\ on_fetch CACHE_NAME req (Ok (Some missing)) cs = (Some missing, cs)
  /\ fst (on_fetch CACHE_NAME req (Ok (Some missing)) cs) <> Some shell.
Proof.
  cbv zeta. repeat split. cbn. discriminate.
Qed.

End WorkerFacts.

(* ================================================================== *)
(** ** The page around the inventory: input filter, search, life cycle *)
(* ================================================================== *)

Module PageFacts.
Import JS Inventory JSFacts InventoryFacts.

(** *** The IMEI field *)

Lemma validateIMEIInput_digits (typed : string) :
  Forall (fun c => is_digit c = true)
    (list_ascii_of_string (validateIMEIInput typed)).
Proof.
  induction typed as [|c rest IH]; simpl; [constructor|].
  destruct (is_digit c) eqn:E; simpl; [now constructor | exact IH].
Qed.

Lemma validateIMEIInput_length (typed : string) :
  String.length (validateIMEIInput typed) = digit_count typed.
Proof.
  induction typed as [|c rest IH]; simpl; [reflexivity|].
  destruct (is_digit c); simpl; now rewrite IH.
Qed.

Lemma validateIMEIInput_keeps_digits (s : string) :
  Forall (fun c => is_digit c = true) (list_ascii_of_string s) ->
  validateIMEIInput s = s.
Proof.
  induction s as [|c rest IH]; simpl; intros H; [reflexivity|].
  inversion H as [|? ? Hc Hrest]; subst. now rewrite Hc, (IH Hrest).
Qed.

Lemma digit_not_space (c : ascii) : is_digit c = true -> is_space c = false.
Proof.
  destruct c as [[] [] [] [] [] [] [] []]; intros H; try discriminate H;
    reflexivity.
Qed.

Lemma trim_end_digits (s : string) :
  Forall (fun c => is_digit c = true) (list_ascii_of_string s) ->
  trim_end s = s.
Proof.
  induction s as [|c rest IH]; simpl; intros H; [reflexivity|].
  inversion H as [|? ? Hc Hrest]; subst. rewrite (IH Hrest).
  destruct rest; [now rewrite (digit_not_space c Hc) | reflexivity].
Qed.

Lemma trim_digits (s : string) :
  Forall (fun c => is_digit c = true) (list_ascii_of_string s) ->
  trim s = s.
Proof.
  intros H. unfold trim.
  assert (Hstart : trim_start s = s).
  { destruct s as [|c rest]; [reflexivity|]. simpl.
    inversion H; subst. now rewrite digit_not_space. }
  rewrite Hstart. now apply trim_end_digits.
Qed.

(** The input handler of the IMEI field and the validation of the
    submission: whatever is typed, the field is left with digits only, a
    second pass and the trimming of the submission change nothing, and the
    field validates exactly when fifteen digits were typed, whatever was
    typed between them. *)
Theorem input_filter_validates (typed : string) :
  let kept := validateIMEIInput typed in
  Forall (fun c => is_digit c = true) (list_ascii_of_string kept)
  /\ validateIMEIInput kept = kept
  /\ trim kept = kept
  /\ (validateIMEI kept = true <-> digit_count typed = 15).
Proof.
  cbv zeta. pose proof (validateIMEIInput_digits typed) as Hd.
  split; [exact Hd|].
  split; [now apply validateIMEIInput_keeps_digits|].
  split; [now apply trim_digits|].
  rewrite validateIMEI_spec. unfold fifteen_digits.
  rewrite validateIMEIInput_length. tauto.
Qed.

(** *** The search of [displayInventory] *)

Lemma prefix_append (t rest : string) : String.prefix t (t ++ rest) = true.
Proof.
  induction t as [|c t IH]; simpl; [now destruct rest|].
  destruct (ascii_dec c c) as [_|Hne]; [exact IH | now elim Hne].
Qed.

Lemma includes_part (pre part post : string) :
  includes (pre ++ part ++ post) part = true.
Proof.
  induction pre as [|c pre IH].
  - cbn [append]. destruct (part ++ post)%string eqn:E; cbn [includes];
      rewrite <- E, prefix_append; reflexivity.
  - cbn [append includes]. rewrite IH. apply Bool.orb_true_r.
Qed.

Lemma toLowerCase_append (a b : string) :
  toLowerCase (a ++ b) = (toLowerCase a ++ toLowerCase b)%string.
Proof. induction a as [|c a IH]; simpl; [reflexivity | now rewrite IH]. Qed.

Lemma toLowerCase_empty (s : string) :
  s <> "" -> String.eqb (toLowerCase s) "" = false.
Proof. destruct s; [congruence | reflexivity]. Qed.

Lemma matches_record (searchTerm : string) (o : obj) :
  search_texts o <> None ->
  matches searchTerm (VObj o) = Ok (shows searchTerm o).
Proof.
  unfold matches, shows, search_texts, lower_prop, imei_includes.
  cbn [get_prop bind].
  destruct (obj_get "brand" o) as [[| | |b| |]|]; try congruence.
  destruct (obj_get "model" o) as [[| | |m| |]|]; try congruence.
  destruct (obj_get "imei" o) as [[| | |i| |]|]; try congruence.
  intros _. cbn [bind].
  destruct (includes (toLowerCase b) searchTerm); [reflexivity|].
  cbn [bind orb].
  destruct (includes (toLowerCase m) searchTerm); reflexivity.
Qed.

Lemma filter_records (searchTerm : string) (recs : list obj) :
  Forall (fun r => search_texts r <> None) recs ->
  array_filter (matches searchTerm) (map VObj recs)
  = Ok (map VObj (filter (shows searchTerm) recs)).
Proof.
  induction 1 as [|o recs Ho _ IH]; [reflexivity|].
  cbn [map array_filter filter]. rewrite (matches_record _ _ Ho), IH.
  cbn [bind]. now destruct (shows searchTerm o).
Qed.

(** The search on records whose brand, model and IMEI are strings: what is
    drawn is the inventory filtered, in its order; and a record stays in
    the list when the text typed is, letter case apart, any part of its
    brand or of its model, or is in lower case any part of its IMEI as it
    is stored. *)
Theorem search_finds_part (recs : list obj) (o : obj)
    (k input pre part post : string)
    (editing : bool) (eid : value) (ls : localStorage) :
  Forall (fun r => search_texts r <> None) recs ->
  In o recs ->
  In k ["brand"; "model"; "imei"] ->
  obj_get k o = Some (VStr (pre ++ part ++ post)) ->
  input <> "" ->
  toLowerCase input = (if String.eqb k "imei" then part else toLowerCase part) ->
  filteredInventory input (manager_of recs editing eid ls)
  = Ok (inv_of (filter (shows (toLowerCase input)) recs))
  /\ In o (filter (shows (toLowerCase input)) recs).
Proof.
  intros Htyped Hin Hk Hget Hinput Hterm. split.
  - unfold filteredInventory. rewrite (toLowerCase_empty _ Hinput).
    unfold manager_of, inv_of. cbn [inventory as_array bind].
    now rewrite (filter_records _ _ Htyped).
  - apply filter_In. split; [exact Hin|].
    rewrite Forall_forall in Htyped. specialize (Htyped o Hin).
    unfold shows. unfold search_texts in *.
    destruct (obj_get "brand" o) as [[| | |b| |]|] eqn:Eb; try congruence.
    destruct (obj_get "model" o) as [[| | |m| |]|] eqn:Em; try congruence.
    destruct (obj_get "imei" o) as [[| | |i| |]|] eqn:Ei; try congruence.
    destruct Hk as [<-|[<-|[<-|[]]]]; cbn [String.eqb Ascii.eqb Bool.eqb] in Hterm;
      rewrite Hterm.
    + rewrite Eb in Hget. injection Hget as ->.
      now rewrite !toLowerCase_append, includes_part.
    + rewrite Em in Hget. injection Hget as ->.
      rewrite !toLowerCase_append, includes_part.
      now rewrite Bool.orb_true_r.
    + rewrite Ei in Hget. injection Hget as ->.
      rewrite includes_part. apply Bool.orb_true_r.
Qed.

(** Searching a part of the brand in capitals, and a part of the IMEI. *)
Lemma search_finds_part_witness :
  let a := sample 1 "Samsung" "Galaxy A54" "123456789012345" "8GB" "128GB" false in
  let b := sample 2 "Apple" "iPhone 13" "234567890123456" "4GB" "128GB" true in
  (filteredInventory "SUNG" (manager_of [a; b] false VNull (empty_storage 4096))
   = Ok (inv_of [a])
   /\ In a [a])
  /\ (filteredInventory "0123456" (manager_of [a; b] false VNull (empty_storage 4096))
      = Ok (inv_of [b])
      /\ In b [b]).
Proof.
  intros a b. split.
  - apply (search_finds_part [a; b] a "brand" "SUNG" "Sam" "sung" ""
             false VNull (empty_storage 4096)).
    + repeat constructor; discriminate.
    + now left.
    + now left.
    + reflexivity.
    + discriminate.
    + reflexivity.
  - apply (search_finds_part [a; b] b "imei" "0123456" "23456789" "0123456" ""
             false VNull (empty_storage 4096)).
    + repeat constructor; discriminate.
    + right. now left.
    + right. right. now left.
    + reflexivity.
    + discriminate.
    + reflexivity.
Defined.

Lemma get_prop_throws (m : value) (k : string) (e : exn) :
  get_prop m k = Throw e -> e = TypeError.
Proof. destruct m; simpl; intros H; now inversion H. Qed.

Lemma matches_throws (searchTerm : string) (m : value) (e : exn) :
  matches searchTerm m = Throw e -> e = TypeError.
Proof.
  unfold matches, lower_prop, imei_includes.
  destruct (get_prop m "brand") as [[[| | |b| |]|]|e1] eqn:Eb; cbn [bind];
    try (intros H; now inversion H).
  - destruct (includes (toLowerCase b) searchTerm); [discriminate|].
    destruct (get_prop m "model") as [[[| | |mo| |]|]|e2] eqn:Em; cbn [bind];
      try (intros H; now inversion H).
    + destruct (includes (toLowerCase mo) searchTerm); [discriminate|].
      destruct (get_prop m "imei") as [[[| | |i|l|]|]|e3] eqn:Ei; cbn [bind];
        try (intros H; now inversion H).
      intros H. inversion H; subst. exact (get_prop_throws _ _ _ Ei).
    + intros H. inversion H; subst. exact (get_prop_throws _ _ _ Em).
  - intros H. inversion H; subst. exact (get_prop_throws _ _ _ Eb).
Qed.

Lemma array_filter_throws (f : value -> result bool) (l : list value)
    (m : value) (e : exn) :
  (forall x e', f x = Throw e' -> e' = TypeError) ->
  In m l -> f m = Throw e ->
  array_filter f l = Throw TypeError.
Proof.
  intros Hf. induction l as [|x l IH]; intros Hin Hm; [contradiction|].
  cbn [array_filter]. destruct (f x) as [b|e'] eqn:Ex.
  - cbn [bind]. destruct Hin as [->|Hin]; [congruence|].
    now rewrite (IH Hin Hm).
  - cbn [bind]. now rewrite (Hf _ _ Ex).
Qed.

(** A record whose brand is not a string, as a stored text may hold one,
    makes every search with a text in the field throw a [TypeError]. *)
Theorem search_throws_without_brand (st : manager) (l : list value) (o : obj)
    (input : string) :
  inventory st = VArr l ->
  In (VObj o) l ->
  (forall b, obj_get "brand" o <> Some (VStr b)) ->
  input <> "" ->
  filteredInventory input st = Throw TypeError.
Proof.
  intros Hl Hin Hb Hinput. unfold filteredInventory.
  rewrite (toLowerCase_empty _ Hinput), Hl. cbn [as_array bind].
  assert (Hthrow : matches (toLowerCase input) (VObj o) = Throw TypeError).
  { unfold matches, lower_prop. cbn [get_prop bind].
    destruct (obj_get "brand" o) as [[| | |b| |]|] eqn:E; try reflexivity.
    now elim (Hb b). }
  rewrite (array_filter_throws _ l (VObj o) TypeError
             (matches_throws (toLowerCase input)) Hin Hthrow).
  reflexivity.
Qed.

(** A stored inventory with a record that has no brand. *)
Lemma search_throws_without_brand_witness :
  filteredInventory "a"
    (new_manager {| items := [(storageKey, "[{ }]")]; capacity := 4096 |})
  = Throw TypeError.
Proof.
  apply (search_throws_without_brand _ [VObj []] [] "a").
  - reflexivity.
  - now left.
  - intros b. discriminate.
  - discriminate.
Defined.

(** *** Memory and storage over the life of the page *)

Lemma push_missing_store (mobiles : list obj) (st st' : manager) :
  push_missing mobiles st = Ok st' ->
  store st' = store st /\ isEditing st' = isEditing st
  /\ editingId st' = editingId st.
Proof.
  revert st. induction mobiles as [|m rest IH]; cbn [push_missing]; intros st H.
  - now inversion H; subst.
  - destruct (isDuplicateIMEI (obj_get "imei" m) st) as [[|]|]; cbn [bind] in H;
      try discriminate.
    + now apply IH.
    + destruct (as_array (inventory st)) as [l|]; cbn [bind] in H; [|discriminate].
      now apply IH in H.
Qed.

(** A handler that completes either leaves inventory and storage alone, or
    ends with a save: [saved] is the manager handed to [saveInventory]. *)
Lemma handle_saves (a : action) (st st' : manager) (ns : list notice) :
  handle a st = Ok (st', ns) ->
  (inventory st' = inventory st /\ store st' = store st)
  \/ exists saved,
       store saved = store st
       /\ inventory st' = inventory saved
       /\ store st' = store (fst (saveInventory saved))
       /\ incl (snd (saveInventory saved)) ns.
Proof.
  assert (Hsave : forall X st1 ns1 extra,
             saveInventory X = (st1, ns1) -> store X = store st ->
             exists saved,
               store saved = store st
               /\ inventory st1 = inventory saved
               /\ store st1 = store (fst (saveInventory saved))
               /\ incl (snd (saveInventory saved)) (ns1 ++ extra)).
  { intros X st1 ns1 extra Hs HX. exists X. rewrite Hs. cbn [fst snd].
    repeat split; try assumption.
    - change st1 with (fst (st1, ns1)). rewrite <- Hs.
      apply saveInventory_inventory.
    - now apply incl_appl, incl_refl. }
  destruct a as [now fd | confirmed id | confirmed id | id | | confirmed now];
    cbn [handle]; intros H.
  - unfold handleFormSubmit in H.
    destruct (get_brand fd) as [brand|]; cbn [trimmed bind] in H; [|discriminate].
    destruct (get_model fd) as [model|]; cbn [trimmed bind] in H; [|discriminate].
    destruct (get_imei fd) as [raw|]; cbn [trimmed bind] in H; [|discriminate].
    destruct (validateIMEI (trim raw)); cbn [negb] in H;
      [|inversion H; subst; now left].
    destruct (if isEditing st then Ok false
              else isDuplicateIMEI (Some (VStr (trim raw))) st) as [[|]|];
      cbn [bind] in H; try discriminate; [inversion H; subst; now left|].
    destruct (submitted_image fd) as [img|]; [|inversion H; subst; now left].
    destruct (isEditing st).
    + destruct (updateMobile _ _ st) as [[st1 ns1]|] eqn:Eu; cbn [bind] in H;
        [|discriminate].
      inversion H; subst. cbn [resetEditMode inventory store].
      unfold updateMobile in Eu.
      destruct (as_array (inventory st)) as [l|]; cbn [bind] in Eu; [|discriminate].
      destruct (array_findIndex _ l) as [[i|]|]; cbn [bind] in Eu; try discriminate;
        inversion Eu as [Hs].
      * right. now apply (Hsave _ _ _ _ Hs).
      * subst. now left.
    + destruct (addMobile now _ st) as [[st1 ns1]|] eqn:Ea; cbn [bind] in H;
        [|discriminate].
      inversion H; subst. cbn [resetEditMode inventory store].
      unfold addMobile in Ea.
      destruct (as_array (inventory st)) as [l|]; cbn [bind] in Ea; [|discriminate].
      inversion Ea as [Hs]. right. now apply (Hsave _ _ _ _ Hs).
  - unfold deleteMobile in H. destruct confirmed; [|inversion H; subst; now left].
    destruct (as_array (inventory st)) as [l|]; cbn [bind] in H; [|discriminate].
    destruct (array_filter _ l) as [kept|]; cbn [bind] in H; [|discriminate].
    destruct (saveInventory _) as [st1 ns1] eqn:Es. inversion H; subst.
    right. now apply (Hsave _ _ _ _ Es).
  - unfold markAsSold in H. destruct confirmed; [|inversion H; subst; now left].
    destruct (as_array (inventory st)) as [l|]; cbn [bind] in H; [|discriminate].
    destruct (array_find _ l) as [[[i m]|]|]; cbn [bind] in H; try discriminate;
      [|inversion H; subst; now left].
    destruct (saveInventory _) as [st1 ns1] eqn:Es. inversion H; subst.
    right. now apply (Hsave _ _ _ _ Es).
  - unfold no_notice, editMobile in H.
    destruct (as_array (inventory st)) as [l|]; cbn [bind] in H; [|discriminate].
    destruct (array_find _ l) as [[found|]|]; cbn [bind] in H; try discriminate;
      inversion H; subst; now left.
  - inversion H; subst. now left.
  - unfold generateTestData in H. destruct confirmed; [|inversion H; subst; now left].
    destruct (push_missing _ st) as [st1|] eqn:Ep; cbn [bind] in H; [|discriminate].
    destruct (saveInventory st1) as [st2 ns2] eqn:Es. inversion H; subst.
    right. apply (Hsave _ _ _ _ Es). now apply push_missing_store in Ep.
Qed.

Lemma slot_get_set_other (k k' v : string) (its : list (string * string)) :
  k' <> k -> slot_get k' (slot_set k v its) = slot_get k' its.
Proof.
  intros Hne. induction its as [|[k0 v0] its IH]; simpl.
  - apply String.eqb_neq in Hne. now rewrite String.eqb_sym, Hne.
  - destruct (String.eqb k0 k) eqn:E; simpl.
    + apply String.eqb_eq in E. subst k0.
      assert (Hk : String.eqb k k' = false)
        by (apply String.eqb_neq; congruence).
      now rewrite Hk.
    + now rewrite IH.
Qed.

Lemma saveInventory_other_slots (st : manager) (k : string) :
  k <> storageKey ->
  getItem k (store (fst (saveInventory st))) = getItem k (store st)
  /\ capacity (store (fst (saveInventory st))) = capacity (store st).
Proof.
  intros Hk. unfold saveInventory, setItem, getItem.
  destruct (usage _ <=? capacity (store st))%nat; cbn; [|now split].
  split; [now apply slot_get_set_other | reflexivity].
Qed.

(** The manager writes no slot of the storage but its own: whatever the
    event, every other key of the origin reads as before, and the room the
    storage has is the same. *)
Theorem only_own_slot (a : action) (st : manager) (k : string) :
  k <> storageKey ->
  getItem k (store (run a st)) = getItem k (store st)
  /\ capacity (store (run a st)) = capacity (store st).
Proof.
  intros Hk. unfold run.
  destruct (handle a st) as [[st' ns]|e] eqn:E; cbn [state_after]; [|now split].
  destruct (handle_saves _ _ _ _ E)
    as [[_ Hs] | (saved & Hstore & _ & Hs & _)]; rewrite Hs.
  - now split.
  - rewrite <- Hstore. now apply saveInventory_other_slots.
Qed.

(** A record is added while another key of the origin holds a text. *)
Lemma only_own_slot_witness :
  let ls := {| items := [("theme", "dark")]; capacity := 4096 |} in
  let a := Submit 1700000000000
             (form_of "Samsung" "Galaxy A54" "123456789012345" "8GB" "128GB") in
  getItem "theme" (store (run a (new_manager ls))) = Some "dark"
  /\ capacity (store (run a (new_manager ls))) = 4096.
Proof.
  intros ls a.
  apply (only_own_slot a (new_manager ls) "theme"). discriminate.
Defined.

(** *** An inventory that is not an array *)

Lemma as_array_throws (v : value) :
  (forall l, v <> VArr l) -> as_array v = Throw TypeError.
Proof. destruct v as [| | | |l|]; intros H; try reflexivity. now elim (H l). Qed.

Lemma push_missing_throws (mobiles : list obj) (st : manager) :
  mobiles <> [] ->
  as_array (inventory st) = Throw TypeError ->
  push_missing mobiles st = Throw TypeError.
Proof.
  destruct mobiles as [|mobile rest]; intros Hne Ha; [congruence|].
  cbn [push_missing]. unfold isDuplicateIMEI. now rewrite Ha.
Qed.

(** When what was loaded is not an array, no event can repair it: adding,
    updating, deleting, marking as sold, editing and generating the samples
    all throw a [TypeError], and whatever the event, the inventory in
    memory and the storage stay as they are. *)
Theorem not_an_array_is_stuck (st : manager) :
  (forall l, inventory st <> VArr l) ->
  (forall now mobileData, addMobile now mobileData st = Throw TypeError)
  /\ (forall id fields, updateMobile id fields st = Throw TypeError)
  /\ (forall id, deleteMobile true id st = Throw TypeError)
  /\ (forall id, markAsSold true id st = Throw TypeError)
  /\ (forall id, editMobile id st = Throw TypeError)
  /\ (forall now, generateTestData true now st = Throw TypeError)
  /\ (forall a, inventory (run a st) = inventory st
                /\ store (run a st) = store st).
Proof.
  intros Hna. pose proof (as_array_throws _ Hna) as Ha.
  assert (Hadd : forall now mobileData, addMobile now mobileData st = Throw TypeError)
    by (intros; unfold addMobile; now rewrite Ha).
  assert (Hupd : forall id fields, updateMobile id fields st = Throw TypeError)
    by (intros; unfold updateMobile; now rewrite Ha).
  assert (Hdel : forall id, deleteMobile true id st = Throw TypeError)
    by (intros; unfold deleteMobile; now rewrite Ha).
  assert (Hsold : forall id, markAsSold true id st = Throw TypeError)
    by (intros; unfold markAsSold; now rewrite Ha).
  assert (Hedit : forall id, editMobile id st = Throw TypeError)
    by (intros; unfold editMobile; now rewrite Ha).
  assert (Hgen : forall now, generateTestData true now st = Throw TypeError).
  { intros now. unfold generateTestData.
    rewrite push_missing_throws; [reflexivity | | exact Ha].
    unfold testMobiles. discriminate. }
  repeat (split; [assumption|]).
  intros a. unfold run.
  destruct a as [now fd | [|] id | [|] id | id | | [|] now]; cbn [handle];
    rewrite ?Hdel, ?Hsold, ?Hedit, ?Hgen; try (now split).
  unfold handleFormSubmit.
  destruct (get_brand fd) as [brand|]; cbn [trimmed bind]; [|now split].
  destruct (get_model fd) as [model|]; cbn [trimmed bind]; [|now split].
  destruct (get_imei fd) as [raw|]; cbn [trimmed bind]; [|now split].
  destruct (validateIMEI (trim raw)); cbn [negb]; [|now split].
  unfold isDuplicateIMEI. rewrite Ha.
  destruct (isEditing st); cbn [bind]; [|now split].
  destruct (submitted_image fd) as [img|]; [|now split].
  rewrite Hupd. now split.
Qed.

(** A stored text that parses to a number. *)
Lemma not_an_array_is_stuck_witness :
  let st := new_manager {| items := [(storageKey, "42")]; capacity := 4096 |} in
  deleteMobile true (VNum 1) st = Throw TypeError
  /\ inventory
       (run (Submit 1700000000000
               (form_of "Samsung" "Galaxy A54" "123456789012345" "8GB" "128GB")) st)
     = VNum 42.
Proof.
  intros st.
  assert (Hna : forall l, inventory st <> VArr l) by (intros l; discriminate).
  destruct (not_an_array_is_stuck st Hna) as (_ & _ & Hdel & _ & _ & _ & Hrun).
  split; [apply Hdel|].
  exact (proj1 (Hrun (Submit 1700000000000
                        (form_of "Samsung" "Galaxy A54" "123456789012345"
                           "8GB" "128GB")))).
Defined.

(** *** Edit mode *)

(** Outside edit mode the manager holds no editing id. *)
Lemma handle_editing (a : action) (st st' : manager) (ns : list notice) :
  handle a st = Ok (st', ns) ->
  (isEditing st' = isEditing st /\ editingId st' = editingId st)
  \/ (isEditing st' = false /\ editingId st' = VNull)
  \/ isEditing st' = true.
Proof.
  assert (Hsave : forall X st1 ns1,
             saveInventory X = (st1, ns1) ->
             isEditing st1 = isEditing X /\ editingId st1 = editingId X).
  { intros X st1 ns1. unfold saveInventory.
    destruct (setItem _ _ _); intros H; inversion H; subst; now split. }
  destruct a as [now fd | confirmed id | confirmed id | id | | confirmed now];
    cbn [handle]; intros H.
  - unfold handleFormSubmit in H.
    destruct (get_brand fd) as [brand|]; cbn [trimmed bind] in H; [|discriminate].
    destruct (get_model fd) as [model|]; cbn [trimmed bind] in H; [|discriminate].
    destruct (get_imei fd) as [raw|]; cbn [trimmed bind] in H; [|discriminate].
    destruct (validateIMEI (trim raw)); cbn [negb] in H;
      [|inversion H; subst; now left].
    destruct (if isEditing st then Ok false
              else isDuplicateIMEI (Some (VStr (trim raw))) st) as [[|]|];
      cbn [bind] in H; try discriminate; [inversion H; subst; now left|].
    destruct (submitted_image fd) as [img|]; [|inversion H; subst; now left].
    destruct (isEditing st).
    + destruct (updateMobile _ _ st) as [[st1 ns1]|]; cbn [bind] in H;
        [|discriminate].
      inversion H; subst. right. left. now split.
    + destruct (addMobile now _ st) as [[st1 ns1]|]; cbn [bind] in H;
        [|discriminate].
      inversion H; subst. right. left. now split.
  - unfold deleteMobile in H. destruct confirmed; [|inversion H; subst; now left].
    destruct (as_array (inventory st)) as [l|]; cbn [bind] in H; [|discriminate].
    destruct (array_filter _ l) as [kept|]; cbn [bind] in H; [|discriminate].
    destruct (saveInventory _) as [st1 ns1] eqn:Es. inversion H; subst.
    left. exact (Hsave _ _ _ Es).
  - unfold markAsSold in H. destruct confirmed; [|inversion H; subst; now left].
    destruct (as_array (inventory st)) as [l|]; cbn [bind] in H; [|discriminate].
    destruct (array_find _ l) as [[[i m]|]|]; cbn [bind] in H; try discriminate;
      [|inversion H; subst; now left].
    destruct (saveInventory _) as [st1 ns1] eqn:Es. inversion H; subst.
    left. exact (Hsave _ _ _ Es).
  - unfold no_notice, editMobile in H.
    destruct (as_array (inventory st)) as [l|]; cbn [bind] in H; [|discriminate].
    destruct (array_find _ l) as [[found|]|]; cbn [bind] in H; try discriminate;
      inversion H; subst; [now right; right | now left].
  - inversion H; subst. right. left. now split.
  - unfold generateTestData in H. destruct confirmed; [|inversion H; subst; now left].
    destruct (push_missing _ st) as [st1|] eqn:Ep; cbn [bind] in H; [|discriminate].
    destruct (saveInventory st1) as [st2 ns2] eqn:Es. inversion H; subst.
    left. destruct (Hsave _ _ _ Es) as [H1 H2].
    destruct (push_missing_store _ _ _ Ep) as (_ & H3 & H4).
    split; congruence.
Qed.

Lemma reachable_editing_id (st : manager) :
  reachable st -> isEditing st = false -> editingId st = VNull.
Proof.
  induction 1 as [ls | a st Hst IH]; [reflexivity|].
  unfold run. destruct (handle a st) as [[st' ns]|e] eqn:E; cbn [state_after];
    [|exact IH].
  destruct (handle_editing _ _ _ _ E) as [[H1 H2] | [[H1 H2] | H1]]; intros Hf.
  - rewrite H2. apply IH. congruence.
  - exact H2.
  - congruence.
Qed.

(** Cancelling undoes entering edit mode: from a manager outside edit mode,
    [editMobile(id)] followed by [cancelEdit()] gives the same manager back,
    whether a record carries [id] or not. *)
Theorem cancel_undoes_edit (st : manager) (id : value) :
  reachable st -> isEditing st = false ->
  run CancelEdit (run (Edit id) st) = st.
Proof.
  intros Hr Hf. pose proof (reachable_editing_id st Hr Hf) as Hid.
  assert (Hst : cancelEdit st = st).
  { destruct st as [inv ed eid ls]. cbn in *. now subst. }
  unfold run at 2. cbn [handle]. unfold no_notice, editMobile.
  destruct (as_array (inventory st)) as [l|]; cbn [bind state_after];
    [|exact Hst].
  destruct (array_find _ l) as [[found|]|]; cbn [bind state_after];
    [|exact Hst|exact Hst].
  unfold run. cbn [handle state_after]. etransitivity; [|exact Hst]. reflexivity.
Qed.

(** Editing the record that was just added, then cancelling. *)
Lemma cancel_undoes_edit_witness :
  let st :=
    run (Submit 1700000000000
           (form_of "Samsung" "Galaxy A54" "123456789012345" "8GB" "128GB"))
      (new_manager (empty_storage 4096)) in
  isEditing (run (Edit (VNum 1700000000000)) st) = true
  /\ run CancelEdit (run (Edit (VNum 1700000000000)) st) = st.
Proof.
  intros st. split; [reflexivity|].
  apply (cancel_undoes_edit st (VNum 1700000000000)).
  - unfold st. apply reach_step, reach_start.
  - reflexivity.
Defined.

(** *** What an update and a sale write *)

Lemma obj_get_absent (k : string) (o : obj) :
  existsb (String.eqb k) (keys o) = false -> obj_get k o = None.
Proof.
  unfold keys. induction o as [|[k' v'] o IH]; simpl; [reflexivity|].
  intros H. apply Bool.orb_false_iff in H. destruct H as [Hk Ho].
  rewrite String.eqb_sym, Hk. now apply IH.
Qed.

(** A spread gives every key the value the source has for it, and leaves
    the target's value where the source has none. *)
Lemma obj_get_spread (k : string) (source target : obj) :
  distinct (keys source) = true ->
  obj_get k (obj_spread target source)
  = match obj_get k source with
    | Some v => Some v
    | None => obj_get k target
    end.
Proof.
  revert target. unfold obj_spread, keys.
  induction source as [|[k0 v0] source IH]; intros target Hd; [reflexivity|].
  cbn [map fst distinct] in Hd. apply Bool.andb_true_iff in Hd.
  destruct Hd as [Hfresh Hd]. apply Bool.negb_true_iff in Hfresh.
  cbn [fold_left fst snd obj_get]. rewrite (IH _ Hd).
  destruct (String.eqb k0 k) eqn:E.
  - apply String.eqb_eq in E. subst k0.
    rewrite (obj_get_absent k source Hfresh). apply obj_get_set_same.
  - destruct (obj_get k source); [reflexivity|].
    apply obj_get_set_other. now apply String.eqb_neq.
Qed.

Lemma nth_error_array_set_other {A : Type} (i j : nat) (x : A) (l : list A) :
  j <> i -> nth_error (array_set i x l) j = nth_error l j.
Proof.
  revert i j. induction l as [|y l IH]; intros [|i] [|j] Hne; simpl;
    try reflexivity; try (now elim Hne).
  apply IH. intros ->. now apply Hne.
Qed.

Lemma index_of_first (p : obj -> bool) (recs : list obj) (i : nat) :
  index_of p recs = Some i ->
  forall j o, j < i -> nth_error recs j = Some o -> p o = false.
Proof.
  revert i. induction recs as [|r recs IH]; simpl; intros i H j o Hj Ho;
    [discriminate|].
  destruct (p r) eqn:E.
  - inversion H; subst. lia.
  - destruct (index_of p recs) as [i'|] eqn:Ei; [|discriminate].
    inversion H; subst. destruct j as [|j]; simpl in Ho.
    + now inversion Ho; subst.
    + apply (IH i' eq_refl j o); [lia | exact Ho].
Qed.

(** [updateMobile(id, fields)] merges: in the record it rewrites, the first
    one that carries [id], a key named in [fields] takes the value given
    there, [id] keeps the record's id, and every other key keeps the value
    the record had; no other record changes and none is added or lost. *)
Theorem update_merges (recs : list obj) (id : value) (fields : obj)
    (editing : bool) (eid : value) (ls : localStorage) (i : nat) (old : obj) :
  distinct (keys fields) = true ->
  index_of (has_prop "id" (Some id)) recs = Some i ->
  nth_error recs i = Some old ->
  exists merged st' ns,
    updateMobile id fields (manager_of recs editing eid ls) = Ok (st', ns)
    /\ inventory st' = inv_of (array_set i merged recs)
    /\ (forall k,
          obj_get k merged
          = if String.eqb k "id" then Some id
            else match obj_get k fields with
                 | Some v => Some v
                 | None => obj_get k old
                 end)
    /\ (forall j, j <> i ->
          nth_error (array_set i merged recs) j = nth_error recs j)
    /\ List.length (array_set i merged recs) = List.length recs.
Proof.
  intros Hd Hi Hold.
  pose proof (updateMobile_objs recs id fields editing eid ls) as Hu.
  cbv zeta in Hu. rewrite Hi, Hold in Hu.
  destruct (saveInventory _) as [st' ns] eqn:Hs.
  exists (obj_set "id" id (obj_spread old fields)), st', ns.
  split; [exact Hu|]. split; [|split; [|split]].
  - change st' with (fst (st', ns)). rewrite <- Hs.
    now rewrite saveInventory_inventory.
  - intros k. destruct (String.eqb k "id") eqn:E.
    + apply String.eqb_eq in E. subst k. apply obj_get_set_same.
    + rewrite obj_get_set_other
        by (intros <-; now rewrite String.eqb_refl in E).
      now apply obj_get_spread.
  - intros j Hj. now apply nth_error_array_set_other.
  - apply length_array_set.
Qed.

(** An update that names the brand, on the second of two records. *)
Lemma update_merges_witness :
  let a := sample 1 "Samsung" "Galaxy A54" "123456789012345" "8GB" "128GB" false in
  let b := sample 2 "Apple" "iPhone 13" "234567890123456" "4GB" "128GB" true in
  exists merged st' ns,
    updateMobile (VNum 2) [("brand", VStr "APPLE"); ("id", VNum 9)]
      (manager_of [a; b] true (VNum 2) (empty_storage 4096)) = Ok (st', ns)
    /\ inventory st' = inv_of [a; merged]
    /\ obj_get "id" merged = Some (VNum 2)
    /\ obj_get "brand" merged = Some (VStr "APPLE")
    /\ obj_get "sold" merged = Some (VBool true).
Proof.
  intros a b.
  destruct (update_merges [a; b] (VNum 2) [("brand", VStr "APPLE"); ("id", VNum 9)]
              true (VNum 2) (empty_storage 4096) 1 b eq_refl eq_refl eq_refl)
    as (merged & st' & ns & H1 & H2 & H3 & _).
  exists merged, st', ns. split; [exact H1|]. split; [exact H2|].
  split; [exact (H3 "id")|]. split; [exact (H3 "brand") | exact (H3 "sold")].
Defined.

(** [markAsSold(id)] with the confirmation granted writes [sold = true]
    into the first record that carries [id] and nothing else: the other
    properties of that record and all the other records, later ones with
    the same [id] included, are as before; when no record carries [id],
    nothing is written, saved or shown. *)
Theorem sale_marks_first (recs : list obj) (id : value) (editing : bool)
    (eid : value) (ls : localStorage) :
  let st := manager_of recs editing eid ls in
  (forall i old,
      index_of (has_prop "id" (Some id)) recs = Some i ->
      nth_error recs i = Some old ->
      exists marked st' ns,
        markAsSold true id st = Ok (st', ns)
        /\ inventory st' = inv_of (array_set i marked recs)
        /\ obj_get "sold" marked = Some (VBool true)
        /\ (forall k, k <> "sold" -> obj_get k marked = obj_get k old)
        /\ (forall j, j <> i ->
              nth_error (array_set i marked recs) j = nth_error recs j)
        /\ (forall j o, j < i -> nth_error recs j = Some o ->
              has_prop "id" (Some id) o = false))
  /\ (existsb (has_prop "id" (Some id)) recs = false ->
      markAsSold true id st = Ok (st, [])).
Proof.
  intros st. pose proof (markAsSold_objs recs true id editing eid ls) as H.
  cbv zeta in H. cbv iota in H. fold st in H. split.
  - intros i old Hi Hold. rewrite Hi, Hold in H.
    eexists; eexists; eexists. split; [exact H|].
    split; [apply settle_inventory|].
    split; [apply obj_get_set_same|].
    split; [intros k Hk; apply obj_get_set_other; congruence|].
    split; [intros j Hj; now apply nth_error_array_set_other|].
    exact (index_of_first _ _ _ Hi).
  - intros Hnone. rewrite index_of_existsb in Hnone.
    destruct (index_of (has_prop "id" (Some id)) recs); [discriminate | exact H].
Qed.

(** Two records with the same id: the sale marks the first one only. *)
Lemma sale_marks_first_witness :
  let a := sample 5 "Samsung" "Galaxy A54" "123456789012345" "8GB" "128GB" false in
  let b := sample 5 "Apple" "iPhone 13" "234567890123456" "4GB" "128GB" false in
  (exists marked st' ns,
      markAsSold true (VNum 5) (manager_of [a; b] false VNull (empty_storage 4096))
      = Ok (st', ns)
      /\ inventory st' = inv_of [marked; b]
      /\ obj_get "sold" marked = Some (VBool true)
      /\ obj_get "brand" marked = Some (VStr "Samsung"))
  /\ markAsSold true (VNum 6) (manager_of [a; b] false VNull (empty_storage 4096))
     = Ok (manager_of [a; b] false VNull (empty_storage 4096), []).
Proof.
  intros a b.
  destruct (sale_marks_first [a; b] (VNum 5) false VNull (empty_storage 4096))
    as [Hfound _].
  destruct (sale_marks_first [a; b] (VNum 6) false VNull (empty_storage 4096))
    as [_ Hnone].
  split; [|apply Hnone; reflexivity].
  destruct (Hfound 0 a eq_refl eq_refl) as (marked & st' & ns & H1 & H2 & H3 & H4 & _).
  exists marked, st', ns. split; [exact H1|]. split; [exact H2|].
  split; [exact H3|]. rewrite H4; [reflexivity | discriminate].
Defined.

(** *** Deleting, then adding again *)




(** *** The sample data *)

Lemma missing_present (mobiles recs : list obj) (m : obj) (s : string) :
  Forall (fun x => exists t, obj_get "imei" x = Some (VStr t)) mobiles ->
  In m mobiles -> obj_get "imei" m = Some (VStr s) ->
  existsb (has_prop "imei" (Some (VStr s))) (recs ++ missing mobiles recs) = true.
Proof.
  intros Hall. revert recs.
  induction Hall as [|x rest [t Ht] _ IH]; intros recs Hin Hm; [contradiction|].
  cbn [missing]. rewrite Ht.
  destruct (existsb (has_prop "imei" (Some (VStr t))) recs) eqn:E.
  - destruct Hin as [->|Hin]; [|now apply IH].
    rewrite Ht in Hm. injection Hm as <-.
    rewrite existsb_app, E. reflexivity.
  - change (x :: missing rest (recs ++ [x]))%list
      with ([x] ++ missing rest (recs ++ [x]))%list.
    rewrite List.app_assoc.
    destruct Hin as [->|Hin]; [|now apply IH].
    rewrite existsb_app, existsb_app. cbn [existsb].
    now rewrite (has_prop_refl_str "imei" s m Hm), !Bool.orb_true_r.
Qed.

Lemma missing_none (mobiles recs : list obj) :
  Forall (fun m => exists s, obj_get "imei" m = Some (VStr s)
                             /\ existsb (has_prop "imei" (Some (VStr s))) recs = true)
    mobiles ->
  missing mobiles recs = [].
Proof.
  induction 1 as [|m rest (s & Hs & Hp) _ IH]; [reflexivity|].
  cbn [missing]. now rewrite Hs, Hp.
Qed.

Lemma saveInventory_manager_of (recs : list obj) (editing : bool)
    (eid : value) (ls : localStorage) :
  exists ls1,
    fst (saveInventory (manager_of recs editing eid ls))
    = manager_of recs editing eid ls1.
Proof.
  unfold saveInventory.
  destruct (setItem _ _ _) as [ls'|e]; eexists; reflexivity.
Qed.

(** *** The photo of a submission *)

(** The photo decides a submission that passed validation and the duplicate
    check as follows.  A photo of more than 5 MiB, or one that cannot be
    read, aborts the submission with the image failure and leaves the
    manager as it is, in add mode and in edit mode alike.  A readable photo
    of at most 5 MiB, exactly 5 MiB included, gives its data URL as the
    image; an entry without content gives [null]. *)
Theorem photo_decides (now : Z) (fd : formData) (f : file)
    (recs : list obj) (editing : bool) (eid : value) (ls : localStorage)
    (brand model raw : string) :
  get_brand fd = Some brand -> get_model fd = Some model ->
  get_imei fd = Some raw ->
  get_photo fd = Some f ->
  validateIMEI (trim raw) = true ->
  negb editing && existsb (has_prop "imei" (Some (VStr (trim raw)))) recs = false ->
  let st := manager_of recs editing eid ls in
  ((size f > 5 * 1024 * 1024)%Z \/ ((0 < size f)%Z /\ dataURL f = None) ->
   handleFormSubmit now fd st
   = Ok (st, [ShowError "Failed to process image. Please try again."]))
  /\ (forall url,
        (0 < size f <= 5 * 1024 * 1024)%Z -> dataURL f = Some url ->
        submitted_image fd = Ok (VStr url))
  /\ ((size f <= 0)%Z -> submitted_image fd = Ok VNull).
Proof.
  intros Hb Hm Hi Hp Hv Hnodup st.
  assert (Himage : forall e, submitted_image fd = Throw e ->
            handleFormSubmit now fd st
            = Ok (st, [ShowError "Failed to process image. Please try again."])).
  { intros e He.
    pose proof (handleFormSubmit_objs now fd recs editing eid ls brand model raw
                  Hb Hm Hi) as H.
    cbv zeta in H. unfold st. rewrite H.
    now rewrite Hv, Hnodup, He. }
  split; [|split].
  - intros Hbad.
    assert (He : exists e, submitted_image fd = Throw e).
    { unfold submitted_image, processImage. rewrite Hp.
      destruct Hbad as [Hbig | [Hpos Hnone]].
      + assert (H0 : (size f >? 0)%Z = true) by (apply Z.gtb_lt; lia).
        assert (H5 : (size f >? 5 * 1024 * 1024)%Z = true)
          by (apply Z.gtb_lt; lia).
        rewrite H0, H5. cbn [bind]. eexists; reflexivity.
      + assert (H0 : (size f >? 0)%Z = true) by (apply Z.gtb_lt; lia).
        rewrite H0, Hnone.
        destruct (size f >? 5 * 1024 * 1024)%Z; cbn [bind]; eexists; reflexivity. }
    destruct He as [e He]. exact (Himage e He).
  - intros url [Hpos Hle] Hurl. unfold submitted_image, processImage. rewrite Hp.
    assert (H0 : (size f >? 0)%Z = true) by (apply Z.gtb_lt; lia).
    assert (H5 : (size f >? 5 * 1024 * 1024)%Z = false)
      by (rewrite Z.gtb_ltb; apply Z.ltb_ge; lia).
    now rewrite H0, H5, Hurl.
  - intros Hle. unfold submitted_image. rewrite Hp.
    assert (H0 : (size f >? 0)%Z = false)
      by (rewrite Z.gtb_ltb; apply Z.ltb_ge; lia).
    now rewrite H0.
Qed.

(** A photo of one byte more than 5 MiB, and one of exactly 5 MiB. *)
Lemma photo_decides_witness :
  let big := {| size := 5242881; dataURL := Some "data:image/png;base64,AAAA" |} in
  let fits := {| size := 5242880; dataURL := Some "data:image/png;base64,AAAA" |} in
  let fd := fun f =>
    {| get_brand := Some "Oppo"; get_model := Some "Reno 8";
       get_imei := Some "012345678901234"; get_ram := Some "8GB";
       get_storage := Some "128GB"; get_photo := Some f |} in
  let st := manager_of [] false VNull (empty_storage 4096) in
  handleFormSubmit 1700000000000 (fd big) st
  = Ok (st, [ShowError "Failed to process image. Please try again."])
  /\ submitted_image (fd fits) = Ok (VStr "data:image/png;base64,AAAA").
Proof.
  intros big fits fd st. split.
  - destruct (photo_decides 1700000000000 (fd big) big [] false VNull
                (empty_storage 4096) "Oppo" "Reno 8" "012345678901234"
                eq_refl eq_refl eq_refl eq_refl eq_refl eq_refl) as [H _].
    apply H. left. simpl. lia.
  - destruct (photo_decides 1700000000000 (fd fits) fits [] false VNull
                (empty_storage 4096) "Oppo" "Reno 8" "012345678901234"
                eq_refl eq_refl eq_refl eq_refl eq_refl eq_refl) as (_ & H & _).
    apply H; [simpl; lia | reflexivity].
Defined.

End PageFacts.

(* ================================================================== *)
(** ** The handlers on the page: the wait, the redraw, the disabled field *)
(* ================================================================== *)

Module HandlerFacts.
Import JS Inventory JSFacts InventoryFacts PageFacts Page.
Local Open Scope step_scope.

(** *** Sequencing *)

Lemma seq_returns (f g : step) (p : page) :
  thrown (f p) = None ->
  (f >> g) p
  = {| after := after (g (after (f p)));
       shown := (shown (f p) ++ shown (g (after (f p))))%list;
       thrown := thrown (g (after (f p))) |}.
Proof. intros H. unfold seq. now rewrite H. Qed.

Lemma seq_throws (f g : step) (p : page) (e : exn) :
  thrown (f p) = Some e -> (f >> g) p = f p.
Proof. intros H. unfold seq. now rewrite H. Qed.

(** A step that leaves the manager and the controls alone changes nothing
    of them at the end of a sequence. *)
Lemma seq_neutral (f g : step) (p : page) :
  neutral g ->
  mgr (after ((f >> g) p)) = mgr (after (f p))
  /\ controls (after ((f >> g) p)) = controls (after (f p)).
Proof.
  intros Hg. unfold seq. destruct (thrown (f p)); [now split|].
  cbn [after]. apply Hg.
Qed.

Lemma neutral_seq (f g : step) : neutral f -> neutral g -> neutral (f >> g).
Proof.
  intros Hf Hg q. destruct (seq_neutral f g q Hg) as [H1 H2].
  destruct (Hf q) as [H3 H4]. split; congruence.
Qed.

Lemma neutral_displayInventory : neutral displayInventory.
Proof. intros q. unfold displayInventory. now destruct (draw _ _). Qed.

Lemma neutral_showSuccess (m : string) : neutral (showSuccess m).
Proof. now intros q. Qed.

Lemma neutral_showError (m : string) : neutral (showError m).
Proof. now intros q. Qed.

Lemma neutral_hideError : neutral hideError.
Proof. now intros q. Qed.

Lemma neutral_done : neutral done.
Proof. now intros q. Qed.

Lemma neutral_throw (e : exn) : neutral (throw e).
Proof. now intros q. Qed.

Lemma neutral_prefill (mobile : value) (ks : list string) :
  neutral (prefill mobile ks).
Proof. intros q. unfold prefill. now destruct (forallb _ ks). Qed.

(** *** The methods on the page and on the manager *)

Lemma saveInventory_after (p : page) :
  mgr (after (saveInventory p)) = fst (Inventory.saveInventory (mgr p))
  /\ controls (after (saveInventory p)) = controls p
  /\ thrown (saveInventory p) = None
  /\ shown (saveInventory p) = snd (Inventory.saveInventory (mgr p)).
Proof.
  unfold saveInventory, Inventory.saveInventory.
  destruct (setItem _ _ _); cbn; repeat split; reflexivity.
Qed.

(** An assignment to the inventory followed by the save. *)
Lemma assign_save (inv : value) (p : page) :
  let o := (assign (fun st => with_inventory st inv) >> saveInventory) p in
  mgr (after o) = fst (Inventory.saveInventory (with_inventory (mgr p) inv))
  /\ controls (after o) = controls p
  /\ thrown o = None
  /\ shown o = snd (Inventory.saveInventory (with_inventory (mgr p) inv)).
Proof.
  cbv zeta. rewrite seq_returns by reflexivity. cbn [after shown thrown assign done].
  destruct (saveInventory_after (set_mgr p (with_inventory (mgr p) inv)))
    as (H1 & H2 & H3 & H4).
  repeat split; assumption.
Qed.

Lemma addMobile_after (now : Z) (mobileData : obj) (p : page) :
  mgr (after (addMobile now mobileData p))
  = state_after (Inventory.addMobile now mobileData (mgr p)) (mgr p)
  /\ controls (after (addMobile now mobileData p)) = controls p.
Proof.
  unfold addMobile.
  destruct (seq_neutral (push (VObj (obj_spread [("id", VNum now)] mobileData))
                         >> saveInventory) displayInventory p
              neutral_displayInventory) as [-> ->].
  unfold Inventory.addMobile, push, read, seq.
  destruct (as_array (inventory (mgr p))) as [l|e]; cbn [bind state_after];
    [|now split].
  cbn [thrown assign done after].
  destruct (saveInventory_after
              (set_mgr p (with_inventory (mgr p)
                 (VArr (l ++ [VObj (obj_spread [("id", VNum now)] mobileData)])))))
    as (Hm & Hc & _ & _).
  rewrite Hm, Hc. cbn [mgr set_mgr]. split; [|reflexivity].
  now destruct (Inventory.saveInventory _).
Qed.

Lemma deleteMobile_after (confirmed : bool) (id : value) (p : page) :
  mgr (after (deleteMobile confirmed id p))
  = state_after (Inventory.deleteMobile confirmed id (mgr p)) (mgr p)
  /\ controls (after (deleteMobile confirmed id p)) = controls p.
Proof.
  unfold deleteMobile, Inventory.deleteMobile.
  destruct confirmed; [|now split].
  match goal with
  | |- context [((?f >> saveInventory >> displayInventory) >> ?s) p] =>
      destruct (seq_neutral (f >> saveInventory >> displayInventory) s p
                  (neutral_showSuccess _)) as [-> ->];
      destruct (seq_neutral (f >> saveInventory) displayInventory p
                  neutral_displayInventory) as [-> ->]
  end.
  unfold read, seq.
  destruct (as_array (inventory (mgr p))) as [l|e]; cbn [bind state_after];
    [|now split].
  destruct (array_filter _ l) as [kept|e]; cbn [bind state_after]; [|now split].
  cbn [thrown assign done after].
  destruct (saveInventory_after (set_mgr p (with_inventory (mgr p) (VArr kept))))
    as (Hm & Hc & _ & _).
  rewrite Hm, Hc. cbn [mgr set_mgr]. split; [|reflexivity].
  now destruct (Inventory.saveInventory _).
Qed.

Lemma updateMobile_after (id : value) (updatedData : obj) (p : page) :
  mgr (after (updateMobile id updatedData p))
  = state_after (Inventory.updateMobile id updatedData (mgr p)) (mgr p)
  /\ controls (after (updateMobile id updatedData p)) = controls p.
Proof.
  unfold updateMobile, Inventory.updateMobile, read.
  destruct (as_array (inventory (mgr p))) as [l|e]; cbn [bind state_after];
    [|now split].
  destruct (array_findIndex _ l) as [[i|]|e]; cbn [bind state_after fst snd];
    try (now split).
  match goal with
  | |- context [((?f >> saveInventory) >> displayInventory) p] =>
      destruct (seq_neutral (f >> saveInventory) displayInventory p
                  neutral_displayInventory) as [-> ->]
  end.
  match goal with
  | |- context [assign (fun st => with_inventory st ?inv)] =>
      destruct (assign_save inv p) as (Hm & Hc & _ & _)
  end.
  rewrite Hm, Hc. split; [|reflexivity].
  now destruct (Inventory.saveInventory _).
Qed.

Lemma markAsSold_after (confirmed : bool) (id : value) (p : page) :
  mgr (after (markAsSold confirmed id p))
  = state_after (Inventory.markAsSold confirmed id (mgr p)) (mgr p)
  /\ controls (after (markAsSold confirmed id p)) = controls p.
Proof.
  unfold markAsSold, Inventory.markAsSold, read.
  destruct confirmed; [|now split].
  destruct (as_array (inventory (mgr p))) as [l|e]; cbn [bind state_after];
    [|now split].
  destruct (array_find _ l) as [[[i m]|]|e]; cbn [bind state_after fst snd];
    try (now split).
  match goal with
  | |- context [((?f >> saveInventory >> displayInventory) >> ?s) p] =>
      destruct (seq_neutral (f >> saveInventory >> displayInventory) s p
                  (neutral_showSuccess _)) as [-> ->];
      destruct (seq_neutral (f >> saveInventory) displayInventory p
                  neutral_displayInventory) as [-> ->]
  end.
  match goal with
  | |- context [assign (fun st => with_inventory st ?inv)] =>
      destruct (assign_save inv p) as (Hm & Hc & _ & _)
  end.
  rewrite Hm, Hc. split; [|reflexivity].
  now destruct (Inventory.saveInventory _).
Qed.


Lemma editMobile_after (id : value) (p : page) :
  let o := editMobile id p in
  mgr (after o)
  = match Inventory.editMobile id (mgr p) with
    | Ok st' => st'
    | Throw _ => mgr p
    end
  /\ searchInput (after o) = searchInput p
  /\ waiting (after o) = waiting p
  /\ (thrown o = None -> isEditing (mgr p) = false ->
      isEditing (mgr (after o)) = true -> imei_disabled (after o) = true).
Proof.
  cbv zeta. unfold editMobile, Inventory.editMobile, read.
  destruct (as_array (inventory (mgr p))) as [l|e]; cbn [bind];
    [|repeat split; cbn; congruence].
  destruct (array_find _ l) as [[[i mobile]|]|e]; cbn [bind];
    try (repeat split; cbn; congruence).
  unfold seq, assign, prefill. cbn [after thrown done set_mgr mgr].
  destruct (forallb (prop_to_text_ok mobile) ["brand"; "model"; "imei"]);
    cbn [after thrown done throw shown set_disabled set_mgr mgr imei_disabled
         searchInput waiting];
    [|repeat split; discriminate].
  destruct (forallb (prop_to_text_ok mobile) ["ram"; "storage"; "image"]);
    cbn [after thrown done throw shown set_disabled set_mgr mgr imei_disabled
         searchInput waiting];
    repeat split; discriminate.
Qed.

(** *** The loop of the samples *)

Lemma scan_clean (x : option value) (l : list value) :
  array_some (prop_is "imei" x) l = Ok false -> Forall (fun m => m <> VNull) l.
Proof.
  induction l as [|m l IH]; cbn [array_some]; intros H; [constructor|].
  destruct m; cbn in H; try discriminate;
    match type of H with
    | context [if ?b then _ else _] => destruct b; [discriminate|]
    | _ => idtac
    end;
    (constructor; [discriminate | now apply IH]).
Qed.

Lemma clean_scan (x : option value) (l : list value) :
  Forall (fun m => m <> VNull) l ->
  exists b, array_some (prop_is "imei" x) l = Ok b.
Proof.
  induction 1 as [|m l Hm _ [b IH]]; cbn [array_some]; [now eexists|].
  unfold prop_is at 1. destruct m; cbn [get_prop bind]; try (now elim Hm);
    match goal with
    | |- context [if ?c then _ else _] => destruct c; eexists; [reflexivity|exact IH]
    | _ => idtac
    end.
Qed.

Lemma clean_push_missing (mobiles : list obj) (st : manager) (l : list value) :
  inventory st = VArr l -> Forall (fun m => m <> VNull) l ->
  exists st', push_missing mobiles st = Ok st'.
Proof.
  revert st l. induction mobiles as [|mobile rest IH]; intros st l Hl Hc;
    cbn [push_missing]; [now eexists|].
  unfold isDuplicateIMEI. rewrite Hl. cbn [as_array bind].
  destruct (clean_scan (obj_get "imei" mobile) l Hc) as [b ->]. cbn [bind].
  destruct b; [now apply (IH st l)|].
  apply (IH _ (l ++ [VObj mobile])%list); [reflexivity|].
  apply Forall_app. split; [exact Hc|]. constructor; [discriminate|constructor].
Qed.

Lemma push_array (m : value) (p : page) (l : list value) :
  inventory (mgr p) = VArr l ->
  push m p
  = {| after := set_mgr p (with_inventory (mgr p) (VArr (l ++ [m])));
       shown := []; thrown := None |}.
Proof. intros H. unfold push, read. now rewrite H. Qed.

(** The loop on the page is the loop on the manager; when it throws, it
    has pushed nothing yet. *)
Lemma push_each_missing_after (mobiles : list obj) (p : page) :
  let o := push_each_missing mobiles p in
  controls (after o) = controls p
  /\ shown o = []
  /\ match push_missing mobiles (mgr p) with
     | Ok st' => mgr (after o) = st' /\ thrown o = None
     | Throw e => mgr (after o) = mgr p /\ thrown o = Some e
     end.
Proof.
  cbv zeta. revert p. induction mobiles as [|mobile rest IH]; intros p;
    cbn [push_each_missing push_missing]; [now repeat split|].
  unfold read. destruct (isDuplicateIMEI (obj_get "imei" mobile) (mgr p))
    as [[|]|e] eqn:Ed; cbn [bind].
  - apply IH.
  - unfold isDuplicateIMEI in Ed.
    destruct (inventory (mgr p)) as [| | | |l|] eqn:El; cbn [as_array bind] in Ed;
      try discriminate.
    pose proof (scan_clean _ _ Ed) as Hc. cbn [as_array bind].
    rewrite seq_returns by (now rewrite (push_array _ _ _ El)).
    rewrite (push_array _ _ _ El). cbn [after shown thrown].
    set (p1 := set_mgr p (with_inventory (mgr p) (VArr (l ++ [VObj mobile])))).
    destruct (IH p1) as (Hctl & Hshown & Hm).
    cbn [app]. split; [exact Hctl|]. split; [exact Hshown|].
    change (mgr p1) with (with_inventory (mgr p) (VArr (l ++ [VObj mobile]))) in Hm.
    destruct (clean_push_missing rest
                (with_inventory (mgr p) (VArr (l ++ [VObj mobile])))
                (l ++ [VObj mobile])%list eq_refl) as [st' Hst'].
    { apply Forall_app. split; [exact Hc|].
      constructor; [discriminate|constructor]. }
    rewrite Hst' in Hm |- *. exact Hm.
  - now repeat split.
Qed.

Lemma generateTestData_after (confirmed : bool) (clock : nat -> Z) (p : page) :
  let o := generateTestData confirmed clock p in
  mgr (after o)
  = (if confirmed then
       match push_missing (testMobilesAt clock) (mgr p) with
       | Ok st1 => fst (Inventory.saveInventory st1)
       | Throw _ => mgr p
       end
     else mgr p)
  /\ controls (after o) = controls p.
Proof.
  cbv zeta. unfold generateTestData. destruct confirmed; [|now split].
  match goal with
  | |- context [((?f >> saveInventory >> displayInventory) >> ?s) p] =>
      destruct (seq_neutral (f >> saveInventory >> displayInventory) s p
                  (neutral_showSuccess _)) as [-> ->];
      destruct (seq_neutral (f >> saveInventory) displayInventory p
                  neutral_displayInventory) as [-> ->]
  end.
  destruct (push_each_missing_after (testMobilesAt clock) p) as (Hc & _ & Hm).
  unfold seq.
  destruct (push_missing (testMobilesAt clock) (mgr p)) as [st1|e];
    destruct Hm as [Hm Ht]; rewrite Ht.
  - cbn [after]. destruct (saveInventory_after
                             (after (push_each_missing (testMobilesAt clock) p)))
      as (H1 & H2 & _ & _).
    rewrite H1, H2, Hm. now split.
  - now split.
Qed.

(** *** The end of a submission *)

Lemma resetEditMode_after (p : page) :
  resetEditMode p
  = {| after := set_disabled (set_mgr p (Inventory.resetEditMode (mgr p))) false;
       shown := []; thrown := None |}.
Proof. reflexivity. Qed.

(** [finish] does to the manager what [updateMobile] or [addMobile] does,
    by the mode it finds, and leaves edit mode unless the redraw threw. *)
Lemma finish_after (now : Z) (md : obj) (p : page) :
  let o := finish now md p in
  let st' :=
    if isEditing (mgr p)
    then state_after (Inventory.updateMobile (editingId (mgr p)) md (mgr p)) (mgr p)
    else state_after (Inventory.addMobile now md (mgr p)) (mgr p) in
  searchInput (after o) = searchInput p
  /\ waiting (after o) = waiting p
  /\ ((thrown o = None
       /\ mgr (after o) = Inventory.resetEditMode st'
       /\ imei_disabled (after o) = false
       /\ errorMessage (after o) = None)
      \/ (thrown o <> None
          /\ mgr (after o) = st'
          /\ imei_disabled (after o) = imei_disabled p)).
Proof.
  cbv zeta. unfold finish.
  set (body := (fun q : page =>
                  if isEditing (mgr q)
                  then (updateMobile (editingId (mgr q)) md
                        >> showSuccess "Mobile updated successfully!") q
                  else (addMobile now md
                        >> showSuccess "Mobile added to inventory successfully!") q)).
  assert (Hbody : mgr (after (body p))
                  = (if isEditing (mgr p)
                     then state_after
                            (Inventory.updateMobile (editingId (mgr p)) md (mgr p))
                            (mgr p)
                     else state_after (Inventory.addMobile now md (mgr p)) (mgr p))
                  /\ controls (after (body p)) = controls p).
  { unfold body. destruct (isEditing (mgr p)).
    - destruct (seq_neutral (updateMobile (editingId (mgr p)) md)
                  (showSuccess "Mobile updated successfully!") p
                  (neutral_showSuccess _)) as [-> ->].
      apply updateMobile_after.
    - destruct (seq_neutral (addMobile now md)
                  (showSuccess "Mobile added to inventory successfully!") p
                  (neutral_showSuccess _)) as [-> ->].
      apply addMobile_after. }
  destruct Hbody as [Hm Hc]. unfold controls in Hc. injection Hc as Hd Hs Hw.
  destruct (thrown (body p)) as [e|] eqn:Et.
  - assert (H1 : (body >> hideError) p = body p) by now apply (seq_throws _ _ _ e).
    assert (H2 : (body >> hideError >> resetEditMode) p = body p).
    { rewrite (seq_throws _ _ _ e); [exact H1 | now rewrite H1]. }
    rewrite H2. split; [exact Hs|]. split; [exact Hw|]. right.
    rewrite Et. split; [discriminate|]. now split.
  - assert (H1 : (body >> hideError) p
                 = {| after := set_error (after (body p)) None;
                      shown := (shown (body p) ++ [])%list; thrown := None |})
      by now rewrite seq_returns.
    rewrite seq_returns by now rewrite H1.
    rewrite H1. cbn [after thrown shown resetEditMode done set_disabled set_error
                     set_mgr mgr searchInput waiting imei_disabled errorMessage].
    split; [exact Hs|]. split; [exact Hw|]. left.
    rewrite Hm. now repeat split.
Qed.


(** *** A submission on an inventory of records *)

Lemma addMobile_objs (now : Z) (brand model imei : string)
    (ram storage : option string) (img : value) (recs : list obj)
    (editing : bool) (eid : value) (ls : localStorage) :
  Inventory.addMobile now (form_fields brand model imei ram storage img)
    (manager_of recs editing eid ls)
  = Ok (settle (manager_of recs editing eid ls)
          (recs ++ [new_record now brand model imei ram storage img])).
Proof.
  unfold Inventory.addMobile, manager_of, inv_of, settle.
  cbn [inventory as_array bind]. unfold inv_of. rewrite map_app. reflexivity.
Qed.

Lemma submit_begin_objs (now : Z) (fd : formData) (p : page) (recs : list obj)
    (eid : value) (ls : localStorage) (brand model raw : string) :
  mgr p = manager_of recs false eid ls ->
  imei_disabled p = false ->
  get_brand fd = Some brand -> get_model fd = Some model ->
  get_imei fd = Some raw ->
  let fields := form_fields (trim brand) (trim model) (trim raw)
                  (get_ram fd) (get_storage fd) in
  handleFormSubmit now fd p
  = if negb (validateIMEI (trim raw))
    then showError "IMEI must be exactly 15 digits." p
    else if existsb (has_prop "imei" (Some (VStr (trim raw)))) recs
    then showError "A mobile with this IMEI already exists in inventory." p
    else
      match get_photo fd with
      | Some photo =>
          if (size photo >? 0)%Z then
            if (size photo >? 5 * 1024 * 1024)%Z
            then showError "Failed to process image. Please try again." p
            else suspend {| mobileData :=
                              [("brand", VStr (trim brand));
                               ("model", VStr (trim model));
                               ("imei", VStr (trim raw));
                               ("ram", entry_value (get_ram fd));
                               ("storage", entry_value (get_storage fd))];
                            photoFile := photo |} p
          else finish now (fields VNull) p
      | None => finish now (fields VNull) p
      end.
Proof.
  intros Hm Hd Hb Hmo Hi fields. unfold handleFormSubmit, FormData.
  rewrite Hd. cbn [get_brand get_model get_imei get_ram get_storage get_photo].
  rewrite Hb, Hmo, Hi. cbn [trimmed bind].
  destruct (validateIMEI (trim raw)); cbn [negb]; [|reflexivity].
  rewrite Hm. unfold isDuplicateIMEI, manager_of, inv_of.
  cbn [isEditing inventory as_array bind].
  rewrite array_some_objs.
  destruct (existsb _ recs); reflexivity.
Qed.

Lemma nth_error_last {A : Type} (l : list A) (x : A) :
  nth_error (l ++ [x]) (List.length l) = Some x.
Proof. induction l as [|y l IH]; [reflexivity | exact IH]. Qed.

Lemma remove_nth_last {A : Type} (l : list A) (x : A) :
  remove_nth (List.length l) (l ++ [x]) = l.
Proof. induction l as [|y l IH]; [reflexivity|]. cbn. now rewrite IH. Qed.

(** A submission that adds, run to its end on the records [recs]: the page
    then holds the records with the new one, outside edit mode and with the
    IMEI field enabled, whether the redraw threw or not. *)
Lemma finish_adds_objs (now : Z) (brand model imei : string)
    (ram storage : option string) (img : value) (p : page) (recs : list obj)
    (eid : value) (ls : localStorage) :
  mgr p = manager_of recs false eid ls ->
  imei_disabled p = false ->
  let p' := after (finish now (form_fields brand model imei ram storage img) p) in
  (exists eid' ls',
     mgr p' = manager_of (recs ++ [new_record now brand model imei ram storage img])
                false eid' ls')
  /\ imei_disabled p' = false
  /\ waiting p' = waiting p.
Proof.
  intros Hm Hd p'.
  destruct (finish_after now (form_fields brand model imei ram storage img) p)
    as (_ & Hw & Hcases).
  fold p' in Hw, Hcases. rewrite Hm in Hcases. cbn [isEditing manager_of] in Hcases.
  rewrite addMobile_objs in Hcases. cbn [state_after] in Hcases.
  destruct (settle_shape recs
              (recs ++ [new_record now brand model imei ram storage img])
              false eid ls) as [ls' Hls'].
  destruct (settle (manager_of recs false eid ls)
              (recs ++ [new_record now brand model imei ram storage img]))
    as [st1 ns1].
  cbn [fst] in Hls'. subst st1.
  destruct Hcases as [(_ & Hp & Hdis & _) | (_ & Hp & Hdis)].
  - split; [|now split]. exists VNull, ls'. exact Hp.
  - split; [|split; [congruence | exact Hw]]. exists eid, ls'. exact Hp.
Qed.

Lemma submitted_image_cases (fd : formData) (img : value) :
  submitted_image fd = Ok img ->
  (img = VNull
   /\ match get_photo fd with
      | Some photo => (size photo >? 0)%Z = false
      | None => True
      end)
  \/ exists photo url,
       get_photo fd = Some photo /\ (size photo >? 0)%Z = true
       /\ (size photo >? 5 * 1024 * 1024)%Z = false
       /\ dataURL photo = Some url /\ img = VStr url.
Proof.
  unfold submitted_image, processImage.
  destruct (get_photo fd) as [photo|]; [|intros H; inversion H; now left].
  destruct (size photo >? 0)%Z eqn:E0; [|intros H; inversion H; now left].
  destruct (size photo >? 5 * 1024 * 1024)%Z eqn:E5; cbn [bind]; [discriminate|].
  destruct (dataURL photo) as [url|] eqn:Eu; cbn [bind]; [|discriminate].
  intros H. inversion H. right. exists photo, url. now repeat split.
Qed.

(** The first of two submissions, run to its end. *)
Lemma submitted_adds (now : Z) (fd : formData) (p : page) (recs : list obj)
    (eid : value) (ls : localStorage) (brand model raw : string) (img : value) :
  mgr p = manager_of recs false eid ls ->
  imei_disabled p = false ->
  get_brand fd = Some brand -> get_model fd = Some model ->
  get_imei fd = Some raw ->
  validateIMEI (trim raw) = true ->
  submitted_image fd = Ok img ->
  let p1 := submitted now fd p in
  (exists recs1 eid1 ls1,
     mgr p1 = manager_of recs1 false eid1 ls1
     /\ recs1 = (if existsb (has_prop "imei" (Some (VStr (trim raw)))) recs
                 then recs
                 else recs ++ [new_record now (trim brand) (trim model) (trim raw)
                                 (get_ram fd) (get_storage fd) img]))
  /\ imei_disabled p1 = false
  /\ waiting p1 = waiting p.
Proof.
  intros Hm Hd Hb Hmo Hi Hv Himg p1. unfold submitted in p1.
  pose proof (submit_begin_objs now fd p recs eid ls brand model raw Hm Hd Hb Hmo Hi)
    as Hbegin.
  cbv zeta in Hbegin. rewrite Hv in Hbegin. cbn [negb] in Hbegin.
  destruct (existsb (has_prop "imei" (Some (VStr (trim raw)))) recs) eqn:Hdup.
  - subst p1. rewrite Hbegin. cbn [after showError set_error waiting].
    rewrite Nat.eqb_refl. cbn [mgr imei_disabled waiting].
    split; [|now split]. now exists recs, eid, ls.
  - destruct (submitted_image_cases fd img Himg)
      as [[-> Hnone] | (photo & url & Hp & H0 & H5 & Hurl & ->)].
    + assert (Hfin : handleFormSubmit now fd p
                     = finish now (form_fields (trim brand) (trim model) (trim raw)
                                     (get_ram fd) (get_storage fd) VNull) p).
      { rewrite Hbegin. destruct (get_photo fd) as [photo|]; [|reflexivity].
        now rewrite Hnone. }
      destruct (finish_adds_objs now (trim brand) (trim model) (trim raw)
                  (get_ram fd) (get_storage fd) VNull p recs eid ls Hm Hd)
        as ((eid' & ls' & Hp') & Hdis & Hw).
      subst p1. rewrite Hfin, Hw, Nat.eqb_refl.
      split; [|now split].
      eexists. exists eid', ls'. split; [exact Hp' | reflexivity].
    + rewrite Hp, H0, H5 in Hbegin.
      subst p1. rewrite Hbegin. cbn [after suspend done set_waiting waiting].
      rewrite length_app. cbn [List.length].
      replace (List.length (waiting p) + 1 =? List.length (waiting p))%nat
        with false by (symmetry; apply Nat.eqb_neq; lia).
      unfold photoRead. cbn [waiting set_waiting].
      rewrite nth_error_last, remove_nth_last. cbn [photoFile mobileData].
      rewrite Hurl.
      set (p' := set_waiting _ (waiting p)).
      destruct (finish_adds_objs now (trim brand) (trim model) (trim raw)
                  (get_ram fd) (get_storage fd) (VStr url) p' recs eid ls Hm Hd)
        as ((eid' & ls' & Hp') & Hdis & Hw).
      split; [|split; [exact Hdis | exact Hw]].
      eexists. exists eid', ls'. split; [exact Hp' | reflexivity].
Qed.


(** *** C2: a second add of the same IMEI *)

(** C2, as the code has it: of two submissions outside edit mode with the
    same valid IMEI, the second begun when the first has run to its end
    (the reading of its photo included, and nothing in between) with its
    photo processed, the second is rejected with the duplicate-key
    failure before it waits for anything, and leaves the manager, hence the
    length of the inventory, as the first left it. *)
Theorem second_add_rejected (now1 now2 : Z) (fd1 fd2 : formData)
    (brand1 model1 raw1 brand2 model2 raw2 : string)
    (recs : list obj) (eid : value) (ls : localStorage) (img : value)
    (p0 : page) :
  mgr p0 = manager_of recs false eid ls ->
  imei_disabled p0 = false ->
  get_brand fd1 = Some brand1 -> get_model fd1 = Some model1 ->
  get_imei fd1 = Some raw1 ->
  get_brand fd2 = Some brand2 -> get_model fd2 = Some model2 ->
  get_imei fd2 = Some raw2 ->
  trim raw1 = trim raw2 ->
  fifteen_digits (trim raw1) ->
  submitted_image fd1 = Ok img ->
  let p1 := submitted now1 fd1 p0 in
  let o2 := handleFormSubmit now2 fd2 p1 in
  waiting p1 = waiting p0
  /\ (exists recs1,
        inventory (mgr p1) = inv_of recs1
        /\ existsb (has_prop "imei" (Some (VStr (trim raw1)))) recs1 = true)
  /\ thrown o2 = None
  /\ shown o2 = [duplicate_failure]
  /\ mgr (after o2) = mgr p1
  /\ waiting (after o2) = waiting p1.
Proof.
  intros Hm Hd Hb1 Hm1 Hi1 Hb2 Hm2 Hi2 Hsame Hv Himg p1 o2.
  apply validateIMEI_spec in Hv.
  destruct (submitted_adds now1 fd1 p0 recs eid ls brand1 model1 raw1 img
              Hm Hd Hb1 Hm1 Hi1 Hv Himg)
    as ((recs1 & eid1 & ls1 & Hp1 & Hrecs1) & Hd1 & Hw1).
  fold p1 in Hp1, Hd1, Hw1.
  assert (Hdup : existsb (has_prop "imei" (Some (VStr (trim raw1)))) recs1 = true).
  { rewrite Hrecs1.
    destruct (existsb (has_prop "imei" (Some (VStr (trim raw1)))) recs) eqn:E;
      [exact E|].
    rewrite existsb_app. cbn [existsb].
    rewrite (has_prop_refl_str "imei" (trim raw1)) by reflexivity.
    now rewrite Bool.orb_true_r. }
  pose proof (submit_begin_objs now2 fd2 p1 recs1 eid1 ls1 brand2 model2 raw2
                Hp1 Hd1 Hb2 Hm2 Hi2) as H2.
  cbv zeta in H2. rewrite <- Hsame, Hv, Hdup in H2. cbn [negb] in H2.
  split; [exact Hw1|].
  split; [exists recs1; split; [now rewrite Hp1 | exact Hdup]|].
  unfold o2. rewrite H2. now repeat split.
Qed.

(** C2 on two submissions of the same IMEI into an empty inventory, the
    first with a photo that is read before the second is begun. *)
Lemma second_add_rejected_witness :
  let fd1 := form_with_photo "Samsung" "Galaxy A54" "123456789012345" "8GB" "128GB"
               1024 "data:image/png;base64,AAAA" in
  let fd2 := form_of "Apple" "iPhone 13" "123456789012345 " "4GB" "128GB" in
  let p0 := new_page (empty_storage 4096) "" in
  let p1 := submitted 1700000000000 fd1 p0 in
  let o2 := handleFormSubmit 1700000000500 fd2 p1 in
  waiting p1 = []
  /\ shown o2 = [duplicate_failure]
  /\ mgr (after o2) = mgr p1.
Proof.
  intros fd1 fd2 p0 p1 o2.
  destruct (second_add_rejected 1700000000000 1700000000500 fd1 fd2
              "Samsung" "Galaxy A54" "123456789012345"
              "Apple" "iPhone 13" "123456789012345 "
              [] VNull (empty_storage 4096) (VStr "data:image/png;base64,AAAA") p0
              eq_refl eq_refl eq_refl eq_refl eq_refl eq_refl eq_refl eq_refl
              eq_refl (proj1 (validateIMEI_spec "123456789012345") eq_refl) eq_refl)
    as (H1 & _ & _ & H2 & H3 & _).
  split; [exact H1|]. split; [exact H2 | exact H3].
Defined.

(** C2 as stated fails: when the IMEI of the two submissions is not valid,
    the second is rejected with the validation failure, not with the
    duplicate-key failure; and when the first submission was given up on
    its photo, the second is not rejected at all. *)
Lemma second_add_invalid_counterexample :
  let fd := form_of "Samsung" "Galaxy A54" "12345" "8GB" "128GB" in
  let p0 := new_page (empty_storage 4096) "" in
  let p1 := submitted 1700000000000 fd p0 in
  let o2 := handleFormSubmit 1700000000500 fd p1 in
  let large := form_with_photo "Samsung" "Galaxy A54" "123456789012345" "8GB"
                 "128GB" 6000000 "data:image/png;base64,AAAA" in
  let q1 := submitted 1700000000000 large p0 in
  let r2 := handleFormSubmit 1700000000500
              (form_of "Samsung" "Galaxy A54" "123456789012345" "8GB" "128GB") q1 in
  (waiting p1 = []
   /\ inventory (mgr p1) = inv_of []
   /\ thrown o2 = None
   /\ shown o2 = [validation_failure]
   /\ shown o2 <> [duplicate_failure])
  /\ (waiting q1 = []
      /\ inventory (mgr q1) = inv_of []
      /\ shown r2 = [ShowSuccess "Mobile added to inventory successfully!"]
      /\ inventory (mgr (after r2))
         = inv_of [new_record 1700000000500 "Samsung" "Galaxy A54"
                     "123456789012345" (Some "8GB") (Some "128GB") VNull]).
Proof.
  cbv zeta. split.
  - repeat split; try (vm_compute; reflexivity).
    vm_compute. discriminate.
  - repeat split; vm_compute; reflexivity.
Qed.

(** *** C3: two submissions that overlap *)

(** The duplicate check of a submission comes before its [await], the push
    after it.  Two submissions of one IMEI, the second begun while the
    photo of the first is being read, both pass the check on the inventory
    as it is then, both wait, and both push: the inventory ends with two
    records of that IMEI, no failure having been reported. *)
Theorem overlapping_adds_share_imei :
  let fd1 := form_with_photo "Samsung" "Galaxy A54" "123456789012345" "8GB" "128GB"
               1024 "data:image/png;base64,AAAA" in
  let fd2 := form_with_photo "Apple" "iPhone 13" "123456789012345" "4GB" "128GB"
               2048 "data:image/png;base64,BBBB" in
  let p0 := new_page (empty_storage 4096) "" in
  let o1 := page_step (FormSubmitted 1700000000000 fd1) p0 in
  let o2 := page_step (FormSubmitted 1700000000100 fd2) (after o1) in
  let o3 := page_step (PhotoRead 0 1700000000200) (after o2) in
  let o4 := page_step (PhotoRead 0 1700000000300) (after o3) in
  let first := new_record 1700000000200 "Samsung" "Galaxy A54" "123456789012345"
                 (Some "8GB") (Some "128GB") (VStr "data:image/png;base64,AAAA") in
  let second := new_record 1700000000300 "Apple" "iPhone 13" "123456789012345"
                  (Some "4GB") (Some "128GB") (VStr "data:image/png;base64,BBBB") in
  (shown o1 = [] /\ shown o2 = []
   /\ inventory (mgr (after o2)) = inv_of []
   /\ List.length (waiting (after o2)) = 2)
  /\ (inventory (mgr (after o3)) = inv_of [first] /\ unique_imei [first])
  /\ (thrown o4 = None
      /\ shown o4 = [ShowSuccess "Mobile added to inventory successfully!"]
      /\ inventory (mgr (after o4)) = inv_of [first; second]
      /\ loadInventory (store (mgr (after o4))) = inv_of [first; second])
  /\ ~ unique_imei [first; second].
Proof.
  cbv zeta. split; [repeat split; vm_compute; reflexivity|].
  split.
  - split; [vm_compute; reflexivity|].
    unfold unique_imei. cbn. repeat constructor. intros [].
  - split; [repeat split; vm_compute; reflexivity|].
    unfold unique_imei. cbn. intros H.
    inversion H as [|? ? Hnot _]; subst. apply Hnot. now left.
Qed.


(** *** Edit mode on the page *)

(** On the page an edit cannot be saved.  Once [editMobile(id)] has put the
    page into edit mode it has disabled the IMEI field, the form data of a
    submission has no IMEI, and the handler throws a [TypeError] where it
    reads it, whatever the form holds: nothing is updated, nothing is
    shown, and the page stays in edit mode.  [cancelEdit()] leaves the mode
    and enables the field again. *)
Theorem edit_submit_throws (p : page) (id : value) (now : Z) (fd : formData) :
  isEditing (mgr p) = false ->
  thrown (editMobile id p) = None ->
  isEditing (mgr (after (editMobile id p))) = true ->
  let p1 := after (editMobile id p) in
  editingId (mgr p1) = id
  /\ imei_disabled p1 = true
  /\ handleFormSubmit now fd p1
     = {| after := p1; shown := []; thrown := Some TypeError |}
  /\ isEditing (mgr (after (cancelEdit p1))) = false
  /\ imei_disabled (after (cancelEdit p1)) = false.
Proof.
  intros Hadd Hret Hedit p1.
  destruct (editMobile_after id p) as (Hm & _ & _ & Hdis).
  fold p1 in Hm, Hdis. specialize (Hdis Hret Hadd Hedit).
  split.
  - unfold p1 in Hedit. fold p1 in Hedit. rewrite Hm in Hedit |- *.
    unfold Inventory.editMobile in *.
    destruct (as_array (inventory (mgr p))) as [l|e]; cbn [bind] in *;
      [|congruence].
    destruct (array_find _ l) as [[found|]|e]; cbn [bind] in *;
      try congruence. reflexivity.
  - split; [exact Hdis|]. split; [|now split].
    unfold handleFormSubmit, FormData. rewrite Hdis.
    cbn [get_brand get_model get_imei].
    destruct (get_brand fd); cbn [trimmed bind]; [|reflexivity].
    destruct (get_model fd); reflexivity.
Qed.

(** The edit of a record, a submission that carries its own IMEI, and the
    cancellation. *)
Lemma edit_submit_throws_witness :
  let recs := [sample 2 "Apple" "iPhone 13" "234567890123456" "4GB" "128GB" false] in
  let p := {| mgr := manager_of recs false VNull (empty_storage 4096);
              imei_disabled := false; searchInput := "";
              errorMessage := None; waiting := [] |} in
  let p1 := after (editMobile (VNum 2) p) in
  isEditing (mgr p1) = true
  /\ handleFormSubmit 1700000000000
       (form_of "Apple" "iPhone 13 Pro" "234567890123456" "6GB" "256GB") p1
     = {| after := p1; shown := []; thrown := Some TypeError |}
  /\ inventory (mgr p1) = inv_of recs.
Proof.
  intros recs p p1.
  destruct (edit_submit_throws p (VNum 2) 1700000000000
              (form_of "Apple" "iPhone 13 Pro" "234567890123456" "6GB" "256GB")
              eq_refl eq_refl eq_refl) as (_ & _ & H & _).
  split; [reflexivity|]. split; [exact H | reflexivity].
Defined.

(** *** The samples *)

Lemma testMobilesAt_imei (clock : nat -> Z) :
  Forall (fun m => exists s, obj_get "imei" m = Some (VStr s)) (testMobilesAt clock).
Proof. unfold testMobilesAt. repeat constructor; eexists; reflexivity. Qed.

Lemma testMobilesAt_same_imei (clock1 clock2 : nat -> Z) :
  map (obj_get "imei") (testMobilesAt clock1)
  = map (obj_get "imei") (testMobilesAt clock2).
Proof. reflexivity. Qed.

Lemma testMobilesAt_distinct (clock : nat -> Z) :
  NoDup (map (obj_get "imei") (testMobilesAt clock)).
Proof.
  unfold testMobilesAt. cbn [map sample obj_get String.eqb Ascii.eqb Bool.eqb].
  repeat constructor; cbn [In]; intuition discriminate.
Qed.

(** With samples of distinct IMEIs, the loop pushes those whose IMEI the
    inventory did not hold when the loop began. *)
Lemma missing_filter (mobiles recs : list obj) :
  Forall (fun m => exists s, obj_get "imei" m = Some (VStr s)) mobiles ->
  NoDup (map (obj_get "imei") mobiles) ->
  missing mobiles recs
  = filter (fun m => negb (existsb (has_prop "imei" (obj_get "imei" m)) recs))
      mobiles.
Proof.
  intros Hall. revert recs.
  induction Hall as [|m rest [s Hs] Hrest IH]; intros recs Hd; [reflexivity|].
  cbn [map] in Hd. inversion Hd as [|? ? Hfresh Hd']; subst.
  cbn [missing filter].
  destruct (existsb (has_prop "imei" (obj_get "imei" m)) recs); cbn [negb];
    [now apply IH|].
  f_equal. rewrite (IH _ Hd'). apply filter_ext_in. intros x Hx.
  rewrite existsb_app. cbn [existsb]. rewrite Bool.orb_false_r.
  assert (Hne : has_prop "imei" (obj_get "imei" x) m = false).
  { rewrite Forall_forall in Hrest. destruct (Hrest x Hx) as [t Ht].
    unfold has_prop. rewrite Hs, Ht. cbn [strict_equals_opt strict_equals].
    apply String.eqb_neq. intros ->. apply Hfresh.
    rewrite Hs, <- Ht. now apply in_map. }
  now rewrite Hne, Bool.orb_false_r.
Qed.

Lemma generate_page_objs (clock : nat -> Z) (p : page) (recs : list obj)
    (editing : bool) (eid : value) (ls : localStorage) :
  mgr p = manager_of recs editing eid ls ->
  exists ls',
    mgr (after (generateTestData true clock p))
    = manager_of (recs ++ missing (testMobilesAt clock) recs) editing eid ls'.
Proof.
  intros Hm. destruct (generateTestData_after true clock p) as [H _].
  cbv zeta in H. rewrite H, Hm, push_missing_objs.
  apply saveInventory_manager_of.
Qed.

(** [generateTestData()] with the confirmation granted appends, after the
    records that are there and in the order of the list, the samples whose
    IMEI no record carried, each as the list has it; every IMEI of the list
    is then in the inventory, and a second run right after the first
    appends nothing, whatever the clock says then, and whether the redraw
    threw or not. *)
Theorem samples_once (recs : list obj) (editing : bool) (eid : value)
    (ls : localStorage) (clock1 clock2 : nat -> Z) (p : page) :
  mgr p = manager_of recs editing eid ls ->
  let added :=
    filter (fun m => negb (existsb (has_prop "imei" (obj_get "imei" m)) recs))
      (testMobilesAt clock1) in
  let p1 := after (generateTestData true clock1 p) in
  inventory (mgr p1) = inv_of (recs ++ added)
  /\ (forall m, In m (testMobilesAt clock1) ->
        existsb (has_prop "imei" (obj_get "imei" m)) (recs ++ added) = true)
  /\ inventory (mgr (after (generateTestData true clock2 p1))) = inventory (mgr p1).
Proof.
  intros Hm added p1.
  assert (Hadded : missing (testMobilesAt clock1) recs = added).
  { apply missing_filter; [apply testMobilesAt_imei | apply testMobilesAt_distinct]. }
  destruct (generate_page_objs clock1 p recs editing eid ls Hm) as [ls1 H1].
  fold p1 in H1. rewrite Hadded in H1.
  assert (Hall : forall m, In m (testMobilesAt clock1) ->
            existsb (has_prop "imei" (obj_get "imei" m)) (recs ++ added) = true).
  { intros m Hin.
    pose proof (testMobilesAt_imei clock1) as Himei. rewrite Forall_forall in Himei.
    destruct (Himei m Hin) as [s Hs]. rewrite Hs, <- Hadded.
    exact (missing_present _ recs m s (testMobilesAt_imei clock1) Hin Hs). }
  split; [now rewrite H1|]. split; [exact Hall|].
  destruct (generate_page_objs clock2 p1 (recs ++ added) editing eid ls1 H1)
    as [ls2 H2].
  rewrite H2, H1. cbn [inventory manager_of].
  rewrite missing_none; [now rewrite List.app_nil_r|].
  apply Forall_forall. intros m Hm2.
  apply (in_map (obj_get "imei")) in Hm2.
  rewrite (testMobilesAt_same_imei clock2 clock1) in Hm2.
  apply in_map_iff in Hm2. destruct Hm2 as (m1 & Heq & Hin1).
  pose proof (testMobilesAt_imei clock1) as Himei. rewrite Forall_forall in Himei.
  destruct (Himei m1 Hin1) as [s Hs]. exists s.
  split; [now rewrite <- Heq|]. rewrite <- Hs. now apply Hall.
Qed.

(** The samples on an inventory that holds the first of them already. *)
Lemma samples_once_witness :
  let held := sample 7 "Samsung" "Galaxy A54" "123456789012345" "8GB" "128GB" true in
  let p := {| mgr := manager_of [held] false VNull (empty_storage 4096);
              imei_disabled := false; searchInput := "";
              errorMessage := None; waiting := [] |} in
  let p1 := after (generateTestData true (fun k => 1700000000000 + Z.of_nat k)%Z p) in
  (exists l, inventory (mgr p1) = VArr (VObj held :: l) /\ List.length l = 14)
  /\ inventory (mgr (after (generateTestData true (fun _ => 1800000000000%Z) p1)))
     = inventory (mgr p1).
Proof.
  intros held p p1.
  destruct (samples_once [held] false VNull (empty_storage 4096)
              (fun k => 1700000000000 + Z.of_nat k)%Z (fun _ => 1800000000000%Z)
              p eq_refl) as (H1 & _ & H3).
  split; [|exact H3].
  fold p1 in H1. rewrite H1. eexists. split; reflexivity.
Defined.


(** *** Memory and storage *)

Lemma kept_refl (st : manager) : saved_or_kept st st.
Proof. left. now split. Qed.

Lemma saved_after (st saved : manager) :
  store saved = store st ->
  saved_or_kept st (fst (Inventory.saveInventory saved)).
Proof.
  intros H. right. exists saved. split; [exact H|].
  split; [apply saveInventory_inventory | reflexivity].
Qed.

Lemma saved_or_kept_reset (st st' : manager) :
  saved_or_kept st st' -> saved_or_kept st (Inventory.resetEditMode st').
Proof. intros [H | H]; [left | right]; exact H. Qed.

Lemma addMobile_saves (now : Z) (md : obj) (st : manager) :
  saved_or_kept st (state_after (Inventory.addMobile now md st) st).
Proof.
  unfold Inventory.addMobile.
  destruct (as_array (inventory st)) as [l|e]; cbn [bind state_after];
    [|apply kept_refl].
  destruct (Inventory.saveInventory _) as [st1 ns1] eqn:Es.
  change st1 with (fst (st1, ns1)). rewrite <- Es. now apply saved_after.
Qed.

Lemma updateMobile_saves (id : value) (md : obj) (st : manager) :
  saved_or_kept st (state_after (Inventory.updateMobile id md st) st).
Proof.
  unfold Inventory.updateMobile.
  destruct (as_array (inventory st)) as [l|e]; cbn [bind state_after];
    [|apply kept_refl].
  destruct (array_findIndex _ l) as [[i|]|e]; cbn [bind state_after];
    try apply kept_refl.
  destruct (Inventory.saveInventory _) as [st1 ns1] eqn:Es.
  change st1 with (fst (st1, ns1)). rewrite <- Es. now apply saved_after.
Qed.

Lemma handle_saved_or_kept (a : action) (st : manager) :
  saved_or_kept st (state_after (handle a st) st).
Proof.
  destruct (handle a st) as [[st' ns]|e] eqn:E; cbn [state_after];
    [|apply kept_refl].
  destruct (handle_saves _ _ _ _ E) as [H | (saved & H1 & H2 & H3 & _)];
    [now left|].
  right. now exists saved.
Qed.

Lemma finish_saves (now : Z) (md : obj) (p : page) :
  saved_or_kept (mgr p) (mgr (after (finish now md p))).
Proof.
  destruct (finish_after now md p) as (_ & _ & [(_ & -> & _) | (_ & -> & _)]);
    [apply saved_or_kept_reset|];
    destruct (isEditing (mgr p));
    try apply updateMobile_saves; apply addMobile_saves.
Qed.

(** Whatever the event, inventory and storage are as they were, or the
    event ended its writing with a save. *)
Lemma page_step_saves (e : event) (p : page) :
  saved_or_kept (mgr p) (mgr (after (page_step e p))).
Proof.
  destruct e as [now fd | k now | confirmed id | confirmed id | id |
                 | confirmed clock | input |]; cbn [page_step].
  - unfold handleFormSubmit.
    destruct (brand <- trimmed (get_brand (FormData p fd)) ;;
              model <- trimmed (get_model (FormData p fd)) ;;
              imei <- trimmed (get_imei (FormData p fd)) ;;
              Ok (brand, model, imei)) as [[[brand model] imei]|e];
      [|apply kept_refl].
    destruct (negb (validateIMEI imei)); [apply kept_refl|].
    destruct (if isEditing (mgr p) then Ok false
              else isDuplicateIMEI (Some (VStr imei)) (mgr p)) as [[|]|e];
      try apply kept_refl.
    destruct (get_photo (FormData p fd)) as [photo|]; [|apply finish_saves].
    destruct (size photo >? 0)%Z; [|apply finish_saves].
    destruct (size photo >? 5 * 1024 * 1024)%Z; apply kept_refl.
  - unfold photoRead.
    destruct (nth_error (waiting p) k) as [s|]; [|apply kept_refl].
    destruct (dataURL (photoFile s)) as [url|]; [|apply kept_refl].
    apply (finish_saves now _ (set_waiting p (remove_nth k (waiting p)))).
  - destruct (deleteMobile_after confirmed id p) as [-> _].
    apply (handle_saved_or_kept (Delete confirmed id)).
  - destruct (markAsSold_after confirmed id p) as [-> _].
    apply (handle_saved_or_kept (MarkSold confirmed id)).
  - destruct (editMobile_after id p) as [-> _].
    unfold Inventory.editMobile.
    destruct (as_array (inventory (mgr p))) as [l|e]; cbn [bind];
      [|apply kept_refl].
    destruct (array_find _ l) as [[found|]|e]; cbn [bind]; try apply kept_refl.
    left. now split.
  - left. now split.
  - destruct (generateTestData_after confirmed clock p) as [-> _].
    destruct confirmed; [|apply kept_refl].
    destruct (push_missing (testMobilesAt clock) (mgr p)) as [st1|e] eqn:Ep;
      [|apply kept_refl].
    apply saved_after. now apply push_missing_store in Ep.
  - destruct (seq_neutral (fun q => done (set_search q input)) displayInventory p
                neutral_displayInventory) as [-> _].
    apply kept_refl.
  - apply kept_refl.
Qed.

(** Whatever the event, the stored text afterwards is the inventory in
    memory, so that a restart loads it, unless the storage refused the
    write of that inventory, in which case it is as it was before the
    event.  This is for an inventory on which the model is the engine. *)
Theorem restart_gives_memory (e : event) (p : page) :
  in_sync (mgr p) ->
  let st' := mgr (after (page_step e p)) in
  exact (inventory st') = true ->
  inventory (new_manager (store st')) = inventory st'
  \/ (store st' = store (mgr p)
      /\ setItem storageKey (JSON_stringify (inventory st')) (store (mgr p))
         = Throw QuotaExceededError).
Proof.
  intros Hsync st' Hx. unfold exact in Hx. apply andb_true_iff in Hx.
  destruct Hx as [Hu _]. unfold in_sync in Hsync.
  destruct (page_step_saves e p) as [[Hi Hs] | (saved & Hstore & Hi & Hs)];
    fold st' in Hi, Hs.
  - left. cbn [new_manager inventory]. now rewrite Hs, Hi.
  - rewrite Hi in Hu |- *. unfold Inventory.saveInventory in Hs.
    destruct (setItem storageKey (JSON_stringify (inventory saved)) (store saved))
      as [ls|err] eqn:Eset; cbn [fst store with_store] in Hs.
    + left. rewrite Hs. now apply (persist_then_load_wf saved ls Hu Eset).
    + right. rewrite Hs, <- Hstore. split; [reflexivity|].
      rewrite Eset. f_equal. unfold setItem in Eset.
      destruct (usage _ <=? _)%nat; [discriminate | now inversion Eset].
Qed.

(** A record is deleted while a submission waits for its photo; the
    storage has room. *)
Lemma restart_gives_memory_witness :
  let p := after_events
             [FormSubmitted 1700000000000
                (form_of "Samsung" "Galaxy A54" "123456789012345" "8GB" "128GB");
              FormSubmitted 1700000000500
                (form_with_photo "Apple" "iPhone 13" "234567890123456" "4GB" "128GB"
                   1024 "data:image/png;base64,AAAA")]
             (new_page (empty_storage 4096) "") in
  List.length (waiting p) = 1
  /\ inventory
       (new_manager
          (store (mgr (after (page_step (DeleteClicked true (VNum 1700000000000)) p)))))
     = VArr [].
Proof.
  intros p. split; [reflexivity|].
  destruct (restart_gives_memory (DeleteClicked true (VNum 1700000000000)) p
              eq_refl eq_refl) as [H | [_ H]].
  - rewrite H. reflexivity.
  - vm_compute in H. discriminate H.
Defined.


(** *** A refused write and its banner *)

Lemma shown_displayInventory (q : page) : shown (displayInventory q) = [].
Proof. unfold displayInventory. now destruct (draw _ _). Qed.

Lemma seq_returned (f g : step) (p : page) :
  thrown ((f >> g) p) = None -> thrown (f p) = None.
Proof. unfold seq. destruct (thrown (f p)) eqn:E; [now rewrite E | reflexivity]. Qed.

Lemma addMobile_shown (now : Z) (mobileData : obj) (p : page) :
  thrown (addMobile now mobileData p) = None ->
  shown (addMobile now mobileData p)
  = notices_after (Inventory.addMobile now mobileData (mgr p)).
Proof.
  unfold addMobile, Inventory.addMobile. intros Hret.
  pose proof (seq_returned _ _ _ Hret) as Hsave.
  pose proof (seq_returned _ _ _ Hsave) as Hpush.
  rewrite (seq_returns _ _ _ Hsave). cbn [shown].
  rewrite shown_displayInventory, List.app_nil_r.
  destruct (as_array (inventory (mgr p))) as [l|e] eqn:El.
  2: { exfalso. unfold push, read in Hpush. rewrite El in Hpush.
       discriminate Hpush. }
  cbn [bind notices_after].
  assert (Hseq : (push (VObj (obj_spread [("id", VNum now)] mobileData))
                  >> saveInventory) p
                 = (assign (fun st => with_inventory st
                       (VArr (l ++ [VObj (obj_spread [("id", VNum now)] mobileData)])))
                    >> saveInventory) p).
  { unfold seq, push, read. now rewrite El. }
  rewrite Hseq.
  destruct (assign_save
              (VArr (l ++ [VObj (obj_spread [("id", VNum now)] mobileData)])) p)
    as (_ & _ & _ & Hs).
  cbv zeta in Hs. rewrite Hs.
  now destruct (Inventory.saveInventory _).
Qed.

Lemma finish_add_shown (now : Z) (md : obj) (p : page) :
  isEditing (mgr p) = false ->
  thrown (finish now md p) = None ->
  shown (finish now md p)
  = (notices_after (Inventory.addMobile now md (mgr p))
     ++ [ShowSuccess "Mobile added to inventory successfully!"])%list.
Proof.
  intros Hadd. unfold finish.
  set (body := (fun q : page =>
                  if isEditing (mgr q)
                  then (updateMobile (editingId (mgr q)) md
                        >> showSuccess "Mobile updated successfully!") q
                  else (addMobile now md
                        >> showSuccess "Mobile added to inventory successfully!") q)).
  assert (Hbody : body p = (addMobile now md
                            >> showSuccess "Mobile added to inventory successfully!") p).
  { unfold body. now rewrite Hadd. }
  intros Hret.
  pose proof (seq_returned _ _ _ Hret) as Hhide.
  pose proof (seq_returned _ _ _ Hhide) as Hb.
  rewrite (seq_returns _ _ _ Hhide), (seq_returns _ _ _ Hb).
  cbn [shown hideError resetEditMode done]. rewrite !List.app_nil_r.
  rewrite Hbody in Hb |- *.
  pose proof (seq_returned _ _ _ Hb) as Ha.
  rewrite (seq_returns _ _ _ Ha). cbn [shown showSuccess].
  now rewrite (addMobile_shown now md p Ha).
Qed.

(** A submission whose record the storage refuses is pushed all the same:
    [saveInventory] puts up the storage banner, and when the redraw
    completes the handler goes on to the success banner and to
    [hideError()] (line 166), which hides the storage banner in the same
    run.  The page ends with the success banner alone, the record in
    memory, and the storage as it was. *)
Theorem refused_add_hides_banner (now : Z) (fd : formData)
    (brand model raw : string) (recs : list obj) (eid : value)
    (ls : localStorage) (e : exn) (p : page) :
  mgr p = manager_of recs false eid ls ->
  imei_disabled p = false ->
  get_brand fd = Some brand -> get_model fd = Some model ->
  get_imei fd = Some raw ->
  submitted_image fd = Ok VNull ->
  fifteen_digits (trim raw) ->
  existsb (has_prop "imei" (Some (VStr (trim raw)))) recs = false ->
  let mobile := new_record now (trim brand) (trim model) (trim raw)
                  (get_ram fd) (get_storage fd) VNull in
  setItem storageKey (JSON_stringify (inv_of (recs ++ [mobile]))) ls = Throw e ->
  let o := handleFormSubmit now fd p in
  thrown o = None ->
  shown o = [storage_failure;
             ShowSuccess "Mobile added to inventory successfully!"]
  /\ errorMessage (after o) = None
  /\ inventory (mgr (after o)) = inv_of (recs ++ [mobile])
  /\ store (mgr (after o)) = ls.
Proof.
  intros Hm Hd Hb Hmo Hi Hph Hv Hfresh mobile Hset o.
  apply validateIMEI_spec in Hv.
  pose proof (submit_begin_objs now fd p recs eid ls brand model raw
                Hm Hd Hb Hmo Hi) as H.
  cbv zeta in H. rewrite Hv, Hfresh in H. cbn [negb] in H.
  assert (Hfin : handleFormSubmit now fd p
                 = finish now (form_fields (trim brand) (trim model) (trim raw)
                                 (get_ram fd) (get_storage fd) VNull) p).
  { rewrite H. unfold submitted_image, processImage in Hph.
    destruct (get_photo fd) as [photo|]; [|reflexivity].
    destruct (size photo >? 0)%Z; [|reflexivity].
    destruct (size photo >? 5 * 1024 * 1024)%Z; [discriminate Hph|].
    destruct (dataURL photo); discriminate Hph. }
  unfold o. rewrite Hfin. clear H Hfin. intros Hret.
  assert (Hadd : isEditing (mgr p) = false) by now rewrite Hm.
  rewrite (finish_add_shown _ _ _ Hadd Hret).
  destruct (finish_after now (form_fields (trim brand) (trim model) (trim raw)
                                (get_ram fd) (get_storage fd) VNull) p)
    as (_ & _ & [(_ & Hmgr & _ & Herr) | (Hthrown & _)]); [|congruence].
  cbv zeta in Hmgr. rewrite Hadd in Hmgr.
  rewrite Hmgr, Herr, Hm, addMobile_objs.
  unfold settle, Inventory.saveInventory, with_inventory.
  cbn [inventory store manager_of]. fold mobile. rewrite Hset.
  cbn [notices_after state_after Inventory.resetEditMode inventory store app].
  now repeat split.
Qed.

(** A first record on a storage with room for sixteen characters. *)
Lemma refused_add_hides_banner_witness :
  let p := new_page (empty_storage 16) "" in
  let o := handleFormSubmit 1700000000000
             (form_of "Samsung" "Galaxy A54" "123456789012345" "8GB" "128GB") p in
  shown o = [storage_failure;
             ShowSuccess "Mobile added to inventory successfully!"]
  /\ errorMessage (after o) = None
  /\ List.length (match inventory (mgr (after o)) with VArr l => l | _ => [] end) = 1
  /\ loadInventory (store (mgr (after o))) = VArr [].
Proof.
  intros p o.
  destruct (refused_add_hides_banner 1700000000000
              (form_of "Samsung" "Galaxy A54" "123456789012345" "8GB" "128GB")
              "Samsung" "Galaxy A54" "123456789012345" [] VNull
              (empty_storage 16) QuotaExceededError p
              eq_refl eq_refl eq_refl eq_refl eq_refl eq_refl
              (proj1 (validateIMEI_spec "123456789012345") eq_refl)
              eq_refl eq_refl eq_refl)
    as (H1 & H2 & H3 & H4).
  fold o in H1, H2, H3, H4.
  split; [exact H1|]. split; [exact H2|].
  split; [rewrite H3; reflexivity | rewrite H4; reflexivity].
Defined.


(** *** The IMEIs of the records on the page *)

Lemma mgr_shape (st : manager) (recs : list obj) :
  inventory st = inv_of recs ->
  st = manager_of recs (isEditing st) (editingId st) (store st).
Proof. destruct st as [inv ed eid ls]. cbn. now intros ->. Qed.

Lemma not_in_fresh (k s : string) (recs : list obj) :
  (forall j o, nth_error recs j = Some o -> obj_get k o <> Some (VStr s)) ->
  ~ In (Some (VStr s)) (map (obj_get k) recs).
Proof.
  intros H Hin. apply in_map_iff in Hin. destruct Hin as (o & Ho & Hin).
  apply In_nth_error in Hin. destruct Hin as [j Hj]. exact (H j o Hj Ho).
Qed.

(** The end of a submission on records: the method it calls. *)
Lemma finish_unique_mgr (now : Z) (brand model imei : string)
    (ram storage : option string) (img : value) (recs : list obj)
    (ed : bool) (eid : value) (ls : localStorage) :
  unique_imei recs ->
  (forall j o,
      nth_error recs j = Some o ->
      (ed = true -> index_of (has_prop "id" (Some eid)) recs <> Some j) ->
      obj_get "imei" o <> Some (VStr imei)) ->
  exists recs',
    inventory
      (if ed
       then state_after
              (Inventory.updateMobile eid
                 (form_fields brand model imei ram storage img)
                 (manager_of recs ed eid ls))
              (manager_of recs ed eid ls)
       else state_after
              (Inventory.addMobile now
                 (form_fields brand model imei ram storage img)
                 (manager_of recs ed eid ls))
              (manager_of recs ed eid ls))
    = inv_of recs'
    /\ unique_imei recs'.
Proof.
  intros Hu Hfresh. destruct ed.
  - pose proof (updateMobile_objs recs eid
                  (form_fields brand model imei ram storage img)
                  true eid ls) as H.
    cbv zeta in H. rewrite H. clear H.
    destruct (index_of (has_prop "id" (Some eid)) recs)
      as [i|] eqn:Ei; [|exists recs; now split].
    destruct (nth_error recs i) as [old|] eqn:Eo; [|exists recs; now split].
    cbn [state_after].
    match goal with
    | |- context [Inventory.saveInventory ?x] =>
        pose proof (saveInventory_inventory x) as Hs;
        destruct (Inventory.saveInventory x) as [st1 ns1]
    end.
    cbn [fst] in Hs. eexists. split; [exact Hs|].
    destruct (merged_fields old eid brand model imei
                ram storage img) as (_ & Himei & _).
    apply NoDup_map_array_set; [exact Hu|].
    intros j o Hj Hne. rewrite Himei. apply (Hfresh j o Hj).
    intros _ Heq. apply Hne. congruence.
  - rewrite addMobile_objs. cbn [state_after].
    match goal with
    | |- context [settle ?x ?l] =>
        pose proof (settle_inventory x l) as Hs;
        destruct (settle x l) as [st1 ns1]
    end.
    cbn [fst] in Hs. eexists. split; [exact Hs|].
    apply NoDup_map_app_one; [exact Hu|].
    change (obj_get "imei" (new_record now brand model imei ram storage img))
      with (Some (VStr imei)).
    apply not_in_fresh. intros j o Hj. apply (Hfresh j o Hj). discriminate.
Qed.

(** The end of a submission on the page. *)
Lemma finish_unique (now : Z) (brand model imei : string)
    (ram storage : option string) (img : value) (p : page) (recs : list obj) :
  inventory (mgr p) = inv_of recs ->
  unique_imei recs ->
  (forall j o,
      nth_error recs j = Some o ->
      (isEditing (mgr p) = true ->
       index_of (has_prop "id" (Some (editingId (mgr p)))) recs <> Some j) ->
      obj_get "imei" o <> Some (VStr imei)) ->
  exists recs',
    inventory (mgr (after (finish now
                             (form_fields brand model imei ram storage img) p)))
    = inv_of recs'
    /\ unique_imei recs'.
Proof.
  intros Hinv Hu Hfresh.
  pose proof (finish_unique_mgr now brand model imei ram storage img recs
                (isEditing (mgr p)) (editingId (mgr p)) (store (mgr p))
                Hu Hfresh) as (recs' & Hi & Hu').
  rewrite <- (mgr_shape _ _ Hinv) in Hi.
  exists recs'. split; [|exact Hu'].
  destruct (finish_after now (form_fields brand model imei ram storage img) p)
    as (_ & _ & [(_ & -> & _) | (_ & -> & _)]); exact Hi.
Qed.

(** *** The edit mode and the IMEI field *)

Lemma saveInventory_mode (st : manager) :
  isEditing (fst (Inventory.saveInventory st)) = isEditing st.
Proof. unfold Inventory.saveInventory. now destruct (setItem _ _ _). Qed.

Ltac save_mode :=
  match goal with
  | |- context [Inventory.saveInventory ?x] =>
      let H := fresh "Hs" in
      pose proof (saveInventory_mode x) as H;
      destruct (Inventory.saveInventory x) as [? ?];
      cbn [fst state_after] in *; exact H
  end.

Lemma addMobile_mode (now : Z) (md : obj) (st : manager) :
  isEditing (state_after (Inventory.addMobile now md st) st) = isEditing st.
Proof.
  unfold Inventory.addMobile.
  destruct (as_array (inventory st)); cbn [bind state_after]; [|reflexivity].
  save_mode.
Qed.

Lemma updateMobile_mode (id : value) (md : obj) (st : manager) :
  isEditing (state_after (Inventory.updateMobile id md st) st) = isEditing st.
Proof.
  unfold Inventory.updateMobile.
  destruct (as_array (inventory st)); cbn [bind state_after]; [|reflexivity].
  destruct (array_findIndex _ _) as [[i|]|]; cbn [bind state_after];
    try reflexivity.
  save_mode.
Qed.

Lemma deleteMobile_mode (confirmed : bool) (id : value) (st : manager) :
  isEditing (state_after (Inventory.deleteMobile confirmed id st) st)
  = isEditing st.
Proof.
  unfold Inventory.deleteMobile. destruct confirmed; [|reflexivity].
  destruct (as_array (inventory st)); cbn [bind state_after]; [|reflexivity].
  destruct (array_filter _ _); cbn [bind state_after]; [|reflexivity].
  save_mode.
Qed.

Lemma markAsSold_mode (confirmed : bool) (id : value) (st : manager) :
  isEditing (state_after (Inventory.markAsSold confirmed id st) st)
  = isEditing st.
Proof.
  unfold Inventory.markAsSold. destruct confirmed; [|reflexivity].
  destruct (as_array (inventory st)); cbn [bind state_after]; [|reflexivity].
  destruct (array_find _ _) as [[[i m]|]|]; cbn [bind state_after];
    try reflexivity.
  save_mode.
Qed.

Lemma editMobile_disabled (id : value) (p : page) :
  imei_disabled p = true -> imei_disabled (after (editMobile id p)) = true.
Proof.
  intros Hd. unfold editMobile, read.
  destruct (l <- as_array (inventory (mgr p)) ;;
            array_find (prop_is "id" (Some id)) l) as [[[i mobile]|]|e];
    cbn [after]; try exact Hd.
  unfold seq, assign, prefill. cbn [after thrown done throw].
  repeat match goal with
         | |- context [if ?b then _ else _] => destruct b; cbn [after thrown done throw set_disabled set_mgr imei_disabled]
         end; try reflexivity; exact Hd.
Qed.

(** A page in edit mode with its IMEI field disabled stays so under every
    event, when [editMobile] runs to its end. *)
Lemma locked_kept (e : event) (p : page) :
  locked p ->
  (forall id, e = EditClicked id -> thrown (page_step e p) = None) ->
  locked (after (page_step e p)).
Proof.
  intros Hlock Hedit.
  assert (Hfinish : forall now md q,
             locked q -> locked (after (finish now md q))).
  { intros now md q Hq.
    destruct (finish_after now md q)
      as (_ & _ & [(_ & Hm & Hd & _) | (_ & Hm & Hd)]);
      cbv zeta in Hm; unfold locked; rewrite Hm.
    - intros H. discriminate H.
    - rewrite Hd. destruct (isEditing (mgr q)) eqn:Eq.
      + rewrite updateMobile_mode. exact Hq.
      + rewrite addMobile_mode. exact Hq. }
  destruct e as [now fd | k now | confirmed id | confirmed id | id |
                 | confirmed clock | input |]; cbn [page_step].
  - unfold handleFormSubmit.
    destruct (brand <- trimmed (get_brand (FormData p fd)) ;;
              model <- trimmed (get_model (FormData p fd)) ;;
              imei <- trimmed (get_imei (FormData p fd)) ;;
              Ok (brand, model, imei)) as [[[brand model] imei]|e];
      [|exact Hlock].
    destruct (negb (validateIMEI imei)); [exact Hlock|].
    destruct (if isEditing (mgr p) then Ok false
              else isDuplicateIMEI (Some (VStr imei)) (mgr p)) as [[|]|e];
      try exact Hlock.
    destruct (get_photo (FormData p fd)) as [photo|]; [|now apply Hfinish].
    destruct (size photo >? 0)%Z; [|now apply Hfinish].
    destruct (size photo >? 5 * 1024 * 1024)%Z; exact Hlock.
  - unfold photoRead.
    destruct (nth_error (waiting p) k) as [s|]; [|exact Hlock].
    destruct (dataURL (photoFile s)) as [url|]; [|exact Hlock].
    apply Hfinish. exact Hlock.
  - destruct (deleteMobile_after confirmed id p) as [Hm Hc].
    unfold locked. rewrite Hm, deleteMobile_mode.
    injection Hc as -> _ _. exact Hlock.
  - destruct (markAsSold_after confirmed id p) as [Hm Hc].
    unfold locked. rewrite Hm, markAsSold_mode.
    injection Hc as -> _ _. exact Hlock.
  - destruct (editMobile_after id p) as (Hm & _ & _ & Hd).
    cbv zeta in Hd. intros Hed.
    destruct (isEditing (mgr p)) eqn:Ep.
    + apply editMobile_disabled. now apply Hlock.
    + apply Hd; [exact (Hedit id eq_refl) | reflexivity | exact Hed].
  - unfold cancelEdit.
    destruct (seq_neutral resetEditMode hideError p neutral_hideError)
      as [Hm Hc].
    unfold locked. rewrite Hm. intros H. discriminate H.
  - destruct (generateTestData_after confirmed clock p) as [Hm Hc].
    cbv zeta in Hm, Hc. unfold locked. rewrite Hm.
    injection Hc as -> _ _.
    destruct confirmed; [|exact Hlock].
    destruct (push_missing (testMobilesAt clock) (mgr p)) as [st1|e] eqn:Ep;
      [|exact Hlock].
    rewrite saveInventory_mode.
    destruct (push_missing_store _ _ _ Ep) as (_ & -> & _). exact Hlock.
  - destruct (seq_neutral (fun q => done (set_search q input)) displayInventory p
                neutral_displayInventory) as [Hm Hc].
    assert (Hd : imei_disabled
                   (after (((fun q => done (set_search q input))
                            >> displayInventory) p))
                 = imei_disabled p).
    { unfold controls in Hc. now injection Hc. }
    unfold locked. rewrite Hm, Hd. exact Hlock.
  - exact Hlock.
Qed.

(** On a page whose IMEI field is disabled whenever it is in edit mode,
    every event keeps the IMEIs of the records distinct; for the end of a
    submission that waited for its photo this is under the condition that
    no record carries its IMEI at the time it ends (the record being
    edited apart, when edit mode was entered meanwhile), the waiting
    submission being one that [handleFormSubmit] built.  The page stays
    such a page, when [editMobile] runs to its end. *)
Theorem unique_imei_kept (e : event) (p : page) (recs : list obj) :
  inventory (mgr p) = inv_of recs ->
  unique_imei recs ->
  locked p ->
  resumes_fresh e p recs ->
  (exists recs',
      inventory (mgr (after (page_step e p))) = inv_of recs'
      /\ unique_imei recs')
  /\ ((forall id, e = EditClicked id -> thrown (page_step e p) = None) ->
      locked (after (page_step e p))).
Proof.
  intros Hinv Hu Hlock Hres. split; [|now apply locked_kept].
  assert (Hsame : exists recs', inventory (mgr p) = inv_of recs' /\ unique_imei recs')
    by (exists recs; now split).
  pose proof (mgr_shape _ _ Hinv) as Hshape.
  destruct e as [now fd | k now | confirmed id | confirmed id | id |
                 | confirmed clock | input |]; cbn [page_step].
  - destruct (imei_disabled p) eqn:Hd.
    + assert (Hthrow : handleFormSubmit now fd p
                       = {| after := p; shown := []; thrown := Some TypeError |}).
      { unfold handleFormSubmit, FormData. rewrite Hd.
        cbn [get_brand get_model get_imei].
        destruct (get_brand fd); cbn [trimmed bind]; [|reflexivity].
        destruct (get_model fd); reflexivity. }
      rewrite Hthrow. exact Hsame.
    + assert (Hadd : isEditing (mgr p) = false).
      { destruct (isEditing (mgr p)) eqn:E; [|reflexivity].
        specialize (Hlock E). congruence. }
      rewrite Hadd in Hshape.
      destruct (get_brand fd) as [brand|] eqn:Hb;
        [|unfold handleFormSubmit, FormData;
          cbn [get_brand get_model get_imei]; rewrite Hb; exact Hsame].
      destruct (get_model fd) as [model|] eqn:Hmo;
        [|unfold handleFormSubmit, FormData;
          cbn [get_brand get_model get_imei]; rewrite Hb, Hmo; exact Hsame].
      destruct (get_imei fd) as [raw|] eqn:Hi;
        [|unfold handleFormSubmit, FormData;
          cbn [get_brand get_model get_imei]; rewrite Hd, Hb, Hmo, Hi;
          exact Hsame].
      pose proof (submit_begin_objs now fd p recs _ _ brand model raw
                    Hshape Hd Hb Hmo Hi) as H.
      cbv zeta in H. rewrite H. clear H.
      destruct (negb (validateIMEI (trim raw))); [exact Hsame|].
      destruct (existsb (has_prop "imei" (Some (VStr (trim raw)))) recs) eqn:Hdup;
        [exact Hsame|].
      assert (Hfin : exists recs',
                 inventory
                   (mgr (after (finish now
                                  (form_fields (trim brand) (trim model) (trim raw)
                                     (get_ram fd) (get_storage fd) VNull) p)))
                 = inv_of recs'
                 /\ unique_imei recs').
      { apply (finish_unique now _ _ _ _ _ _ p recs Hinv Hu).
        intros j o Hj _ Ho. apply (fresh_not_in "imei" (trim raw) recs Hdup).
        rewrite <- Ho. apply in_map. now apply nth_error_In in Hj. }
      destruct (get_photo fd) as [photo|]; [|exact Hfin].
      destruct (size photo >? 0)%Z; [|exact Hfin].
      destruct (size photo >? 5 * 1024 * 1024)%Z; exact Hsame.
  - unfold photoRead. cbn [resumes_fresh] in Hres.
    destruct (nth_error (waiting p) k) as [s|]; [|exact Hsame].
    destruct (Hres s eq_refl) as (brand & model & imei & ram & storage & Hs & Hfresh).
    destruct (dataURL (photoFile s)) as [url|]; [|exact Hsame].
    rewrite Hs.
    apply (finish_unique now brand model imei ram storage (VStr url)
             (set_waiting p (remove_nth k (waiting p))) recs Hinv Hu Hfresh).
  - destruct (deleteMobile_after confirmed id p) as [-> _].
    rewrite Hshape. eexists.
    split; [apply (delete_objs confirmed id recs)|].
    destruct confirmed; [now apply NoDup_map_filter | exact Hu].
  - destruct (markAsSold_after confirmed id p) as [-> _].
    rewrite Hshape.
    destruct (markSold_objs confirmed id recs (isEditing (mgr p))
                (editingId (mgr p)) (store (mgr p)))
      as [H | (i & old & Hidx & Hold & H)].
    + exists recs. split; [exact H | exact Hu].
    + eexists. split; [exact H|]. unfold unique_imei.
      rewrite (map_array_set_same _ i old); [exact Hu | exact Hold |].
      apply sold_fields.
  - destruct (editMobile_after id p) as [-> _].
    exists recs. split; [|exact Hu].
    unfold Inventory.editMobile.
    destruct (as_array (inventory (mgr p))); cbn [bind]; [|exact Hinv].
    destruct (array_find _ _) as [[m|]|]; cbn [bind]; exact Hinv.
  - exact Hsame.
  - destruct confirmed.
    + destruct (generate_page_objs clock p recs _ _ _ Hshape) as [ls' H].
      eexists. split; [rewrite H; reflexivity|].
      apply missing_unique; [apply testMobilesAt_imei | exact Hu].
    + destruct (generateTestData_after false clock p) as [Hg _].
      cbv zeta in Hg. rewrite Hg. exact Hsame.
  - destruct (seq_neutral (fun q => done (set_search q input)) displayInventory p
                neutral_displayInventory) as [-> _].
    exact Hsame.
  - exact Hsame.
Qed.

(** A submission with a photo whose IMEI no record carries when the
    reading ends. *)
Lemma unique_imei_kept_witness :
  let held := sample 7 "Vivo" "V27 Pro" "901234567890123" "8GB" "256GB" false in
  let p := after (page_step
                    (FormSubmitted 1700000000000
                       (form_with_photo "Oppo" "Reno 8" "012345678901234" "8GB"
                          "128GB" 1024 "data:image/png;base64,AAAA"))
                    {| mgr := manager_of [held] false VNull (empty_storage 4096);
                       imei_disabled := false; searchInput := "";
                       errorMessage := None; waiting := [] |}) in
  List.length (waiting p) = 1
  /\ (exists recs',
         inventory (mgr (after (page_step (PhotoRead 0 1700000000300) p)))
         = inv_of recs'
         /\ unique_imei recs')
  /\ locked (after (page_step (PhotoRead 0 1700000000300) p)).
Proof.
  intros held p. split; [reflexivity|].
  assert (H : (exists recs',
                  inventory (mgr (after (page_step (PhotoRead 0 1700000000300) p)))
                  = inv_of recs'
                  /\ unique_imei recs')
              /\ ((forall id, PhotoRead 0 1700000000300 = EditClicked id ->
                   thrown (page_step (PhotoRead 0 1700000000300) p) = None) ->
                  locked (after (page_step (PhotoRead 0 1700000000300) p))));
    [|split; [exact (proj1 H) | apply (proj2 H); intros id Hid; discriminate Hid]].
  apply (unique_imei_kept (PhotoRead 0 1700000000300) p [held]).
  - reflexivity.
  - unfold unique_imei. cbn. repeat constructor. intros [].
  - intros H. discriminate H.
  - intros s Hs. injection Hs as <-.
    exists "Oppo", "Reno 8", "012345678901234", (Some "8GB"), (Some "128GB").
    split; [reflexivity|].
    intros [|[|j]] o Hj _; cbn in Hj; try discriminate Hj.
    injection Hj as <-. discriminate.
Defined.

End HandlerFacts.

(* ================================================================== *)
(** ** The cache worker: install, refill and the swap of generations *)
(* ================================================================== *)

Module CacheFacts.
Import JS Worker WorkerFacts.

Lemma cache_match_put_same (u : string) (r : response) (c : cache) :
  cache_match u (cache_put u r c) = Some r.
Proof.
  induction c as [|[u' r'] c IH]; simpl.
  - now rewrite String.eqb_refl.
  - destruct (String.eqb u' u) eqn:E; simpl; rewrite E; [reflexivity | exact IH].
Qed.

Lemma cache_match_put_other (u u' : string) (r : response) (c : cache) :
  u' <> u -> cache_match u' (cache_put u r c) = cache_match u' c.
Proof.
  intros Hne. induction c as [|[u0 r0] c IH]; simpl.
  - assert (H : String.eqb u u' = false) by (apply String.eqb_neq; congruence).
    now rewrite H.
  - destruct (String.eqb u0 u) eqn:E; simpl; [|now rewrite IH].
    apply String.eqb_eq in E. subst u0.
    assert (H : String.eqb u u' = false) by (apply String.eqb_neq; congruence).
    now rewrite H.
Qed.

Lemma caches_match_app (u : string) (cs more : cacheStorage) :
  caches_match u (cs ++ more)
  = match caches_match u cs with
    | Some r => Some r
    | None => caches_match u more
    end.
Proof.
  induction cs as [|[n c] cs IH]; simpl; [reflexivity|].
  now destruct (cache_match u c).
Qed.

Lemma caches_match_open (name u : string) (cs : cacheStorage) :
  caches_match u (caches_open name cs) = caches_match u cs.
Proof.
  unfold caches_open. destruct (caches_has name cs); [reflexivity|].
  rewrite caches_match_app. now destruct (caches_match u cs).
Qed.

Lemma caches_has_open (name : string) (cs : cacheStorage) :
  caches_has name (caches_open name cs) = true.
Proof.
  unfold caches_open. destruct (caches_has name cs) eqn:E; [exact E|].
  unfold caches_has, caches_keys. rewrite map_app, existsb_app. simpl.
  now rewrite String.eqb_refl, Bool.orb_true_r.
Qed.

Lemma caches_keys_in_cache (name : string) (f : cache -> cache)
    (cs : cacheStorage) :
  caches_keys (in_cache name f cs) = caches_keys cs.
Proof.
  unfold caches_keys, in_cache. rewrite map_map. apply map_ext.
  intros [n c]. simpl. now destruct (String.eqb n name).
Qed.

(** A change of the entry for [u] in the generation [name] shows in what
    [u] is answered with only when no generation answered for it before. *)
Lemma caches_match_put_miss (name u : string) (r : response) (cs : cacheStorage) :
  caches_match u cs = None ->
  caches_match u (in_cache name (cache_put u r) cs)
  = if caches_has name cs then Some r else None.
Proof.
  unfold caches_has, caches_keys.
  induction cs as [|[n c] cs IH]; simpl; intros H; [reflexivity|].
  destruct (cache_match u c) eqn:Ec; [discriminate|].
  rewrite (String.eqb_sym name n).
  destruct (String.eqb n name) eqn:En; simpl.
  - now rewrite cache_match_put_same.
  - rewrite Ec. now apply IH.
Qed.

Lemma caches_match_put_other (name u u' : string) (r : response)
    (cs : cacheStorage) :
  u' <> u ->
  caches_match u' (in_cache name (cache_put u r) cs) = caches_match u' cs.
Proof.
  intros Hne. induction cs as [|[n c] cs IH]; simpl; [reflexivity|].
  destruct (String.eqb n name); simpl;
    rewrite ?(cache_match_put_other u u' r c Hne), IH; reflexivity.
Qed.

(** *** Fetch: refill, then hit *)

(** Whatever a fetch does, every URL that was answered from the caches
    before it is answered with the same response after it, and no
    generation disappears. *)
Theorem fetch_keeps_cached (current : string) (req : request)
    (network : result (option response)) (cs : cacheStorage)
    (u : string) (r : response) :
  caches_match u cs = Some r ->
  caches_match u (snd (on_fetch current req network cs)) = Some r
  /\ incl (caches_keys cs) (caches_keys (snd (on_fetch current req network cs))).
Proof.
  intros Hu. unfold on_fetch.
  destruct (caches_match (url req) cs) as [hit|] eqn:Ereq;
    [split; [exact Hu | apply incl_refl]|].
  destruct network as [[answer|]|e]; cbn [not_cacheable].
  2: split; [exact Hu | apply incl_refl].
  2: destruct (String.eqb (destination req) "document");
       (split; [exact Hu | apply incl_refl]).
  destruct (negb (status answer =? 200)%Z
            || negb (String.eqb (type answer) "basic"));
    [split; [exact Hu | apply incl_refl]|].
  cbn [snd]. split.
  - rewrite caches_match_put_other, caches_match_open; [exact Hu|].
    intros ->. congruence.
  - rewrite caches_keys_in_cache. unfold caches_open.
    destruct (caches_has current cs); [apply incl_refl|].
    unfold caches_keys. rewrite map_app. apply incl_appl, incl_refl.
Qed.

(** The shell stays cached while another page is fetched and stored. *)
Lemma fetch_keeps_cached_witness :
  let shell := {| status := 200; type := "basic"; body := "<html>" |} in
  let page := {| status := 200; type := "basic"; body := "<p>" |} in
  let cs := [("mobile-inventory-v0", [("/index.html", shell)])] in
  let after := snd (on_fetch CACHE_NAME {| url := "/about"; destination := "document" |}
                      (Ok (Some page)) cs) in
  caches_match "/index.html" after = Some shell
  /\ incl (caches_keys cs) (caches_keys after).
Proof.
  intros shell page cs after.
  apply (fetch_keeps_cached CACHE_NAME
           {| url := "/about"; destination := "document" |}
           (Ok (Some page)) cs "/index.html" shell).
  reflexivity.
Defined.

(** The response of a fetch does not depend on whether the request is a
    [GET]; what the caches are asked does. *)
Lemma respond_same_caches (method : string) (req : request)
    (network : result (option response)) (cs cs' : cacheStorage) :
  (forall u, caches_match u cs' = caches_match u cs) ->
  respond method req network cs' = respond method req network cs.
Proof.
  intros H. unfold respond, match_request.
  now rewrite (H (url req)), (H "/index.html").
Qed.

(** A request that the caches do not answer and that the network answers
    with a response of status 200 and type basic is handed that response
    with the storage as it was, and a write of it is started.  While the
    write has not landed, a fetch of the same request with the network down
    gets the fallback.  The write of a [GET] that lands on a storage still
    without an answer for the URL stores the response, for that URL only:
    the next [GET] of it is answered with it whatever the network does,
    and starts no write.  The write of another method stores nothing, and
    a fetch is answered afterwards as before. *)
Theorem refill_then_hit (current method : string) (req : request)
    (r : response) (cs : cacheStorage) :
  match_request method (url req) cs = None ->
  not_cacheable (Some r) = false ->
  let w := {| put_method := method; put_url := url req; put_response := r |} in
  respond method req (Ok (Some r)) cs = (Some r, Some w)
  /\ (forall e,
        respond method req (Throw e) cs
        = (if String.eqb (destination req) "document"
           then caches_match "/index.html" cs else None, None))
  /\ (method = "GET" ->
      forall cs', caches_match (url req) cs' = None ->
        caches_match (url req) (land current w cs') = Some r
        /\ (forall u, u <> url req ->
              caches_match u (land current w cs') = caches_match u cs')
        /\ forall later,
             respond "GET" req later (land current w cs') = (Some r, None))
  /\ (method <> "GET" ->
      forall cs',
        (forall u, caches_match u (land current w cs') = caches_match u cs')
        /\ forall m req' later,
             respond m req' later (land current w cs')
             = respond m req' later cs').
Proof.
  intros Hmiss Hok w.
  split; [unfold respond; now rewrite Hmiss, Hok|].
  split; [intros e; unfold respond; rewrite Hmiss;
          now destruct (String.eqb (destination req) "document")|].
  split.
  - intros -> cs' Hmiss'.
    assert (Hhit : caches_match (url req) (land current w cs') = Some r).
    { unfold land, w. cbn [put_method put_url put_response]. cbv zeta.
      change (String.eqb "GET" "GET") with true. cbv iota.
      rewrite caches_match_put_miss by (now rewrite caches_match_open).
      now rewrite caches_has_open. }
    split; [exact Hhit|]. split.
    + intros u Hu. unfold land, w. cbn [put_method put_url put_response].
      cbv zeta. change (String.eqb "GET" "GET") with true. cbv iota.
      now rewrite caches_match_put_other, caches_match_open.
    + intros later. unfold respond, match_request.
      change (String.eqb "GET" "GET") with true. cbv iota.
      now rewrite Hhit.
  - intros Hne cs'.
    assert (Hsame : forall u,
               caches_match u (land current w cs') = caches_match u cs').
    { intros u. unfold land, w. cbn [put_method]. cbv zeta.
      apply String.eqb_neq in Hne. rewrite Hne. apply caches_match_open. }
    split; [exact Hsame|].
    intros m req' later. now apply respond_same_caches.
Qed.

(** A script is fetched on line, and again while the network is down,
    before and after its write has landed; a form is posted. *)
Lemma refill_then_hit_witness :
  let script := {| status := 200; type := "basic"; body := "let a" |} in
  let req := {| url := "/extra.js"; destination := "script" |} in
  let w := {| put_method := "GET"; put_url := "/extra.js";
              put_response := script |} in
  let reply := {| status := 200; type := "basic"; body := "saved" |} in
  let form := {| url := "/save"; destination := "" |} in
  let posted := {| put_method := "POST"; put_url := "/save";
                   put_response := reply |} in
  (respond "GET" req (Ok (Some script)) [] = (Some script, Some w)
   /\ respond "GET" req (Throw TypeError) [] = (None, None)
   /\ respond "GET" req (Throw TypeError) (land CACHE_NAME w [])
      = (Some script, None))
  /\ (respond "POST" form (Ok (Some reply)) [] = (Some reply, Some posted)
      /\ caches_match "/save" (land CACHE_NAME posted []) = None).
Proof.
  intros script req w reply form posted. split.
  - destruct (refill_then_hit CACHE_NAME "GET" req script [] eq_refl eq_refl)
      as (H1 & H2 & H3 & _).
    split; [exact H1|]. split; [exact (H2 TypeError)|].
    destruct (H3 eq_refl [] eq_refl) as (_ & _ & H). exact (H (Throw TypeError)).
  - destruct (refill_then_hit CACHE_NAME "POST" form reply [] eq_refl eq_refl)
      as (H1 & _ & _ & H4).
    split; [exact H1|].
    destruct (H4 ltac:(discriminate) []) as [H _]. exact (H "/save").
Defined.

(** *** Install *)

Lemma fetch_all_spec (network : string -> result response)
    (urls : list string) (fetched : cache) :
  fetch_all network urls = Ok fetched ->
  map fst fetched = urls
  /\ forall u, In u urls ->
       exists r, network u = Ok r
                 /\ (200 <=? status r)%Z && (status r <=? 299)%Z = true
                 /\ In (u, r) fetched.
Proof.
  revert fetched. induction urls as [|u urls IH]; cbn [fetch_all]; intros fetched H.
  - inversion H; subst. split; [reflexivity | intros u []].
  - destruct (network u) as [r|] eqn:En; cbn [bind] in H; [|discriminate].
    destruct ((200 <=? status r)%Z && (status r <=? 299)%Z) eqn:Eok;
      [|discriminate].
    destruct (negb (status r =? 206)%Z); cbn [andb] in H; [|discriminate].
    destruct (fetch_all network urls) as [rs|]; cbn [bind] in H; [|discriminate].
    inversion H; subst. destruct (IH rs eq_refl) as [Hk Hall].
    split; [cbn; now rewrite Hk|].
    intros u' [<-|Hin].
    + exists r. repeat split; try assumption. now left.
    + destruct (Hall u' Hin) as (r' & H1 & H2 & H3).
      exists r'. repeat split; try assumption. now right.
Qed.

Lemma fetch_all_fails (network : string -> result response)
    (urls : list string) (u : string) :
  In u urls ->
  (forall r, network u = Ok r ->
     (200 <=? status r)%Z && (status r <=? 299)%Z = false) ->
  exists e, fetch_all network urls = Throw e.
Proof.
  induction urls as [|u0 urls IH]; intros Hin Hbad; [contradiction|].
  cbn [fetch_all]. destruct (network u0) as [r|e] eqn:En; cbn [bind];
    [|now eexists].
  destruct ((200 <=? status r)%Z && (status r <=? 299)%Z) eqn:Eok;
    [|now eexists].
  destruct (negb (status r =? 206)%Z); cbn [andb]; [|now eexists].
  destruct Hin as [->|Hin]; [rewrite (Hbad r En) in Eok; discriminate|].
  destruct (IH Hin Hbad) as [e He]. rewrite He. now eexists.
Qed.

Lemma put_all_other (u : string) (fetched c : cache) :
  ~ In u (map fst fetched) ->
  cache_match u (fold_left (fun acc e => cache_put (fst e) (snd e) acc) fetched c)
  = cache_match u c.
Proof.
  revert c. induction fetched as [|[u0 r0] fetched IH]; intros c Hn;
    [reflexivity|].
  cbn [fold_left fst snd]. rewrite IH by (intros H; apply Hn; now right).
  apply cache_match_put_other. intros ->. apply Hn. now left.
Qed.

Lemma put_all_match (u : string) (r : response) (fetched c : cache) :
  NoDup (map fst fetched) -> In (u, r) fetched ->
  cache_match u (fold_left (fun acc e => cache_put (fst e) (snd e) acc) fetched c)
  = Some r.
Proof.
  revert c. induction fetched as [|[u0 r0] fetched IH]; intros c Hd Hin;
    [contradiction|].
  cbn [map fst] in Hd. inversion Hd as [|? ? Hfresh Hrest]; subst.
  cbn [fold_left fst snd]. destruct Hin as [Heq|Hin].
  - inversion Heq; subst. rewrite put_all_other by exact Hfresh.
    apply cache_match_put_same.
  - now apply IH.
Qed.

Lemma caches_match_all (u : string) (r : response) (cs : cacheStorage) :
  cs <> [] ->
  (forall g, In g cs -> cache_match u (snd g) = Some r) ->
  caches_match u cs = Some r.
Proof.
  destruct cs as [|[n c] cs]; intros Hne Hall; [congruence|].
  cbn [caches_match].
  pose proof (Hall (n, c) (or_introl eq_refl)) as H. cbn [snd] in H.
  now rewrite H.
Qed.

Lemma caches_has_in (name : string) (cs : cacheStorage) :
  caches_has name cs = true -> exists c, In (name, c) cs.
Proof.
  unfold caches_has, caches_keys. intros H. apply existsb_exists in H.
  destruct H as (n & Hin & Hn). apply String.eqb_eq in Hn. subst n.
  apply in_map_iff in Hin. destruct Hin as ([n c] & Hn & Hin).
  simpl in Hn. subst n. now exists c.
Qed.

Lemma urlsToCache_distinct : NoDup urlsToCache.
Proof.
  unfold urlsToCache. repeat constructor; simpl; intuition discriminate.
Qed.

(** The install step is all or nothing.  When one URL of the manifest
    cannot be fetched, or is answered outside 200..299, the step fails and
    every URL is answered from the caches as before.  When the step
    succeeds, every URL of the manifest was answered by the network inside
    200..299 and the generation of the current version holds that answer
    for it. *)
Theorem install_all_or_nothing (current : string)
    (network : string -> result response) (cs : cacheStorage) :
  (forall u,
      In u urlsToCache ->
      (forall r, network u = Ok r ->
         (200 <=? status r)%Z && (status r <=? 299)%Z = false) ->
      snd (on_install current network cs) = false
      /\ forall u', caches_match u' (fst (on_install current network cs))
                    = caches_match u' cs)
  /\ (snd (on_install current network cs) = true ->
      forall u, In u urlsToCache ->
        exists r c,
          network u = Ok r
          /\ (200 <=? status r)%Z && (status r <=? 299)%Z = true
          /\ In (current, c) (fst (on_install current network cs))
          /\ cache_match u c = Some r).
Proof.
  split.
  - intros u Hin Hbad. unfold on_install.
    destruct (fetch_all_fails network urlsToCache u Hin Hbad) as [e He].
    rewrite He. cbn [fst snd]. split; [reflexivity|].
    intros u'. apply caches_match_open.
  - unfold on_install.
    destruct (fetch_all network urlsToCache) as [fetched|e] eqn:Ef;
      cbn [fst snd]; [|discriminate].
    intros _ u Hin.
    destruct (fetch_all_spec _ _ _ Ef) as [Hkeys Hall].
    destruct (Hall u Hin) as (r & Hnet & Hok & Hfetched).
    destruct (caches_has_in current _ (caches_has_open current cs)) as [c Hc].
    exists r, (fold_left (fun acc e => cache_put (fst e) (snd e) acc) fetched c).
    repeat split; try assumption.
    + unfold in_cache. apply in_map_iff. exists (current, c).
      split; [|exact Hc]. cbn [fst snd]. now rewrite String.eqb_refl.
    + apply put_all_match; [|exact Hfetched].
      rewrite Hkeys. apply urlsToCache_distinct.
Qed.

(** An install in which the style sheet cannot be fetched, and one in
    which the network answers everything. *)
Lemma install_all_or_nothing_witness :
  let page := {| status := 200; type := "basic"; body := "ok" |} in
  let offline := fun u : string =>
    if String.eqb u "https://cdn.tailwindcss.com" then Throw TypeError else Ok page in
  (snd (on_install CACHE_NAME offline []) = false
   /\ forall u', caches_match u' (fst (on_install CACHE_NAME offline [])) = None)
  /\ exists r c,
       In (CACHE_NAME, c) (fst (on_install CACHE_NAME (fun _ => Ok page) []))
       /\ cache_match "/index.html" c = Some r
       /\ r = page.
Proof.
  intros page offline. split.
  - apply (proj1 (install_all_or_nothing CACHE_NAME offline [])
             "https://cdn.tailwindcss.com").
    + simpl. tauto.
    + intros r H. discriminate H.
  - destruct (proj2 (install_all_or_nothing CACHE_NAME (fun _ => Ok page) [])
                eq_refl "/index.html") as (r & c & Hnet & _ & Hin & Hc).
    + simpl. tauto.
    + exists r, c. split; [exact Hin|]. split; [exact Hc|]. now inversion Hnet.
Defined.

(** *** The swap of generations *)

(** Installing a generation under a new name does not change what the
    caches answer with: the older generations keep answering until the
    activation. *)
Theorem install_keeps_old_answers (current : string)
    (network : string -> result response) (cs : cacheStorage)
    (u : string) (r : response) :
  caches_has current cs = false ->
  caches_match u cs = Some r ->
  caches_match u (fst (on_install current network cs)) = Some r.
Proof.
  intros Hnew Hu.
  assert (Hmap : forall f, in_cache current f cs = cs).
  { intros f. unfold in_cache. rewrite <- (map_id cs) at 2.
    apply map_ext_in. intros [n c] Hin. cbn [fst snd].
    destruct (String.eqb n current) eqn:E; [|reflexivity].
    apply String.eqb_eq in E. subst n.
    assert (H : caches_has current cs = true).
    { unfold caches_has, caches_keys. apply existsb_exists.
      exists current. split; [|apply String.eqb_refl].
      apply in_map_iff. now exists (current, c). }
    congruence. }
  unfold on_install, caches_open. rewrite Hnew.
  destruct (fetch_all network urlsToCache) as [fetched|e]; cbn [fst].
  - unfold in_cache. rewrite map_app. fold (in_cache current
      (fun c => fold_left (fun acc e => cache_put (fst e) (snd e) acc) fetched c) cs).
    rewrite Hmap, caches_match_app. now rewrite Hu.
  - rewrite caches_match_app. now rewrite Hu.
Qed.

(** Version 2 is installed while version 1 holds an older shell. *)
Lemma install_keeps_old_answers_witness :
  let old := {| status := 200; type := "basic"; body := "<html>1" |} in
  let new := {| status := 200; type := "basic"; body := "<html>2" |} in
  let cs := [("v1", [("/index.html", old)])] in
  caches_match "/index.html" (fst (on_install "v2" (fun _ => Ok new) cs)) = Some old.
Proof.
  intros old new cs.
  apply (install_keeps_old_answers "v2" (fun _ => Ok new) cs "/index.html" old);
    reflexivity.
Defined.

(** What [addAll] has stored is no partial content. *)
Lemma fetch_all_whole (network : string -> result response)
    (urls : list string) (fetched : cache) :
  fetch_all network urls = Ok fetched ->
  forall u r, In u urls -> network u = Ok r -> status r <> 206%Z.
Proof.
  revert fetched. induction urls as [|u0 urls IH]; cbn [fetch_all];
    intros fetched H u r Hin Hnet; [contradiction|].
  destruct (network u0) as [r0|] eqn:En; cbn [bind] in H; [|discriminate].
  destruct ((200 <=? status r0)%Z && (status r0 <=? 299)%Z); [|discriminate].
  destruct (status r0 =? 206)%Z eqn:Ep; cbn [negb andb] in H; [discriminate|].
  destruct (fetch_all network urls) as [rs|]; cbn [bind] in H; [|discriminate].
  destruct Hin as [<-|Hin].
  - rewrite En in Hnet. injection Hnet as <-. now apply Z.eqb_neq.
  - exact (IH rs eq_refl u r Hin Hnet).
Qed.

(** After a successful install and the activation, every URL of the
    manifest is answered with what the network gave during that install,
    a whole response of a status in 200..299, older copies being gone: a
    [GET] of it is served from the cache, without the network and without
    a write; a request of another method for it is not served from the
    cache, and is handed what the network answers. *)
Theorem new_generation_serves (current : string)
    (network : string -> result response) (cs : cacheStorage) :
  snd (on_install current network cs) = true ->
  let live := on_activate current (fst (on_install current network cs)) in
  forall u, In u urlsToCache ->
    exists r,
      network u = Ok r
      /\ ((200 <=? status r) && (status r <=? 299))%Z = true
      /\ status r <> 206%Z
      /\ caches_match u live = Some r
      /\ (forall req later,
            url req = u -> respond "GET" req later live = (Some r, None))
      /\ (forall method req answer,
            method <> "GET" ->
            url req = u ->
            match_request method (url req) live = None
            /\ fst (respond method req (Ok answer) live) = answer).
Proof.
  intros Hok live u Hin. unfold on_install in *.
  destruct (fetch_all network urlsToCache) as [fetched|e] eqn:Ef;
    cbn [fst snd] in *; [|discriminate].
  destruct (fetch_all_spec _ _ _ Ef) as [Hkeys Hall].
  destruct (Hall u Hin) as (r & Hnet & Hrange & Hfetched).
  exists r. split; [exact Hnet|]. split; [exact Hrange|].
  split; [exact (fetch_all_whole _ _ _ Ef u r Hin Hnet)|].
  assert (Hlive : caches_match u live = Some r).
  { unfold live. rewrite on_activate_filter. apply caches_match_all.
    - destruct (caches_has_in current _ (caches_has_open current cs)) as [c Hc].
      intros Hempty.
      assert (Hc' : In (current,
                        fold_left (fun acc e => cache_put (fst e) (snd e) acc)
                          fetched c)
                      (filter (fun g => String.eqb (fst g) current)
                         (in_cache current
                            (fun c0 => fold_left
                                         (fun acc e => cache_put (fst e) (snd e) acc)
                                         fetched c0)
                            (caches_open current cs)))).
      { apply filter_In. split; [|apply String.eqb_refl].
        unfold in_cache. apply in_map_iff. exists (current, c).
        split; [|exact Hc]. cbn [fst snd]. now rewrite String.eqb_refl. }
      rewrite Hempty in Hc'. contradiction.
    - intros g Hg. apply filter_In in Hg. destruct Hg as [Hg Hname].
      unfold in_cache in Hg. apply in_map_iff in Hg.
      destruct Hg as ([n c] & Hgc & _). cbn [fst snd] in Hgc.
      destruct (String.eqb n current) eqn:En.
      + subst g. cbn [snd]. apply put_all_match; [|exact Hfetched].
        rewrite Hkeys. apply urlsToCache_distinct.
      + subst g. cbn [fst] in Hname. congruence. }
  split; [exact Hlive|]. split.
  - intros req later <-. unfold respond, match_request.
    change (String.eqb "GET" "GET") with true. cbv iota. now rewrite Hlive.
  - intros method req answer Hne _.
    assert (Hmiss : match_request method (url req) live = None).
    { unfold match_request. apply String.eqb_neq in Hne. now rewrite Hne. }
    split; [exact Hmiss|]. unfold respond. rewrite Hmiss.
    destruct (not_cacheable answer); [reflexivity|].
    now destruct answer.
Qed.

(** Version 2 replaces version 1: the shell served is the new one, and a
    post to the shell goes to the network. *)
Lemma new_generation_serves_witness :
  let old := {| status := 200; type := "basic"; body := "<html>1" |} in
  let new := {| status := 200; type := "basic"; body := "<html>2" |} in
  let cs := [("v1", [("/index.html", old)])] in
  let live := on_activate "v2" (fst (on_install "v2" (fun _ => Ok new) cs)) in
  let shell := {| url := "/index.html"; destination := "document" |} in
  exists r,
    r = new
    /\ caches_match "/index.html" live = Some r
    /\ respond "GET" shell (Throw TypeError) live = (Some r, None)
    /\ fst (respond "POST" shell (Ok None) live) = None.
Proof.
  intros old new cs live shell.
  destruct (new_generation_serves "v2" (fun _ => Ok new) cs eq_refl "/index.html")
    as (r & Hnet & _ & _ & Hlive & Hget & Hother).
  - simpl. tauto.
  - exists r. split; [now inversion Hnet|]. split; [exact Hlive|].
    split; [now apply Hget|].
    apply (Hother "POST" shell None); [discriminate | reflexivity].
Defined.

End CacheFacts.
